(** * yum_distro_cleaner: a shallow embedding of the retention engine

    The development follows [src/yum_distro_cleaner.py].  Definitions come
    first:
    - [Order], [Comparator]: the version comparator of the specification
      (section 4.1); the program itself imports [labelCompare] from the rpm
      bindings;
    - [Py]: the Python the program relies on (exceptions, loops over a
      mutable state, dictionaries, [list.sort(cmp, reverse=True)],
      [list.remove], slices, [os.path.join]);
    - the data model and the retention engine ([__cleanup_arch],
      [__cleanup_previous_versions], [__cleanup_version]), the package index
      and the metadata update, method by method;
    - [Rpm]: the rpm libraries the program calls, and [Scenario]: a small
      distribution, both for the examples;
    - the configuration, [__init__], [__index_repo] and [cleanup] itself,
      and [Distro]: a small configuration for the examples.
    The properties of the program follow, method by method. *)

From Stdlib Require Import List String Ascii ZArith NArith Lia Bool.
From Stdlib Require Import Permutation Sorted DecimalString.
Import ListNotations.

Local Open Scope string_scope.
Local Open Scope Z_scope.

(* ================================================================== *)
(** * Comparisons that are total preorders *)
(* ================================================================== *)

Module Order.

(** A three-way comparison that orders [A] totally, up to the elements it
    declares equal. *)
Record preorder {A : Type} (c : A -> A -> comparison) : Prop := {
  po_antisym : forall a b, c b a = CompOpp (c a b);
  po_lt_trans : forall a b d, c a b = Lt -> c b d = Lt -> c a d = Lt;
  po_eq_left : forall a b d, c a b = Eq -> c a d = c b d
}.

(** The first component decides; the second breaks ties. *)
Definition lex {A B : Type} (ca : A -> A -> comparison)
    (cb : B -> B -> comparison) (x y : A * B) : comparison :=
  match ca (fst x) (fst y) with
  | Eq => cb (snd x) (snd y)
  | r => r
  end.

(** The integer a comparator returns: -1, 0 or 1. *)
Definition sign (r : comparison) : Z :=
  match r with Lt => -1 | Eq => 0 | Gt => 1 end.

End Order.

(* ================================================================== *)
(** * The version comparator (specification, section 4.1) *)
(* ================================================================== *)

Module Comparator.
Import Order.

Definition is_digit (ch : ascii) : bool :=
  let n := N_of_ascii ch in ((48 <=? n) && (n <=? 57))%N.

Definition is_alpha (ch : ascii) : bool :=
  let n := N_of_ascii ch in
  (((65 <=? n) && (n <=? 90)) || ((97 <=? n) && (n <=? 122)))%N.

Definition is_tilde (ch : ascii) : bool := (N_of_ascii ch =? 126)%N.

Definition digit_value (ch : ascii) : N := (N_of_ascii ch - 48)%N.

(** A segment of a version string: a maximal run of letters, a maximal run
    of digits read as an integer (so leading zeros do not count), or a
    tilde. *)
Inductive segment : Type :=
| Tilde
| Alpha (s : string)
| Numeric (n : N).

(** The run being read while a string is split. *)
Inductive run : Type :=
| NoRun
| AlphaRun (s : string)
| DigitRun (n : N).

Definition close (r : run) : list segment :=
  match r with
  | NoRun => []
  | AlphaRun s => [Alpha s]
  | DigitRun n => [Numeric n]
  end.

(** Modelled from the spec: the splitting of a version string into "maximal
    runs of alphabetic characters and maximal runs of digits
    (non-alphanumeric characters act as segment separators and are
    otherwise ignored positionally)"; a tilde is kept, since it takes part
    in the comparison.  The program has no code for it (it calls the rpm
    bindings). *)
Fixpoint split_segments (cur : run) (s : string) : list segment :=
  match s with
  | EmptyString => close cur
  | String ch rest =>
      if is_digit ch then
        match cur with
        | DigitRun n =>
            split_segments (DigitRun (10 * n + digit_value ch)%N) rest
        | _ => close cur ++ split_segments (DigitRun (digit_value ch)) rest
        end
      else if is_alpha ch then
        match cur with
        | AlphaRun a => split_segments (AlphaRun (a ++ String ch "")) rest
        | _ => close cur ++ split_segments (AlphaRun (String ch "")) rest
        end
      else if is_tilde ch then close cur ++ Tilde :: split_segments NoRun rest
      else close cur ++ split_segments NoRun rest
  end.

Definition segments (s : string) : list segment := split_segments NoRun s.

(** Modelled from the spec: "A numeric segment is always greater than an
    alphabetic segment. Two numeric segments compare as integers (leading
    zeros stripped). Two alphabetic segments compare lexicographically by
    byte value. The character ~ at any position sorts lower than
    everything". *)
Definition segment_compare (x y : segment) : comparison :=
  match x, y with
  | Tilde, Tilde => Eq
  | Tilde, _ => Lt
  | _, Tilde => Gt
  | Alpha s, Alpha t => String.compare s t
  | Alpha _, Numeric _ => Lt
  | Numeric _, Alpha _ => Gt
  | Numeric n, Numeric m => N.compare n m
  end.

(** Modelled from the spec: "compare successive segment pairs"; "absence of
    a character sorts lower than a non-~ character but higher than ~"; "If
    all compared segments are equal, the string with extra trailing segments
    is greater, unless the extra segment is a ~-prefixed segment, in which
    case it is lesser". *)
Fixpoint segments_compare (a b : list segment) : comparison :=
  match a, b with
  | [], [] => Eq
  | [], Tilde :: _ => Gt
  | [], _ :: _ => Lt
  | Tilde :: _, [] => Lt
  | _ :: _, [] => Gt
  | x :: a', y :: b' =>
      match segment_compare x y with
      | Eq => segments_compare a' b'
      | r => r
      end
  end.

Definition string_compare (s t : string) : comparison :=
  segments_compare (segments s) (segments t).

(** The string-segment comparison as an integer. *)
Definition vercmp (s t : string) : Z := sign (string_compare s t).

(** An EVR triple; the epoch is optional. *)
Definition EVR : Type := option Z * string * string.

(** Modelled from the spec: "absent epoch is treated as 0". *)
Definition epoch_value (e : option Z) : Z :=
  match e with Some n => n | None => 0 end.

Definition evr_compare : EVR -> EVR -> comparison :=
  lex (lex (fun e1 e2 => Z.compare (epoch_value e1) (epoch_value e2))
           string_compare)
      string_compare.

(** Modelled from the spec: the contract [compare(a, b) -> {-1, 0, 1}] of
    section 4.1: "Epochs compare first as integers"; "If epochs differ, the
    result is determined"; "If epochs are equal, compare version; if equal,
    compare release, using the same string-segment algorithm". *)
Definition compare (a b : EVR) : Z := sign (evr_compare a b).

End Comparator.


(* ================================================================== *)
(** * The Python the program relies on *)
(* ================================================================== *)

Module Py.

(** The exceptions the modelled code can raise.  [EnvironmentError] stands
    for what [os.makedirs] and [shutil.move] raise ([OSError], [IOError],
    [shutil.Error]). *)
Inductive exn : Type :=
| IndexError
| KeyError
| ValueError
| TypeError
| EnvironmentError
| CreaterepoError (path : string) (returncode : Z).

Inductive outcome (A : Type) : Type :=
| Returned (a : A)
| Raised (e : exn).
Arguments Returned {A} a.
Arguments Raised {A} e.

(** A computation on the cleaner's mutable state [S].  The state survives
    an exception: what was moved before a crash stays moved. *)
Definition M (S A : Type) : Type := S -> S * outcome A.

Definition ret {S A : Type} (a : A) : M S A := fun s => (s, Returned a).

Definition raise {S A : Type} (e : exn) : M S A := fun s => (s, Raised e).

Definition bind {S A B : Type} (m : M S A) (k : A -> M S B) : M S B :=
  fun s =>
    match m s with
    | (s', Returned a) => k a s'
    | (s', Raised e) => (s', Raised e)
    end.

(** [for x in l: f(x)] *)
Fixpoint for_each {S A : Type} (f : A -> M S unit) (l : list A) : M S unit :=
  match l with
  | [] => ret tt
  | x :: l' => bind (f x) (fun _ => for_each f l')
  end.

(** A loop that carries local variables [b] from one item to the next. *)
Fixpoint for_fold {S A B : Type} (f : B -> A -> M S B) (l : list A) (b : B)
  : M S B :=
  match l with
  | [] => ret b
  | x :: l' => bind (f b x) (for_fold f l')
  end.

Section Dict.
Context {K V : Type}.
Variable eqb : K -> K -> bool.

(** A [dict] as the list of its items, oldest key first. *)
Fixpoint dict_get (k : K) (d : list (K * V)) : option V :=
  match d with
  | [] => None
  | (k', v) :: d' => if eqb k k' then Some v else dict_get k d'
  end.

(** [d[k] = v] *)
Fixpoint dict_set (k : K) (v : V) (d : list (K * V)) : list (K * V) :=
  match d with
  | [] => [(k, v)]
  | (k', v') :: d' =>
      if eqb k k' then (k, v) :: d' else (k', v') :: dict_set k v d'
  end.
End Dict.

Section Lists.
Context {A : Type}.

(** [l.sort(cmp, reverse=True)]: the sort is stable and only asks whether
    [cmp(x, y) < 0]; with [reverse] the list comes out in descending order
    and items that compare equal keep their original order. *)
Fixpoint insert_desc (cmp : A -> A -> Z) (x : A) (l : list A) : list A :=
  match l with
  | [] => [x]
  | y :: l' => if cmp x y <? 0 then y :: insert_desc cmp x l' else x :: l
  end.

Definition sort_reverse (cmp : A -> A -> Z) (l : list A) : list A :=
  fold_right (insert_desc cmp) [] l.

(** [ORDER BY]: ascending, rows with equal keys in table order. *)
Fixpoint insert_asc (lt : A -> A -> bool) (x : A) (l : list A) : list A :=
  match l with
  | [] => [x]
  | y :: l' => if lt y x then y :: insert_asc lt x l' else x :: l
  end.

Definition order_by (lt : A -> A -> bool) (l : list A) : list A :=
  fold_right (insert_asc lt) [] l.

(** [l.remove(x)]: drops the first item equal to [x]; [ValueError] when
    there is none. *)
Fixpoint list_remove (eq_dec : forall a b : A, {a = b} + {a <> b})
    (x : A) (l : list A) : outcome (list A) :=
  match l with
  | [] => Raised ValueError
  | y :: l' =>
      if eq_dec y x then Returned l'
      else match list_remove eq_dec x l' with
           | Returned r => Returned (y :: r)
           | Raised e => Raised e
           end
  end.

(** [l[k:]], also for a negative [k]. *)
Definition slice_from (k : Z) (l : list A) : list A :=
  if k <? 0 then skipn (Z.to_nat (Z.of_nat (List.length l) + k)) l
  else skipn (Z.to_nat k) l.
End Lists.

(** [str(n)] for an integer. *)
Definition str (n : Z) : string := NilZero.string_of_int (Z.to_int n).

Definition starts_with_slash (s : string) : bool :=
  match s with
  | String ch _ => Ascii.eqb ch "/"
  | EmptyString => false
  end.

Fixpoint ends_with_slash (s : string) : bool :=
  match s with
  | EmptyString => false
  | String ch EmptyString => Ascii.eqb ch "/"
  | String _ rest => ends_with_slash rest
  end.

(** [os.path.join(a, b)] on POSIX. *)
Definition path_join (a b : string) : string :=
  if starts_with_slash b then b
  else if String.eqb a "" || ends_with_slash a then a ++ b
  else a ++ "/" ++ b.

End Py.

Import Py.

Notation "x <- m ;; k" := (bind m (fun x => k))
  (at level 61, m at next level, right associativity).
Notation "m ;;; k" := (bind m (fun _ => k))
  (at level 61, right associativity).

(* ================================================================== *)
(** * The data model *)
(* ================================================================== *)

(** [class Channel] *)
Module Channel.
Inductive t : Type := STABLE | BETA.

Definition eqb (a b : t) : bool :=
  match a, b with
  | STABLE, STABLE | BETA, BETA => true
  | _, _ => false
  end.

Definition from_string (channel : string) : outcome t :=
  if String.eqb channel "stable" then Returned STABLE
  else if String.eqb channel "beta" then Returned BETA
  else Raised ValueError.
End Channel.

(** [class RemovalReason] *)
Module RemovalReason.
Inductive t : Type := EXPIRED_BY_STABLE | OUTDATED.

Definition text (reason : t) : string :=
  match reason with
  | EXPIRED_BY_STABLE => "obsoleted by stable"
  | OUTDATED => "outdated"
  end.
End RemovalReason.

(** A row of the [repositories] table; [self.__repos] holds the same
    fields. *)
Module Repo.
Record t : Type := mk {
  repo_id : Z;
  name : string;
  arch : string;
  path : string;
  channel : Channel.t;
  readonly : bool
}.
End Repo.

(** A row of the [packages] table. *)
Module Pkg.
Record t : Type := mk {
  package_id : Z;
  name : string;
  epoch : Z;
  version : string;
  rel : string;
  arch : string;
  sourcerpm : option string;
  location : string;
  repo_id : Z
}.

Definition eq_dec (a b : t) : {a = b} + {a <> b}.
Proof.
  decide equality;
    try apply Z.eq_dec; try apply string_dec.
  decide equality. apply string_dec.
Defined.
End Pkg.

(** A [createrepo_c.Package] as the metadata parser hands it over; [epoch]
    is the integer [int(package.epoch)]. *)
Module CrPackage.
Record t : Type := mk {
  name : string;
  epoch : Z;
  version : string;
  release : string;
  arch : string;
  rpm_sourcerpm : option string;
  location_href : string
}.
End CrPackage.

(** The in-memory database of [__create_db]. *)
Record database : Type := {
  repositories : list Repo.t;
  packages : list Pkg.t
}.

(** The fields of a [DistroCleaner] that do not change during [cleanup]:
    [self.__config]'s name and version, [self.__backup_dir],
    [self.__keep_beta], [self.__keep_stable], [self.__exclude_re] (a compiled
    pattern, as the predicate its [search] computes) and [self.__repos]. *)
Record DistroCleaner : Type := {
  config_name : string;
  config_version : string;
  backup_dir : string;
  keep_beta : Z;
  keep_stable : Z;
  exclude_re : option (string -> bool);
  repos_by_id : list Repo.t
}.

(** One pass of the loop body of [__cleanup_version]: the package it is
    run for, the reason, the path handed to [shutil.move] and the directory
    the file is to be moved into. *)
Record removal : Type := {
  rm_package : Pkg.t;
  rm_reason : RemovalReason.t;
  rm_path : string;
  rm_backup_dir : string
}.

(** What [cleanup] changes: [self.__stats] and the calls of [shutil.move]
    made so far, in order.  A call stays on record when it raises; it is
    then the last one. *)
Record executor : Type := {
  stats : list (Z * Z);
  moved : list removal
}.

(** The file system as [__cleanup_version] meets it.  Both answers may
    depend on the calls of [shutil.move] made before:
    [makedirs calls backup_dir] tells whether [backup_dir] is there or
    [os.makedirs(backup_dir)] makes it, and [shutil_move calls m] whether
    [shutil.move] carries the call [m] out.  The program raises
    otherwise. *)
Record filesystem : Type := {
  makedirs : list removal -> string -> bool;
  shutil_move : list removal -> removal -> bool
}.

(** [(srpm_version, srpm_release)], the key of the [versions] dictionary. *)
Definition version_key : Type := (string * string)%type.

Definition version_key_eqb (a b : version_key) : bool :=
  String.eqb (fst a) (fst b) && String.eqb (snd a) (snd b).

(** The triple handed to [labelCompare]. *)
Definition label : Type := (string * string * string)%type.

Definition find_repo (repos : list Repo.t) (repo_id : Z) : option Repo.t :=
  find (fun repo => Z.eqb (Repo.repo_id repo) repo_id) repos.

Definition mem (x : Z) (l : list Z) : bool := existsb (Z.eqb x) l.

(* ================================================================== *)
(** * The retention engine *)
(* ================================================================== *)

Section Engine.

Variable fs : filesystem.

(** [rpm.labelCompare], on two [(epoch, version, release)] triples of
    strings. *)
Variable labelCompare : label -> label -> Z.

(** [rpmUtils.miscutils.splitFilename] on the [sourcerpm] column; [None]
    when the call raises (the column is NULL). *)
Variable splitFilename :
  option string -> option (string * string * string * string * string).

(** The order in which [itervalues] walks a [versions] dictionary: Python 2
    leaves it to the hash table. *)
Variable iteration_order :
  list (version_key * list Pkg.t) -> list (version_key * list Pkg.t).

Variable self : DistroCleaner.

(** [sort_by_rpm_name]; [srpm_name] is [None] before the first row. *)
Definition sort_by_rpm_name (srpm_name : option string) (a b : Pkg.t) : Z :=
  match srpm_name with
  | Some n =>
      if String.eqb (Pkg.name a) n then 1
      else if String.eqb (Pkg.name b) n then -1 else 0
  | None => 0
  end.

Definition evr_of (p : Pkg.t) : Z * string * string :=
  (Pkg.epoch p, Pkg.version p, Pkg.rel p).

(** [(str(evr[0]), evr[1], evr[2])] *)
Definition label_of_evr (evr : Z * string * string) : label :=
  let '(e, v, r) := evr in (str e, v, r).

(** [v[0]['repo_id'] in stable_repo_ids].  Every list that reaches this
    test went through [ver_packages[0]] in the first loop of
    [__cleanup_previous_versions], which raises on an empty one. *)
Definition first_in (stable_repo_ids : list Z) (v : list Pkg.t) : bool :=
  match v with
  | p :: _ => mem (Pkg.repo_id p) stable_repo_ids
  | [] => false
  end.

(** [(str(v[0]['epoch']), v[0]['version'], v[0]['rel'])], for a list that
    is not empty (see [first_in]). *)
Definition first_label (v : list Pkg.t) : label :=
  match v with
  | p :: _ => label_of_evr (evr_of p)
  | [] => ("", "", "")
  end.

Definition stat_init (repo_id : Z) : M executor unit :=
  fun ex =>
    match dict_get Z.eqb repo_id (stats ex) with
    | Some _ => (ex, Returned tt)
    | None =>
        ({| stats := dict_set Z.eqb repo_id 0 (stats ex); moved := moved ex |},
         Returned tt)
    end.

(** [self.__stats[repo_id] += 1] *)
Definition stat_incr (repo_id : Z) : M executor unit :=
  fun ex =>
    match dict_get Z.eqb repo_id (stats ex) with
    | Some n =>
        ({| stats := dict_set Z.eqb repo_id (n + 1) (stats ex);
            moved := moved ex |}, Returned tt)
    | None => (ex, Raised KeyError)
    end.

(** [if not os.path.exists(backup_dir): os.makedirs(backup_dir)] *)
Definition ensure_dir (backup_dir : string) : M executor unit :=
  fun ex =>
    if makedirs fs (moved ex) backup_dir then (ex, Returned tt)
    else (ex, Raised EnvironmentError).

(** [shutil.move(package_path, backup_dir)], with the line printed before
    it: the call goes on record, and raises when the file system refuses
    it. *)
Definition move (m : removal) : M executor unit :=
  fun ex =>
    let ex' := {| stats := stats ex; moved := (moved ex ++ [m])%list |} in
    if shutil_move fs (moved ex) m then (ex', Returned tt)
    else (ex', Raised EnvironmentError).

(** [__cleanup_version] *)
Definition cleanup_version (packages : list Pkg.t) (reason : RemovalReason.t)
  : M executor unit :=
  match packages with
  | [] => raise IndexError
  | first :: _ =>
      let repo_id := Pkg.repo_id first in
      match find_repo (repos_by_id self) repo_id with
      | None => raise KeyError
      | Some repo =>
          if Repo.readonly repo then ret tt
          else
            let backup :=
              path_join (path_join (backup_dir self) (Repo.name repo))
                        (Repo.arch repo) in
            ensure_dir backup ;;;
            stat_init repo_id ;;;
            for_each
              (fun package =>
                 let package_path :=
                   path_join (Repo.path repo) (Pkg.location package) in
                 move {| rm_package := package; rm_reason := reason;
                         rm_path := package_path; rm_backup_dir := backup |} ;;;
                 stat_incr repo_id)
              packages
      end
  end.

(** [ver_packages.sort(cmp=lambda a, b: self.sort_by_rpm_name(srpm_name, a,
    b), reverse=True)] *)
Definition main_first (srpm_name : option string) (ver_packages : list Pkg.t)
  : list Pkg.t :=
  sort_reverse (sort_by_rpm_name srpm_name) ver_packages.

(** The list [stable_repo_ids]. *)
Definition stable_repo_ids_of (repos : list Repo.t) : list Z :=
  map Repo.repo_id
      (filter (fun repo => Channel.eqb (Repo.channel repo) Channel.STABLE)
              repos).

(** The first loop of [__cleanup_previous_versions]: each version's
    packages are put main package first, and [latest_stable_evr] is
    updated.  [latest] and [ord_versions] are the loop's variables. *)
Fixpoint rearrange (srpm_name : option string) (stable_repo_ids : list Z)
    (versions : list (list Pkg.t)) (latest : option (Z * string * string))
    (ord_versions : list (list Pkg.t))
  : outcome (option (Z * string * string) * list (list Pkg.t)) :=
  match versions with
  | [] => Returned (latest, ord_versions)
  | ver_packages :: rest =>
      let sorted := main_first srpm_name ver_packages in
      match sorted with
      | [] => Raised IndexError
      | main_package :: _ =>
          let main_package_evr := evr_of main_package in
          let is_latest :=
            match latest with
            | Some latest_stable_evr =>
                mem (Pkg.repo_id main_package) stable_repo_ids
                && (labelCompare (label_of_evr latest_stable_evr)
                                 (label_of_evr main_package_evr) <? 0)
            | None => false
            end in
          let latest' :=
            match latest with
            | None => Some main_package_evr
            | Some _ => if is_latest then Some main_package_evr else latest
            end in
          rearrange srpm_name stable_repo_ids rest latest'
                    (ord_versions ++ [sorted])
      end
  end.

(** The comparison handed to [ord_versions.sort]. *)
Definition compare_versions (a b : list Pkg.t) : Z :=
  labelCompare (first_label a) (first_label b).

(** The condition of the list comprehension [expired_beta]. *)
Definition is_expired (stable_repo_ids : list Z)
    (latest_stable_evr : Z * string * string) (v : list Pkg.t) : bool :=
  negb (first_in stable_repo_ids v)
  && (0 <? labelCompare (label_of_evr latest_stable_evr) (first_label v)).

(** The list comprehension [expired_beta].  With no version at all
    [latest_stable_evr] is still [None], and the comprehension has nothing
    to test. *)
Definition expired_beta_of (stable_repo_ids : list Z)
    (latest : option (Z * string * string)) (ord_versions : list (list Pkg.t))
  : list (list Pkg.t) :=
  match latest with
  | Some latest_stable_evr =>
      filter (is_expired stable_repo_ids latest_stable_evr) ord_versions
  | None => []
  end.

(** [for packages in expired_beta: ...]; returns what is left of
    [ord_versions]. *)
Fixpoint expire (expired_beta ord_versions : list (list Pkg.t))
  : M executor (list (list Pkg.t)) :=
  match expired_beta with
  | [] => ret ord_versions
  | packages :: rest =>
      cleanup_version packages RemovalReason.EXPIRED_BY_STABLE ;;;
      match list_remove (list_eq_dec Pkg.eq_dec) packages ord_versions with
      | Returned ord_versions' => expire rest ord_versions'
      | Raised e => raise e
      end
  end.

(** [__cleanup_previous_versions]; [versions] is [versions.itervalues()],
    in the order of the iteration. *)
Definition cleanup_previous_versions (srpm_name : option string)
    (versions : list (list Pkg.t)) (repos : list Repo.t) : M executor unit :=
  let stable_repo_ids := stable_repo_ids_of repos in
  match rearrange srpm_name stable_repo_ids versions None [] with
  | Raised e => raise e
  | Returned (latest_stable_evr, ord_versions) =>
      let ord_versions := sort_reverse compare_versions ord_versions in
      let expired_beta :=
        expired_beta_of stable_repo_ids latest_stable_evr ord_versions in
      ord_versions <- expire expired_beta ord_versions ;;
      let stable_versions := filter (first_in stable_repo_ids) ord_versions in
      let beta_versions :=
        filter (fun v => negb (first_in stable_repo_ids v)) ord_versions in
      for_each (fun packages => cleanup_version packages RemovalReason.OUTDATED)
               (slice_from (keep_beta self) beta_versions) ;;;
      for_each (fun packages => cleanup_version packages RemovalReason.OUTDATED)
               (slice_from (keep_stable self) stable_versions)
  end.

(** [versions[version_key].append(pkg)], or a new one-package list. *)
Definition add_version (key : version_key) (pkg : Pkg.t)
    (versions : list (version_key * list Pkg.t))
  : list (version_key * list Pkg.t) :=
  match dict_get version_key_eqb key versions with
  | None => dict_set version_key_eqb key [pkg] versions
  | Some l => dict_set version_key_eqb key (l ++ [pkg])%list versions
  end.

Definition name_differs (last_srpm_name : option string) (srpm_name : string)
  : bool :=
  match last_srpm_name with
  | Some n => negb (String.eqb n srpm_name)
  | None => true
  end.

(** The body of the loop of [__cleanup_arch] for one row; [last_srpm_name]
    and [versions] are the loop's variables. *)
Definition cleanup_arch_row (repos : list Repo.t)
    (vars : option string * list (version_key * list Pkg.t))
    (pkg_row : Pkg.t)
  : M executor (option string * list (version_key * list Pkg.t)) :=
  let '(last_srpm_name, versions) := vars in
  match splitFilename (Pkg.sourcerpm pkg_row) with
  | None =>
      match find_repo repos (Pkg.repo_id pkg_row) with
      | None => raise KeyError
      | Some _ => ret vars
      end
  | Some (srpm_name, srpm_version, srpm_release, _, _) =>
      vars' <-
        (if name_differs last_srpm_name srpm_name then
           (if (1 <? Z.of_nat (List.length versions)) then
              cleanup_previous_versions last_srpm_name
                (map snd (iteration_order versions)) repos
            else ret tt) ;;;
           ret (Some srpm_name, [])
         else ret vars) ;;
      ret (fst vars',
           add_version (srpm_version, srpm_release) pkg_row (snd vars'))
  end.

Definition sourcerpm_lt (a b : Pkg.t) : bool :=
  match Pkg.sourcerpm a, Pkg.sourcerpm b with
  | None, Some _ => true
  | Some x, Some y => String.ltb x y
  | _, _ => false
  end.

(** [SELECT * FROM packages WHERE repo_id IN (...) ORDER BY sourcerpm] *)
Definition select_packages (db : database) (repos : list Repo.t)
  : list Pkg.t :=
  order_by sourcerpm_lt
    (filter (fun p => mem (Pkg.repo_id p) (map Repo.repo_id repos))
            (packages db)).

(** [__cleanup_arch], on the rows the query returns. *)
Definition cleanup_rows (repos : list Repo.t) (rows : list Pkg.t)
  : M executor unit :=
  for_fold (cleanup_arch_row repos) rows (None, []) ;;; ret tt.

(** [__cleanup_arch] *)
Definition cleanup_arch (db : database) (repos : list Repo.t)
  : M executor unit :=
  cleanup_rows repos (select_packages db repos).

(** ** What the properties below speak of *)

(** A removal plan, run: [__cleanup_version] on each of its version groups
    in turn. *)
Definition run_plan (plan : list (list Pkg.t * RemovalReason.t))
  : M executor unit :=
  for_each (fun entry => cleanup_version (fst entry) (snd entry)) plan.

(** The version groups [__cleanup_previous_versions] hands to
    [__cleanup_version], in that order, for the sorted [ord_versions]. *)
Definition removal_plan (stable_repo_ids : list Z)
    (latest : option (Z * string * string)) (ord_versions : list (list Pkg.t))
  : list (list Pkg.t * RemovalReason.t) :=
  let expired := expired_beta_of stable_repo_ids latest ord_versions in
  let left :=
    match latest with
    | Some l =>
        filter (fun v => negb (is_expired stable_repo_ids l v)) ord_versions
    | None => ord_versions
    end in
  (map (fun v => (v, RemovalReason.EXPIRED_BY_STABLE)) expired
   ++ map (fun v => (v, RemovalReason.OUTDATED))
          (slice_from (keep_beta self)
             (filter (fun v => negb (first_in stable_repo_ids v)) left))
   ++ map (fun v => (v, RemovalReason.OUTDATED))
          (slice_from (keep_stable self)
             (filter (first_in stable_repo_ids) left)))%list.

(** A version group holds a package of a stable repository. *)
Definition contains_stable (stable_repo_ids : list Z) (v : list Pkg.t)
  : bool :=
  existsb (fun p => mem (Pkg.repo_id p) stable_repo_ids) v.

(** The specification's [latestStableEVR] (section 4.3, step 5), as a
    property of [latest]: it is the EVR of the representative of a version
    group that holds a stable package, and no such representative compares
    above it.  [groups] are the version groups, representative first. *)
Definition spec_latest_stable_evr (stable_repo_ids : list Z)
    (groups : list (list Pkg.t)) (latest : Z * string * string) : Prop :=
  (exists v rep, In v groups /\ contains_stable stable_repo_ids v = true /\
                 hd_error v = Some rep /\ evr_of rep = latest) /\
  (forall v, In v groups -> contains_stable stable_repo_ids v = true ->
             labelCompare (label_of_evr latest) (first_label v) >= 0).

(** The removal the loop of [__cleanup_version] records for [package] when
    the first package of its version group lives in [repo]. *)
Definition removal_for (repo : Repo.t) (reason : RemovalReason.t)
    (package : Pkg.t) : removal :=
  {| rm_package := package;
     rm_reason := reason;
     rm_path := path_join (Repo.path repo) (Pkg.location package);
     rm_backup_dir :=
       path_join (path_join (backup_dir self) (Repo.name repo))
                 (Repo.arch repo) |}.

(** [m] records only removals that satisfy [P], on top of those already
    recorded, and what it returns satisfies [Q]. *)
Definition emits {A : Type} (m : M executor A) (P : removal -> Prop)
    (Q : A -> Prop) : Prop :=
  forall ex,
    exists new,
      moved (fst (m ex)) = (moved ex ++ new)%list /\ Forall P new /\
      match snd (m ex) with
      | Returned a => Q a
      | Raised _ => True
      end.

(** The source name [splitFilename] gives a row, if any, and the key the
    row is filed under in [versions]. *)
Definition srpm_name_of (row : Pkg.t) : option string :=
  match splitFilename (Pkg.sourcerpm row) with
  | Some (srpm_name, _, _, _, _) => Some srpm_name
  | None => None
  end.

Definition version_key_of (row : Pkg.t) : option version_key :=
  match splitFilename (Pkg.sourcerpm row) with
  | Some (_, srpm_version, srpm_release, _, _) =>
      Some (srpm_version, srpm_release)
  | None => None
  end.

(** The [versions] dictionary after the rows of one source name. *)
Definition gather (rows : list Pkg.t)
    (versions : list (version_key * list Pkg.t))
  : list (version_key * list Pkg.t) :=
  fold_left
    (fun versions row =>
       match version_key_of row with
       | Some key => add_version key row versions
       | None => versions
       end)
    rows versions.

(** What holds of [versions] once the rows [done] are filed: a key occurs
    once, a version holds only rows of its key, and every row is filed. *)
Definition filed (versions : list (version_key * list Pkg.t))
    (done : list Pkg.t) : Prop :=
  NoDup (map fst versions) /\
  (forall key group, In (key, group) versions ->
     forall p, In p group -> version_key_of p = Some key) /\
  (forall p, In p done ->
     exists key group,
       version_key_of p = Some key /\ In (key, group) versions /\ In p group).

(** The packages of one version group of the [versions] dictionary. *)
Definition same_version_group (versions : list (version_key * list Pkg.t))
    (p q : Pkg.t) : Prop :=
  exists key group, In (key, group) versions /\ In p group /\ In q group.

End Engine.

(* ================================================================== *)
(** * The package index and the metadata update *)
(* ================================================================== *)

(** [__is_srpm_excluded] *)
Definition is_srpm_excluded (self : DistroCleaner) (srpm_name : string)
  : bool :=
  match exclude_re self with
  | Some search => search srpm_name
  | None => false
  end.

(** The id [AUTOINCREMENT] gives the next row. *)
Definition next_package_id (rows : list Pkg.t) : Z :=
  1 + fold_right (fun p m => Z.max (Pkg.package_id p) m) 0 rows.

(** [__save_repo_package] *)
Definition save_repo_package (self : DistroCleaner) (db : database)
    (repo_id : Z) (package : CrPackage.t) : database :=
  let excluded :=
    match CrPackage.rpm_sourcerpm package with
    | Some srpm => negb (String.eqb srpm "") && is_srpm_excluded self srpm
    | None => false
    end in
  if excluded then db
  else
    {| repositories := repositories db;
       packages :=
         packages db ++
         [ {| Pkg.package_id := next_package_id (packages db);
              Pkg.name := CrPackage.name package;
              Pkg.epoch := CrPackage.epoch package;
              Pkg.version := CrPackage.version package;
              Pkg.rel := CrPackage.release package;
              Pkg.arch := CrPackage.arch package;
              Pkg.sourcerpm := CrPackage.rpm_sourcerpm package;
              Pkg.location := CrPackage.location_href package;
              Pkg.repo_id := repo_id |} ] |}.

(** [__index_repo_packages]: [xml_parse_primary] calls [save_cb] on every
    package of the metadata, in turn. *)
Definition index_repo_packages (self : DistroCleaner) (db : database)
    (repo_id : Z) (primary : list CrPackage.t) : database :=
  fold_left (fun db package => save_repo_package self db repo_id package)
            primary db.

Section Regeneration.

(** The return code of the [createrepo_c] process for a command line. *)
Variable createrepo_c : list string -> Z.

(** [get_repomd_record_xml_path(repo_path, record_type)], under a path
    whose [repomd.xml] was read when the repository was indexed. *)
Variable get_repomd_record_xml_path : string -> string -> option string.

(** The command line [create_repo] builds. *)
Definition createrepo_command (path : string) (group_file : option string)
  : list string :=
  (["createrepo_c"; "--keep-all-metadata"; "--compatibility";
    "--simple-md-filenames"]
   ++ match group_file with
      | Some f => if String.eqb f "" then [] else ["--groupfile"; f]
      | None => []
      end
   ++ [path])%list.

(** [create_repo]; the state is the list of the commands run so far. *)
Definition create_repo (path : string) (group_file : option string)
  : M (list (list string)) unit :=
  let cmd := createrepo_command path group_file in
  fun ran =>
    let returncode := createrepo_c cmd in
    if returncode =? 0 then ((ran ++ [cmd])%list, Returned tt)
    else ((ran ++ [cmd])%list, Raised (CreaterepoError path returncode)).

(** [__update_repodata]; [repo_ids] are the keys of [self.__stats] as the
    loop meets them. *)
Definition update_repodata (self : DistroCleaner) (repo_ids : list Z)
  : M (list (list string)) unit :=
  for_each
    (fun repo_id =>
       match find_repo (repos_by_id self) repo_id with
       | None => raise KeyError
       | Some repo =>
           let comps_xml_path :=
             get_repomd_record_xml_path (Repo.path repo) "group" in
           create_repo (Repo.path repo) comps_xml_path
       end)
    repo_ids.

End Regeneration.

(* ================================================================== *)
(** * The rpm libraries, for the examples *)
(* ================================================================== *)

Module Rpm.

Fixpoint find_from (ch : ascii) (s : string) (i : Z) : Z :=
  match s with
  | EmptyString => -1
  | String x rest => if Ascii.eqb x ch then i else find_from ch rest (i + 1)
  end.

Fixpoint rfind_from (ch : ascii) (s : string) (i found : Z) : Z :=
  match s with
  | EmptyString => found
  | String x rest =>
      rfind_from ch rest (i + 1) (if Ascii.eqb x ch then i else found)
  end.

(** [s.find(ch)] and [s.rfind(ch)]: -1 when [ch] does not occur. *)
Definition find (ch : ascii) (s : string) : Z := find_from ch s 0.
Definition rfind (ch : ascii) (s : string) : Z := rfind_from ch s 0 (-1).

Definition clamp (len i : Z) : Z :=
  if i <? 0 then Z.max 0 (len + i) else Z.min i len.

(** [s[a:b]], also for negative indices. *)
Definition slice (s : string) (a b : Z) : string :=
  let len := Z.of_nat (String.length s) in
  let a' := clamp len a in
  let b' := clamp len b in
  if a' <? b' then substring (Z.to_nat a') (Z.to_nat (b' - a')) s else "".

(** [s[a:]] *)
Definition slice_tail (s : string) (a : Z) : string :=
  slice s a (Z.of_nat (String.length s)).

(** [rpmUtils.miscutils.splitFilename] as yum ships it: the file name is
    cut at its last dot and its last two dashes.  It raises only when it
    is not given a string. *)
Definition splitFilename (column : option string)
  : option (string * string * string * string * string) :=
  match column with
  | None => None
  | Some filename =>
      let filename :=
        if String.eqb (slice_tail filename (-4)) ".rpm"
        then slice filename 0 (-4) else filename in
      let archIndex := rfind "." filename in
      let arch := slice_tail filename (archIndex + 1) in
      let relIndex := rfind "-" (slice filename 0 archIndex) in
      let rel := slice filename (relIndex + 1) archIndex in
      let verIndex := rfind "-" (slice filename 0 relIndex) in
      let ver := slice filename (verIndex + 1) relIndex in
      let epochIndex := find ":" filename in
      let epoch :=
        if epochIndex =? -1 then "" else slice filename 0 epochIndex in
      let name := slice filename (epochIndex + 1) verIndex in
      Some (name, ver, rel, epoch, arch)
  end.

(** The epoch string of a label as the integer it spells; a string that
    spells none counts as absent. *)
Definition epoch_of_string (s : string) : option Z :=
  option_map Z.of_int (NilZero.int_of_string s).

(** [rpm.labelCompare], through the comparator of the specification. *)
Definition labelCompare (a b : label) : Z :=
  let '(e1, v1, r1) := a in
  let '(e2, v2, r2) := b in
  Comparator.compare (epoch_of_string e1, v1, r1) (epoch_of_string e2, v2, r2).

End Rpm.

(** A dictionary walked in the order its keys were inserted. *)
Definition insertion_order (d : list (version_key * list Pkg.t))
  : list (version_key * list Pkg.t) := d.

(* ================================================================== *)
(** * A small distribution, for the examples *)
(* ================================================================== *)

Module Scenario.

Definition stable : Repo.t :=
  Repo.mk 1 "stable" "x86_64" "/repos/stable/x86_64" Channel.STABLE false.

Definition beta : Repo.t :=
  Repo.mk 2 "beta" "x86_64" "/repos/beta/x86_64" Channel.BETA false.

(** The stable repository, declared read-only. *)
Definition stable_readonly : Repo.t :=
  Repo.mk 1 "stable" "x86_64" "/repos/stable/x86_64" Channel.STABLE true.

Definition repos : list Repo.t := [stable; beta].

(** [keep_versions: {beta: 1}]; the stable count keeps its default. *)
Definition cleaner : DistroCleaner :=
  {| config_name := "distro";
     config_version := "7";
     backup_dir := "/backup/distro/7";
     keep_beta := 1;
     keep_stable := 3;
     exclude_re := None;
     repos_by_id := repos |}.

Definition cleaner_readonly : DistroCleaner :=
  {| config_name := "distro";
     config_version := "7";
     backup_dir := "/backup/distro/7";
     keep_beta := 1;
     keep_stable := 3;
     exclude_re := None;
     repos_by_id := [stable_readonly; beta] |}.

(** [exclude: ^kernel] *)
Definition cleaner_excluding : DistroCleaner :=
  {| config_name := "distro";
     config_version := "7";
     backup_dir := "/backup/distro/7";
     keep_beta := 1;
     keep_stable := 3;
     exclude_re := Some (String.prefix "kernel");
     repos_by_id := repos |}.

(** The package [name]-[version]-1.x86_64 built from
    [srpm]-[version]-1.src.rpm. *)
Definition build (package_id : Z) (name : string) (epoch : Z)
    (version srpm : string) (repo_id : Z) : Pkg.t :=
  {| Pkg.package_id := package_id;
     Pkg.name := name;
     Pkg.epoch := epoch;
     Pkg.version := version;
     Pkg.rel := "1";
     Pkg.arch := "x86_64";
     Pkg.sourcerpm := Some (srpm ++ "-" ++ version ++ "-1.src.rpm");
     Pkg.location := name ++ "-" ++ version ++ "-1.x86_64.rpm";
     Pkg.repo_id := repo_id |}.

Definition stable_10 : Pkg.t := build 1 "foo" 0 "10" "foo" 1.
Definition beta_10 : Pkg.t := build 2 "foo" 0 "10" "foo" 2.
Definition beta_9 : Pkg.t := build 3 "foo" 0 "9" "foo" 2.
Definition beta_8 : Pkg.t := build 4 "foo" 0 "8" "foo" 2.
Definition other : Pkg.t := build 5 "zlib" 0 "1" "zlib" 2.

(** One stable repository with foo 10, one beta repository with foo 10, 9
    and 8. *)
Definition db : database :=
  {| repositories := repos;
     packages := [stable_10; beta_10; beta_9; beta_8] |}.

(** The same, with a package of another source after them. *)
Definition db_followed : database :=
  {| repositories := repos;
     packages := [stable_10; beta_10; beta_9; beta_8; other] |}.

(** foo 2 in beta with its sub-package foo-libs in stable, and foo 1 in
    stable. *)
Definition foo_2 : Pkg.t := build 1 "foo" 0 "2" "foo" 2.
Definition foo_libs_2 : Pkg.t := build 2 "foo-libs" 0 "2" "foo" 1.
Definition foo_1 : Pkg.t := build 3 "foo" 0 "1" "foo" 1.

(** foo 1 in beta with its sub-package foo-libs in stable, and foo 2 in
    stable. *)
Definition old_foo : Pkg.t := build 1 "foo" 0 "1" "foo" 2.
Definition old_foo_libs : Pkg.t := build 2 "foo-libs" 0 "1" "foo" 1.
Definition new_foo : Pkg.t := build 3 "foo" 0 "2" "foo" 1.

(** The same with an epoch: foo 1:1 in beta with its sub-package in
    stable, and foo 0:2 in stable, which the epoch puts below them. *)
Definition epoch_foo : Pkg.t := build 1 "foo" 1 "1" "foo" 2.
Definition epoch_foo_libs : Pkg.t := build 2 "foo-libs" 1 "1" "foo" 1.
Definition plain_foo : Pkg.t := build 3 "foo" 0 "2" "foo" 1.

(** Two builds of one source package that differ in epoch only. *)
Definition foo_epoch_0 : Pkg.t := build 1 "foo" 0 "1" "foo" 2.
Definition foo_epoch_1 : Pkg.t := build 2 "foo" 1 "1" "foo" 2.

Definition kernel : CrPackage.t :=
  {| CrPackage.name := "kernel";
     CrPackage.epoch := 0;
     CrPackage.version := "3.10.0";
     CrPackage.release := "1";
     CrPackage.arch := "x86_64";
     CrPackage.rpm_sourcerpm := Some "kernel-3.10.0-1.src.rpm";
     CrPackage.location_href := "kernel-3.10.0-1.x86_64.rpm" |}.

Definition empty_db : database := {| repositories := repos; packages := [] |}.

(** Nothing moved yet. *)
Definition start : executor := {| stats := []; moved := [] |}.

(** A file system that refuses nothing. *)
Definition willing : filesystem :=
  {| makedirs := fun _ _ => true;
     shutil_move := fun _ _ => true |}.

(** A file system in which no directory can be made. *)
Definition no_backup_dir : filesystem :=
  {| makedirs := fun _ _ => false;
     shutil_move := fun _ _ => true |}.

(** A file system in which every package file lies where its row says:
    under the root of the repository of [repos] the row belongs to.  A
    call of [shutil.move] is carried out when its path is the place of the
    file, the file was not moved before, and no file of that location was
    moved into the directory before. *)
Definition files_in_place : filesystem :=
  {| makedirs := fun _ _ => true;
     shutil_move := fun calls m =>
       match find_repo repos (Pkg.repo_id (rm_package m)) with
       | Some repo =>
           String.eqb (rm_path m)
                      (path_join (Repo.path repo) (Pkg.location (rm_package m)))
           && negb (existsb (fun c => String.eqb (rm_path c) (rm_path m)) calls)
           && negb (existsb
                      (fun c =>
                         String.eqb (rm_backup_dir c) (rm_backup_dir m)
                         && String.eqb (Pkg.location (rm_package c))
                                       (Pkg.location (rm_package m)))
                      calls)
       | None => false
       end |}.

(** A [createrepo_c] that fails in the stable repository. *)
Definition failing_createrepo (cmd : list string) : Z :=
  if existsb (String.eqb (Repo.path stable)) cmd then 1 else 0.

Definition no_group_file (repo_path record_type : string) : option string :=
  None.

End Scenario.

(* ================================================================== *)
(** * What the further properties speak of *)
(* ================================================================== *)

(** [m] keeps the property [I] of the state, whether it returns or
    raises, and what it returns satisfies [Q]. *)
Definition preserves {A : Type} (m : M executor A) (I : executor -> Prop)
    (Q : A -> Prop) : Prop :=
  forall ex,
    I ex ->
    I (fst (m ex)) /\
    match snd (m ex) with
    | Returned a => Q a
    | Raised _ => True
    end.

(** [m] raises only exceptions that satisfy [E], and what it returns
    satisfies [Q]. *)
Definition raises_only {A : Type} (E : exn -> Prop) (m : M executor A)
    (Q : A -> Prop) : Prop :=
  forall ex,
    match snd (m ex) with
    | Returned a => Q a
    | Raised e => E e
    end.

(** When [m] returns, it leaves the property [I] of the state it
    found. *)
Definition keeps_on_return {A : Type} (m : M executor A)
    (I : executor -> Prop) : Prop :=
  forall ex,
    I ex ->
    match snd (m ex) with
    | Returned _ => I (fst (m ex))
    | Raised _ => True
    end.

(** The count of a repository in [self.__stats]; 0 when it has none. *)
Definition count_of (repo_id : Z) (stats : list (Z * Z)) : Z :=
  match dict_get Z.eqb repo_id stats with
  | Some n => n
  | None => 0
  end.

Section Calls.

Variable fs : filesystem.

(** The calls of [shutil.move] the loop of [__cleanup_version] makes for
    [calls], in turn, after the calls [history]: all up to the first one
    the file system refuses, that one included. *)
Fixpoint attempted (history calls : list removal) : list removal :=
  match calls with
  | [] => []
  | m :: rest =>
      if shutil_move fs history m
      then m :: attempted (history ++ [m])%list rest
      else [m]
  end.

(** How many of them are carried out: those before the first one the file
    system refuses. *)
Fixpoint carried_out (history calls : list removal) : nat :=
  match calls with
  | [] => 0%nat
  | m :: rest =>
      if shutil_move fs history m
      then S (carried_out (history ++ [m])%list rest)
      else 0%nat
  end.

(** The calls of a record that were carried out, [calls] having been made
    in turn after [history]. *)
Fixpoint files_moved_from (history calls : list removal) : list removal :=
  match calls with
  | [] => []
  | m :: rest =>
      (if shutil_move fs history m then [m] else [])
      ++ files_moved_from (history ++ [m])%list rest
  end%list.

(** The files moved: the calls on record that were carried out. *)
Definition files_moved (calls : list removal) : list removal :=
  files_moved_from [] calls.

End Calls.

(** The sum of the counts of [self.__stats]: what the lines of
    [__print_report] add up to. *)
Definition count_total (stats : list (Z * Z)) : Z :=
  fold_right (fun entry total => snd entry + total) 0 stats.

(** A repository has a count in [self.__stats] only when it is known, is
    not read-only, and [shutil.move] was called for a file under its
    root, into its backup directory. *)
Definition counted_repositories_lost_a_file (self : DistroCleaner)
    (ex : executor) : Prop :=
  forall repo_id,
    In repo_id (map fst (stats ex)) ->
    exists repo m,
      find_repo (repos_by_id self) repo_id = Some repo /\
      Repo.readonly repo = false /\
      In m (moved ex) /\
      m = removal_for self repo (rm_reason m) (rm_package m).

(** The row [__save_repo_package] inserts for [package] under
    [package_id]. *)
Definition package_row (package_id repo_id : Z) (package : CrPackage.t)
  : Pkg.t :=
  {| Pkg.package_id := package_id;
     Pkg.name := CrPackage.name package;
     Pkg.epoch := CrPackage.epoch package;
     Pkg.version := CrPackage.version package;
     Pkg.rel := CrPackage.release package;
     Pkg.arch := CrPackage.arch package;
     Pkg.sourcerpm := CrPackage.rpm_sourcerpm package;
     Pkg.location := CrPackage.location_href package;
     Pkg.repo_id := repo_id |}.

(** The test that makes [__save_repo_package] return before the
    [INSERT]. *)
Definition skipped_package (self : DistroCleaner) (package : CrPackage.t)
  : bool :=
  match CrPackage.rpm_sourcerpm package with
  | Some srpm => negb (String.eqb srpm "") && is_srpm_excluded self srpm
  | None => false
  end.

(** Rows for [primary], numbered from [package_id] on. *)
Fixpoint rows_from (package_id repo_id : Z) (primary : list CrPackage.t)
  : list Pkg.t :=
  match primary with
  | [] => []
  | package :: rest =>
      package_row package_id repo_id package
      :: rows_from (package_id + 1) repo_id rest
  end.

(** What the loop of [__cleanup_version] records for a version group: the
    file of one of its packages, looked up in and backed up for the
    repository of a package of the group, which is not read-only. *)
Definition moved_with (self : DistroCleaner) (group : list Pkg.t)
    (m : removal) : Prop :=
  In (rm_package m) group /\
  exists first repo,
    In first group /\
    find_repo (repos_by_id self) (Pkg.repo_id first) = Some repo /\
    Repo.readonly repo = false /\
    m = removal_for self repo (rm_reason m) (rm_package m).

Section Filing.

Variable splitFilename :
  option string -> option (string * string * string * string * string).

(** The rows a loop of [__cleanup_arch] meets all satisfy [R]. *)
Variable R : Pkg.t -> Prop.

(** What holds of [last_srpm_name] and [versions] between two rows: a key
    occurs once, no list is empty, and a list holds rows of
    [last_srpm_name] whose source file names carry the key. *)
Definition well_filed
    (vars : option string * list (version_key * list Pkg.t)) : Prop :=
  NoDup (map fst (snd vars)) /\
  forall key group,
    In (key, group) (snd vars) ->
    group <> [] /\
    forall p,
      In p group ->
      R p /\ srpm_name_of splitFilename p = fst vars /\
      version_key_of splitFilename p = Some key.

(** The rows of [group] are built from one version of one source package,
    and a row of another version of that source package exists. *)
Definition one_of_several_versions (group : list Pkg.t) : Prop :=
  exists srpm_name key,
    (forall p,
       In p group ->
       R p /\ srpm_name_of splitFilename p = Some srpm_name /\
       version_key_of splitFilename p = Some key) /\
    exists q,
      R q /\ srpm_name_of splitFilename q = Some srpm_name /\
      version_key_of splitFilename q <> Some key.

End Filing.

(* ================================================================== *)
(** * The configuration and the whole run *)
(* ================================================================== *)

(** An item of [repositories] in the configuration of a distribution.
    [rc_path] holds the items of its [path] mapping in the order
    [iteritems] yields them, architecture first; [rc_readonly] is
    [repo.get('readonly', False)]. *)
Record repo_config : Type := {
  rc_name : string;
  rc_channel : string;
  rc_readonly : bool;
  rc_path : list (string * string)
}.

(** An item of the configuration file.  [dc_version] is
    [str(distro_config['version'])]; [dc_keep_beta] and [dc_keep_stable]
    are the [beta] and [stable] items of [keep_versions], if any. *)
Record distro_config : Type := {
  dc_name : string;
  dc_version : string;
  dc_keep_beta : option Z;
  dc_keep_stable : option Z;
  dc_exclude : option string;
  dc_repositories : list repo_config
}.

(** What ends [cleanup] early: the [Exception] of [__index_repo] for a
    path that does not exist, an exception while the metadata of a
    repository is read into the database, or an exception of the other
    parts. *)
Inductive failure : Type :=
| RepositoryDoesNotExist (path : string)
| MetadataNotRead (path : string)
| PythonError (e : exn).

(** What [cleanup] leaves behind: [self] with its [__repos], the database,
    [self.__stats] and the files moved, the [createrepo_c] commands run,
    the lines of [__print_report], and the exception that ended it, if
    any. *)
Record run : Type := {
  run_self : DistroCleaner;
  run_db : database;
  run_files : executor;
  run_commands : list (list string);
  run_report : list string;
  run_failure : option failure
}.

(** The database [__create_db] returns. *)
Definition create_db : database := {| repositories := []; packages := [] |}.

(** [self.__stats = {}], and no file moved yet. *)
Definition no_files : executor := {| stats := []; moved := [] |}.

(** The id [AUTOINCREMENT] gives the next row of [repositories]. *)
Definition next_repo_id (rows : list Repo.t) : Z :=
  1 + fold_right (fun r m => Z.max (Repo.repo_id r) m) 0 rows.

(** [repos[repo['repo_id']] = repo], for [self.__repos] and for an item of
    [repos_by_arch]. *)
Fixpoint set_repo (repo : Repo.t) (repos : list Repo.t) : list Repo.t :=
  match repos with
  | [] => [repo]
  | r :: rest =>
      if Repo.repo_id r =? Repo.repo_id repo then repo :: rest
      else r :: set_repo repo rest
  end.

Definition with_repos (self : DistroCleaner) (repos : list Repo.t)
  : DistroCleaner :=
  {| config_name := config_name self;
     config_version := config_version self;
     backup_dir := backup_dir self;
     keep_beta := keep_beta self;
     keep_stable := keep_stable self;
     exclude_re := exclude_re self;
     repos_by_id := repos |}.

(** What indexing leaves: [self.__repos] holds the rows of [repositories],
    no id occurs twice, and every row of [packages] belongs to a row of
    [repositories]. *)
Definition consistent (self : DistroCleaner) (db : database) : Prop :=
  repos_by_id self = repositories db /\
  NoDup (map Repo.repo_id (repositories db)) /\
  forall p,
    In p (packages db) ->
    In (Pkg.repo_id p) (map Repo.repo_id (repositories db)).

(** No row of [packages] has a source file name in which the pattern of
    [exclude] is found. *)
Definition honours_exclude (self : DistroCleaner) (db : database) : Prop :=
  forall p srpm,
    In p (packages db) ->
    Pkg.sourcerpm p = Some srpm ->
    srpm <> "" ->
    is_srpm_excluded self srpm = false.

(** A repository of the configuration that [__index_repo] accepts: the
    channel is one of the two, and every path exists. *)
Definition accepted (path_exists : string -> bool) (repo : repo_config)
  : Prop :=
  (exists channel, Channel.from_string (rc_channel repo) = Returned channel)
  /\ forall arch path, In (arch, path) (rc_path repo) ->
                       path_exists path = true.

(** The metadata of every path of the repository can be read. *)
Definition readable (primary_packages : string -> option (list CrPackage.t))
    (repo : repo_config) : Prop :=
  forall arch path, In (arch, path) (rc_path repo) ->
                    primary_packages path <> None.

(** [SELECT * FROM repositories ORDER BY arch] *)
Definition select_repositories (db : database) : list Repo.t :=
  order_by (fun a b => String.ltb (Repo.arch a) (Repo.arch b))
           (repositories db).

(** The body of the loop that fills [repos_by_arch]. *)
Definition add_repo_row (repos_by_arch : list (string * list Repo.t))
    (row : Repo.t) : list (string * list Repo.t) :=
  let arch := Repo.arch row in
  let repos_by_arch :=
    match dict_get String.eqb arch repos_by_arch with
    | None => dict_set String.eqb arch [] repos_by_arch
    | Some _ => repos_by_arch
    end in
  match dict_get String.eqb arch repos_by_arch with
  | Some repos => dict_set String.eqb arch (set_repo row repos) repos_by_arch
  | None => repos_by_arch
  end.

(** A line of [__print_report]. *)
Definition report_line (self : DistroCleaner) (repo : Repo.t) (count : Z)
  : string :=
  config_name self ++ "-" ++ config_version self ++ " " ++ Repo.name repo
  ++ "." ++ Repo.arch repo ++ ": " ++ str count ++ " packages deleted".

(** The loop of [__print_report], on the items of [self.__stats] as it
    meets them: the lines printed. *)
Fixpoint report_lines (self : DistroCleaner) (items : list (Z * Z))
  : M (list string) unit :=
  match items with
  | [] => ret tt
  | (repo_id, count) :: rest =>
      match find_repo (repos_by_id self) repo_id with
      | None => raise KeyError
      | Some repo =>
          (fun printed =>
             ((printed ++ [report_line self repo count])%list, Returned tt)) ;;;
          report_lines self rest
      end
  end.

(** [__print_report] *)
Definition print_report (self : DistroCleaner) (items : list (Z * Z))
  : M (list string) unit :=
  (fun printed => ((printed ++ ["Cleanup report:"])%list, Returned tt)) ;;;
  report_lines self items.

Section Run.

Variable fs : filesystem.

(** [os.path.exists] *)
Variable path_exists : string -> bool.

(** The packages [xml_parse_primary] reads from the primary metadata
    [get_repomd_record_xml_path] finds under a repository path, in the
    order it hands them to the callback.  [None] when
    [__index_repo_packages] raises instead: [createrepo_c.Repomd] finds no
    metadata under the path, the metadata has no [primary] record, the
    parser fails, or [int(package.epoch)] or the [INSERT] fails for one of
    the packages. *)
Variable primary_packages : string -> option (list CrPackage.t).

(** [re.compile(pattern).search] *)
Variable re_search : string -> string -> bool.

Variable labelCompare : label -> label -> Z.
Variable splitFilename :
  option string -> option (string * string * string * string * string).

(** The order in which a [versions] dictionary, [repos_by_arch] and
    [self.__stats] are walked. *)
Variable iteration_order :
  list (version_key * list Pkg.t) -> list (version_key * list Pkg.t).
Variable arch_order :
  list (string * list Repo.t) -> list (string * list Repo.t).
Variable stats_order : list (Z * Z) -> list (Z * Z).

Variable createrepo_c : list string -> Z.
Variable get_repomd_record_xml_path : string -> string -> option string.

(** [DistroCleaner.__init__], without the database. *)
Definition init (distro_config : distro_config) (backup_dir : string)
  : DistroCleaner :=
  {| config_name := dc_name distro_config;
     config_version := dc_version distro_config;
     backup_dir :=
       path_join (path_join backup_dir (dc_name distro_config))
                 (dc_version distro_config);
     keep_beta :=
       match dc_keep_beta distro_config with
       | Some n => n
       | None => 3
       end;
     keep_stable :=
       match dc_keep_stable distro_config with
       | Some n => n
       | None => 3
       end;
     exclude_re := option_map re_search (dc_exclude distro_config);
     repos_by_id := [] |}.

(** The loop of [__index_repo] over the items of [repo['path']]; the
    exception leaves [self.__repos] and the rows inserted so far. *)
Fixpoint index_repo_paths (name : string) (channel : Channel.t)
    (readonly : bool) (items : list (string * string))
    (self : DistroCleaner) (db : database)
  : DistroCleaner * database * option failure :=
  match items with
  | [] => (self, db, None)
  | (arch, path) :: rest =>
      if negb (path_exists path) then
        (self, db, Some (RepositoryDoesNotExist path))
      else
        let repo_id := next_repo_id (repositories db) in
        let repo :=
          {| Repo.repo_id := repo_id;
             Repo.name := name;
             Repo.arch := arch;
             Repo.path := path;
             Repo.channel := channel;
             Repo.readonly := readonly |} in
        let db :=
          {| repositories := (repositories db ++ [repo])%list;
             packages := packages db |} in
        let self := with_repos self (set_repo repo (repos_by_id self)) in
        match primary_packages path with
        | None => (self, db, Some (MetadataNotRead path))
        | Some primary =>
            let db := index_repo_packages self db repo_id primary in
            index_repo_paths name channel readonly rest self db
        end
  end.

(** [__index_repo]: [with self.__db] commits the rows when the loop ends
    and rolls them back when it raises. *)
Definition index_repo (self : DistroCleaner) (db : database)
    (repo : repo_config) : DistroCleaner * database * option failure :=
  match Channel.from_string (rc_channel repo) with
  | Raised e => (self, db, Some (PythonError e))
  | Returned channel =>
      match index_repo_paths (rc_name repo) channel (rc_readonly repo)
                             (rc_path repo) self db with
      | (self', db', None) => (self', db', None)
      | (self', _, Some f) => (self', db, Some f)
      end
  end.

(** [for repo in self.__config['repositories']: self.__index_repo(repo)] *)
Fixpoint index_repos (repositories : list repo_config)
    (self : DistroCleaner) (db : database)
  : DistroCleaner * database * option failure :=
  match repositories with
  | [] => (self, db, None)
  | repo :: rest =>
      match index_repo self db repo with
      | (self', db', None) => index_repos rest self' db'
      | stopped => stopped
      end
  end.

(** The dictionary [repos_by_arch]. *)
Definition repos_by_arch_of (db : database) : list (string * list Repo.t) :=
  fold_left add_repo_row (select_repositories db) [].

(** [for arch in repos_by_arch: ...] *)
Definition cleanup_archs (self : DistroCleaner) (db : database)
    (repos_by_arch : list (string * list Repo.t)) : M executor unit :=
  for_each
    (fun entry =>
       if String.eqb (fst entry) "src" then ret tt
       else cleanup_arch fs labelCompare splitFilename iteration_order self db
                         (snd entry))
    (arch_order repos_by_arch).

(** [cleanup], from the state [self], [db], [files] and the commands
    [ran] so far. *)
Definition cleanup (self : DistroCleaner) (repositories : list repo_config)
    (db : database) (files : executor) (ran : list (list string)) : run :=
  match index_repos repositories self db with
  | (self, db, Some f) =>
      {| run_self := self; run_db := db; run_files := files;
         run_commands := ran; run_report := []; run_failure := Some f |}
  | (self, db, None) =>
      match cleanup_archs self db (repos_by_arch_of db) files with
      | (files, Raised e) =>
          {| run_self := self; run_db := db; run_files := files;
             run_commands := ran; run_report := [];
             run_failure := Some (PythonError e) |}
      | (files, Returned _) =>
          let items := stats_order (stats files) in
          match update_repodata createrepo_c get_repomd_record_xml_path self
                                (map fst items) ran with
          | (ran, Raised e) =>
              {| run_self := self; run_db := db; run_files := files;
                 run_commands := ran; run_report := [];
                 run_failure := Some (PythonError e) |}
          | (ran, Returned _) =>
              match print_report self items [] with
              | (printed, Raised e) =>
                  {| run_self := self; run_db := db; run_files := files;
                     run_commands := ran; run_report := printed;
                     run_failure := Some (PythonError e) |}
              | (printed, Returned _) =>
                  {| run_self := self; run_db := db; run_files := files;
                     run_commands := ran; run_report := printed;
                     run_failure := None |}
              end
          end
      end
  end.

(** The body of the loop of [main] for a distribution that is not
    skipped: [cleaner = DistroCleaner(distro, backup_dir)], then
    [cleaner.cleanup()]. *)
Definition clean_distro (distro : distro_config) (backup_dir : string)
  : run :=
  cleanup (init distro backup_dir) (dc_repositories distro) create_db
          no_files [].

End Run.

(* ================================================================== *)
(** * A small configuration, for the examples *)
(* ================================================================== *)

Module Distro.

(** The package [name]-[version]-1 of the primary metadata, built from
    [name]-[version]-1.src.rpm. *)
Definition package (name version : string) : CrPackage.t :=
  {| CrPackage.name := name;
     CrPackage.epoch := 0;
     CrPackage.version := version;
     CrPackage.release := "1";
     CrPackage.arch := "x86_64";
     CrPackage.rpm_sourcerpm := Some (name ++ "-" ++ version ++ "-1.src.rpm");
     CrPackage.location_href := name ++ "-" ++ version ++ "-1.x86_64.rpm" |}.

(** A stable repository with foo 10, kernel 3 and zlib 1, a beta
    repository with foo 10, 9 and 8 and kernel 2, a [src] repository that
    lists foo 10 and foo 9, and no metadata anywhere else. *)
Definition primary_packages (path : string) : option (list CrPackage.t) :=
  if String.eqb path "/repos/stable/x86_64" then
    Some [package "foo" "10"; package "kernel" "3"; package "zlib" "1"]
  else if String.eqb path "/repos/beta/x86_64" then
    Some [package "foo" "10"; package "foo" "9"; package "foo" "8";
          package "kernel" "2"]
  else if String.eqb path "/repos/stable/src" then
    Some [package "foo" "10"; package "foo" "9"]
  else None.

Definition stable : repo_config :=
  {| rc_name := "stable";
     rc_channel := "stable";
     rc_readonly := false;
     rc_path := [("x86_64", "/repos/stable/x86_64");
                 ("src", "/repos/stable/src")] |}.

Definition beta : repo_config :=
  {| rc_name := "beta";
     rc_channel := "beta";
     rc_readonly := false;
     rc_path := [("x86_64", "/repos/beta/x86_64")] |}.

(** A repository of a channel the program does not know. *)
Definition testing : repo_config :=
  {| rc_name := "testing";
     rc_channel := "testing";
     rc_readonly := false;
     rc_path := [("x86_64", "/repos/testing/x86_64")] |}.

Definition config : distro_config :=
  {| dc_name := "distro";
     dc_version := "7";
     dc_keep_beta := Some 1;
     dc_keep_stable := None;
     dc_exclude := None;
     dc_repositories := [stable; beta] |}.

Definition config_with_testing : distro_config :=
  {| dc_name := "distro";
     dc_version := "7";
     dc_keep_beta := Some 1;
     dc_keep_stable := None;
     dc_exclude := None;
     dc_repositories := [stable; beta; testing] |}.

(** [exclude: kernel], with a search that looks for the pattern at the
    start of the file name. *)
Definition config_excluding_kernel : distro_config :=
  {| dc_name := "distro";
     dc_version := "7";
     dc_keep_beta := Some 1;
     dc_keep_stable := None;
     dc_exclude := Some "kernel";
     dc_repositories := [stable; beta] |}.

Definition every_path_exists (path : string) : bool := true.

(** The beta repository is not mounted. *)
Definition beta_is_missing (path : string) : bool :=
  negb (String.eqb path "/repos/beta/x86_64").

Definition starts_with (pattern subject : string) : bool :=
  String.prefix pattern subject.

Definition createrepo_succeeds (cmd : list string) : Z := 0.

Definition no_group_file (repo_path record_type : string) : option string :=
  None.

Definition as_inserted {A : Type} (d : list A) : list A := d.

(** A file system in which every package file lies under the path of its
    repository: a call of [shutil.move] is carried out when its path names
    a package of the metadata under a path of the configuration, the file
    was not moved before, and no file of that name was moved into the
    directory before. *)
Definition files_in_place : filesystem :=
  {| makedirs := fun _ _ => true;
     shutil_move := fun calls m =>
       existsb
         (fun root =>
            match primary_packages root with
            | Some primary =>
                existsb
                  (fun package =>
                     String.eqb (rm_path m)
                       (path_join root (CrPackage.location_href package)))
                  primary
            | None => false
            end)
         ["/repos/stable/x86_64"; "/repos/beta/x86_64"; "/repos/stable/src"]
       && negb (existsb (fun c => String.eqb (rm_path c) (rm_path m)) calls)
       && negb (existsb
                  (fun c =>
                     String.eqb (rm_backup_dir c) (rm_backup_dir m)
                     && String.eqb (Pkg.location (rm_package c))
                                   (Pkg.location (rm_package m)))
                  calls) |}.

(** A cleaner that keeps one version of each channel. *)
Definition keeping_one : DistroCleaner :=
  {| config_name := "distro";
     config_version := "7";
     backup_dir := "/backup/distro/7";
     keep_beta := 1;
     keep_stable := 1;
     exclude_re := None;
     repos_by_id := Scenario.repos |}.

(** The run of [distro] with backups under [/backup], every path and
    every file in place and a [createrepo_c] that succeeds. *)
Definition clean (distro : distro_config) : run :=
  clean_distro files_in_place every_path_exists primary_packages starts_with
    Rpm.labelCompare Rpm.splitFilename insertion_order as_inserted as_inserted
    createrepo_succeeds no_group_file distro "/backup".

End Distro.

(* ================================================================== *)
(** * Facts on comparisons *)
(* ================================================================== *)

Module OrderFacts.
Import Order.

Section Preorder.
Context {A : Type}.
Variable c : A -> A -> comparison.
Hypothesis Hc : preorder c.

Lemma po_refl a : c a a = Eq.
Proof.
  pose proof (po_antisym c Hc a a) as H.
  destruct (c a a); simpl in H; congruence.
Qed.

Lemma po_eq_right a b d : c a b = Eq -> c d a = c d b.
Proof.
  intros H.
  rewrite (po_antisym c Hc a d), (po_antisym c Hc b d).
  f_equal. now apply po_eq_left.
Qed.

Lemma po_le_trans a b d : c a b <> Gt -> c b d <> Gt -> c a d <> Gt.
Proof.
  intros Hab Hbd Had.
  destruct (c a b) eqn:Eab; try congruence.
  - rewrite (po_eq_left c Hc a b d Eab) in Had. congruence.
  - destruct (c b d) eqn:Ebd; try congruence.
    + rewrite <- (po_eq_right b d a Ebd) in Had. congruence.
    + rewrite (po_lt_trans c Hc a b d Eab Ebd) in Had. discriminate.
Qed.

(** The integer comparator [fun a b => sign (c a b)] is antisymmetric and
    transitive. *)
Lemma sign_antisym a b : sign (c b a) = - sign (c a b).
Proof. rewrite (po_antisym c Hc a b). now destruct (c a b). Qed.

Lemma sign_le_trans a b d :
  sign (c a b) <= 0 -> sign (c b d) <= 0 -> sign (c a d) <= 0.
Proof.
  intros Hab Hbd.
  assert (Had : c a d <> Gt).
  { apply (po_le_trans a b d).
    - destruct (c a b); simpl in Hab; try discriminate; lia.
    - destruct (c b d); simpl in Hbd; try discriminate; lia. }
  destruct (c a d); simpl; try lia. congruence.
Qed.

Lemma sign_lt_trans a b d :
  sign (c a b) = -1 -> sign (c b d) = -1 -> sign (c a d) = -1.
Proof.
  intros Hab Hbd.
  assert (Eab : c a b = Lt) by (destruct (c a b); simpl in Hab; congruence).
  assert (Ebd : c b d = Lt) by (destruct (c b d); simpl in Hbd; congruence).
  now rewrite (po_lt_trans c Hc a b d Eab Ebd).
Qed.
End Preorder.

(** Comparing through a function keeps the preorder. *)
Lemma preorder_pullback {A B : Type} (f : B -> A) (c : A -> A -> comparison) :
  preorder c -> preorder (fun x y => c (f x) (f y)).
Proof.
  intros [Ha Ht He]. constructor; intros.
  - apply Ha.
  - eapply Ht; eassumption.
  - now apply He.
Qed.

Lemma preorder_lex {A B : Type} (ca : A -> A -> comparison)
    (cb : B -> B -> comparison) :
  preorder ca -> preorder cb -> preorder (lex ca cb).
Proof.
  intros Pa Pb. constructor; unfold lex.
  - intros [a1 b1] [a2 b2]; simpl.
    rewrite (po_antisym ca Pa a1 a2).
    destruct (ca a1 a2); simpl; auto.
    apply (po_antisym cb Pb).
  - intros [a1 b1] [a2 b2] [a3 b3]; simpl.
    destruct (ca a1 a2) eqn:E12; try discriminate.
    + rewrite (po_eq_left ca Pa a1 a2 a3 E12).
      destruct (ca a2 a3) eqn:E23; try discriminate; auto.
      intros; eapply (po_lt_trans cb Pb); eassumption.
    + intros _.
      destruct (ca a2 a3) eqn:E23; try discriminate; intros _.
      * now rewrite <- (po_eq_right ca Pa a2 a3 a1 E23), E12.
      * now rewrite (po_lt_trans ca Pa a1 a2 a3 E12 E23).
  - intros [a1 b1] [a2 b2] [a3 b3]; simpl.
    destruct (ca a1 a2) eqn:E12; try discriminate.
    intros Hb.
    rewrite (po_eq_left ca Pa a1 a2 a3 E12).
    destruct (ca a2 a3); auto.
    now apply (po_eq_left cb Pb).
Qed.

Lemma preorder_Z : preorder Z.compare.
Proof.
  constructor; intros.
  - apply Z.compare_antisym.
  - rewrite Z.compare_lt_iff in *. lia.
  - apply Z.compare_eq_iff in H. now subst.
Qed.

Lemma preorder_N : preorder N.compare.
Proof.
  constructor; intros.
  - apply N.compare_antisym.
  - rewrite N.compare_lt_iff in *. lia.
  - apply N.compare_eq_iff in H. now subst.
Qed.

Lemma preorder_ascii : preorder Ascii.compare.
Proof.
  unfold Ascii.compare.
  apply (preorder_pullback N_of_ascii N.compare), preorder_N.
Qed.

Lemma preorder_string : preorder String.compare.
Proof.
  constructor.
  - intros a b. apply String.compare_antisym.
  - induction a as [|x a IH]; intros [|y b] [|z d]; simpl; try discriminate;
      auto.
    destruct (Ascii.compare x y) eqn:Exy; try discriminate.
    + apply Ascii.compare_eq_iff in Exy. subst y.
      destruct (Ascii.compare x z); try discriminate; auto.
      apply IH.
    + intros _.
      destruct (Ascii.compare y z) eqn:Eyz; try discriminate; intros _.
      * apply Ascii.compare_eq_iff in Eyz. subst z. now rewrite Exy.
      * now rewrite (po_lt_trans _ preorder_ascii x y z Exy Eyz).
  - intros a b d H. apply String.compare_eq_iff in H. now subst.
Qed.

End OrderFacts.

(* ================================================================== *)
(** * The comparator is a total preorder *)
(* ================================================================== *)

Module ComparatorFacts.
Import Order OrderFacts Comparator.

Lemma segment_compare_eq x y : segment_compare x y = Eq -> x = y.
Proof.
  destruct x, y; simpl; try discriminate; auto.
  - intros H. apply String.compare_eq_iff in H. now subst.
  - intros H. apply N.compare_eq_iff in H. now subst.
Qed.

Lemma preorder_segment : preorder segment_compare.
Proof.
  constructor.
  - intros [|s|n] [|t|m]; simpl; auto.
    + apply String.compare_antisym.
    + apply N.compare_antisym.
  - intros [|s|n] [|t|m] [|u|k]; simpl; try discriminate; auto.
    + apply (po_lt_trans _ preorder_string).
    + apply (po_lt_trans _ preorder_N).
  - intros a b d H. apply segment_compare_eq in H. now subst.
Qed.

Lemma segments_compare_cons x a y b :
  segments_compare (x :: a) (y :: b) =
  match segment_compare x y with
  | Eq => segments_compare a b
  | r => r
  end.
Proof. destruct x; reflexivity. Qed.

Lemma segments_compare_eq a b : segments_compare a b = Eq -> a = b.
Proof.
  revert b. induction a as [|x a IH]; intros [|y b].
  - reflexivity.
  - destruct y; discriminate.
  - destruct x; discriminate.
  - rewrite segments_compare_cons.
    destruct (segment_compare x y) eqn:E; try discriminate.
    intros H. apply segment_compare_eq in E. apply IH in H. now subst.
Qed.

Lemma segments_compare_antisym a b :
  segments_compare b a = CompOpp (segments_compare a b).
Proof.
  revert b. induction a as [|x a IH]; intros [|y b].
  - reflexivity.
  - destruct y; reflexivity.
  - destruct x; reflexivity.
  - rewrite !segments_compare_cons.
    rewrite (po_antisym _ preorder_segment x y).
    destruct (segment_compare x y); simpl; auto.
Qed.

Lemma segments_compare_lt_trans a b d :
  segments_compare a b = Lt -> segments_compare b d = Lt ->
  segments_compare a d = Lt.
Proof.
  revert b d. induction a as [|x a IH]; intros [|y b] [|z d] H1 H2.
  - discriminate.
  - discriminate.
  - destruct y; discriminate.
  - rewrite segments_compare_cons in H2.
    destruct y, z; simpl in *; try discriminate; auto.
  - discriminate.
  - destruct x; try discriminate.
    destruct z; try discriminate; reflexivity.
  - destruct y; try discriminate.
    destruct x; try discriminate; reflexivity.
  - rewrite segments_compare_cons in *.
    destruct (segment_compare x y) eqn:Exy; try discriminate.
    + apply segment_compare_eq in Exy. subst y.
      destruct (segment_compare x z); try discriminate; auto.
      now apply (IH b d).
    + destruct (segment_compare y z) eqn:Eyz; try discriminate.
      * apply segment_compare_eq in Eyz. subst z. now rewrite Exy.
      * now rewrite (po_lt_trans _ preorder_segment x y z Exy Eyz).
Qed.

Lemma preorder_segments : preorder segments_compare.
Proof.
  constructor.
  - intros a b. apply segments_compare_antisym.
  - apply segments_compare_lt_trans.
  - intros a b d H. apply segments_compare_eq in H. now subst.
Qed.

Lemma preorder_string_compare : preorder string_compare.
Proof.
  unfold string_compare.
  apply (preorder_pullback segments segments_compare), preorder_segments.
Qed.

Lemma preorder_evr : preorder evr_compare.
Proof.
  unfold evr_compare.
  apply preorder_lex; [apply preorder_lex|]; try apply preorder_string_compare.
  apply (preorder_pullback epoch_value Z.compare), preorder_Z.
Qed.

Lemma compare_antisym a b : compare b a = - compare a b.
Proof. apply (sign_antisym _ preorder_evr). Qed.

Lemma compare_refl a : compare a a = 0.
Proof. unfold compare. now rewrite (po_refl _ preorder_evr). Qed.

Lemma compare_le_trans a b d :
  compare a b <= 0 -> compare b d <= 0 -> compare a d <= 0.
Proof. apply (sign_le_trans _ preorder_evr). Qed.

Lemma compare_lt_trans a b d :
  compare a b = -1 -> compare b d = -1 -> compare a d = -1.
Proof. apply (sign_lt_trans _ preorder_evr). Qed.

Lemma compare_range a b : compare a b = -1 \/ compare a b = 0 \/ compare a b =
    1.
Proof. unfold compare. destruct (evr_compare a b); simpl; auto. Qed.

End ComparatorFacts.

(* ================================================================== *)
(** * Facts on the Python built-ins *)
(* ================================================================== *)

Local Open Scope list_scope.

Module PyFacts.

Section Sorting.
Context {A : Type}.
Variable cmp : A -> A -> Z.

Lemma insert_desc_perm x l : Permutation (insert_desc cmp x l) (x :: l).
Proof.
  induction l as [|y l IH]; simpl; auto.
  destruct (cmp x y <? 0); auto.
  rewrite IH. apply perm_swap.
Qed.

Lemma sort_reverse_perm l : Permutation (sort_reverse cmp l) l.
Proof.
  induction l as [|x l IH]; simpl; auto.
  rewrite insert_desc_perm. now constructor.
Qed.

Lemma sort_reverse_In x l : In x (sort_reverse cmp l) <-> In x l.
Proof.
  split; apply Permutation_in.
  - apply sort_reverse_perm.
  - symmetry. apply sort_reverse_perm.
Qed.

Lemma sort_reverse_nil l : sort_reverse cmp l = [] -> l = [].
Proof.
  intros H. pose proof (sort_reverse_perm l) as P.
  rewrite H in P. now apply Permutation_nil.
Qed.

(** Under a comparison that is antisymmetric and transitive the outcome
    is in descending order. *)
Hypothesis cmp_antisym : forall a b, cmp b a = - cmp a b.
Hypothesis cmp_trans :
  forall a b c, cmp a b <= 0 -> cmp b c <= 0 -> cmp a c <= 0.

Lemma cmp_ge_trans a b c : cmp a b >= 0 -> cmp b c >= 0 -> cmp a c >= 0.
Proof.
  intros Hab Hbc.
  rewrite (cmp_antisym c a).
  assert (cmp c a <= 0); [|lia].
  apply (cmp_trans c b a).
  - rewrite (cmp_antisym b c). lia.
  - rewrite (cmp_antisym a b). lia.
Qed.

Lemma insert_desc_sorted x l :
  StronglySorted (fun a b => cmp a b >= 0) l ->
  StronglySorted (fun a b => cmp a b >= 0) (insert_desc cmp x l).
Proof.
  induction 1 as [|y l Hs IH Hy]; simpl.
  - repeat constructor.
  - destruct (cmp x y <? 0) eqn:E.
    + apply Z.ltb_lt in E.
      constructor; auto.
      apply Forall_forall. intros z Hz.
      apply (Permutation_in _ (insert_desc_perm x l)) in Hz.
      destruct Hz as [<-|Hz].
      * rewrite (cmp_antisym x y). lia.
      * rewrite Forall_forall in Hy. auto.
    + apply Z.ltb_ge in E.
      constructor; [constructor; auto|].
      constructor; [lia|].
      rewrite Forall_forall in *. intros z Hz.
      apply (cmp_ge_trans x y z); auto. lia.
Qed.

Lemma sort_reverse_sorted l :
  StronglySorted (fun a b => cmp a b >= 0) (sort_reverse cmp l).
Proof.
  induction l as [|x l IH]; simpl.
  - constructor.
  - now apply insert_desc_sorted.
Qed.

(** In a descending list, a test that passes from an item to every item
    below it holds on a tail of the list. *)
Lemma sorted_filter_split (P : A -> bool) l :
  StronglySorted (fun a b => cmp a b >= 0) l ->
  (forall a b, In a l -> In b l -> cmp a b >= 0 -> P a = true -> P b = true) ->
  l = filter (fun a => negb (P a)) l ++ filter P l.
Proof.
  intros Hs. induction Hs as [|x l Hs IH Hx]; intros Hmono; simpl; auto.
  destruct (P x) eqn:Px; simpl.
  - assert (Hall : forall y, In y l -> P y = true).
    { rewrite Forall_forall in Hx. intros y Hy.
      apply (Hmono x y); auto; [now left|now right]. }
    clear IH.
    assert (E1 : filter (fun a => negb (P a)) l = []).
    { clear -Hall. induction l as [|y l IH]; simpl; auto.
      rewrite (Hall y) by now left. simpl. apply IH. intros; apply Hall.
      now right. }
    assert (E2 : filter P l = l).
    { clear -Hall. induction l as [|y l IH]; simpl; auto.
      rewrite (Hall y) by now left. f_equal. apply IH. intros; apply Hall.
      now right. }
    now rewrite E1, E2.
  - rewrite <- IH; auto.
    intros a b Ha Hb. apply Hmono; now right.
Qed.
End Sorting.

Section Removing.
Context {A : Type}.
Variable eq_dec : forall a b : A, {a = b} + {a <> b}.

Lemma list_remove_app x pre l :
  ~ In x pre ->
  list_remove eq_dec x (pre ++ x :: l) = Returned (pre ++ l).
Proof.
  induction pre as [|y pre IH]; simpl; intros H.
  - destruct (eq_dec x x); congruence.
  - destruct (eq_dec y x) as [->|_]; [tauto|].
    rewrite IH by tauto. reflexivity.
Qed.

Lemma list_remove_incl x l r :
  list_remove eq_dec x l = Returned r -> incl r l.
Proof.
  revert r. induction l as [|y l IH]; simpl; intros r H; [discriminate|].
  destruct (eq_dec y x).
  - injection H as <-. now apply incl_tl, incl_refl.
  - destruct (list_remove eq_dec x l) as [r'|]; [|discriminate].
    injection H as <-.
    apply incl_cons; [now left|]. apply incl_tl. now apply IH.
Qed.
End Removing.

Lemma skipn_incl {A : Type} n (l : list A) : incl (skipn n l) l.
Proof.
  intros x Hx. rewrite <- (firstn_skipn n l).
  apply in_or_app. now right.
Qed.

Lemma slice_from_incl {A : Type} k (l : list A) : incl (slice_from k l) l.
Proof.
  unfold slice_from. destruct (k <? 0); apply skipn_incl.
Qed.

Lemma slice_from_nonneg {A : Type} k (l : list A) :
  0 <= k -> slice_from k l = skipn (Z.to_nat k) l.
Proof.
  intros H. unfold slice_from.
  destruct (k <? 0) eqn:E; auto. apply Z.ltb_lt in E. lia.
Qed.

Section Monad.
Context {S : Type}.

Lemma for_each_app {A : Type} (f : A -> M S unit) l1 l2 s :
  for_each f (l1 ++ l2) s = (for_each f l1 ;;; for_each f l2) s.
Proof.
  revert s. induction l1 as [|x l1 IH]; intros s; simpl.
  - reflexivity.
  - unfold bind in *. destruct (f x s) as [s' [[]|e]]; auto.
Qed.

Lemma for_fold_app {A B : Type} (f : B -> A -> M S B) l1 l2 b s :
  for_fold f (l1 ++ l2) b s = (b' <- for_fold f l1 b ;; for_fold f l2 b') s.
Proof.
  revert b s. induction l1 as [|x l1 IH]; intros b s; simpl.
  - reflexivity.
  - unfold bind in *. destruct (f b x s) as [s' [b'|e]]; auto.
Qed.
End Monad.

End PyFacts.

(* ================================================================== *)
(** * Dictionaries *)
(* ================================================================== *)

Module DictFacts.

Section Dict.
Context {K V : Type}.
Variable eqb : K -> K -> bool.
Hypothesis eqb_spec : forall a b, reflect (a = b) (eqb a b).

Lemma dict_get_set_same k (v : V) d :
  dict_get eqb k (dict_set eqb k v d) = Some v.
Proof.
  induction d as [|[k' v'] d IH]; simpl.
  - now destruct (eqb_spec k k).
  - destruct (eqb_spec k k') as [->|Hne]; simpl.
    + now destruct (eqb_spec k' k').
    + now destruct (eqb_spec k k').
Qed.

Lemma dict_get_set_other k k' (v : V) d :
  k' <> k -> dict_get eqb k' (dict_set eqb k v d) = dict_get eqb k' d.
Proof.
  intros Hne. induction d as [|[k2 v2] d IH]; simpl.
  - now destruct (eqb_spec k' k).
  - destruct (eqb_spec k k2) as [->|Hk]; simpl.
    + now destruct (eqb_spec k' k2).
    + destruct (eqb_spec k' k2); auto.
Qed.

Lemma dict_get_In k (v : V) d : dict_get eqb k d = Some v -> In (k, v) d.
Proof.
  induction d as [|[k' v'] d IH]; simpl; [discriminate|].
  destruct (eqb_spec k k') as [->|_].
  - intros [= ->]. now left.
  - intros H. right. auto.
Qed.

Lemma dict_get_None k d :
  dict_get eqb k d = None -> ~ In k (map (@fst K V) d).
Proof.
  induction d as [|[k' v'] d IH]; simpl; [tauto|].
  destruct (eqb_spec k k') as [->|Hne]; [discriminate|].
  intros H [E|Hin]; [congruence|]. now apply IH.
Qed.

Lemma dict_set_absent k (v : V) d :
  dict_get eqb k d = None ->
  dict_set eqb k v d = d ++ [(k, v)].
Proof.
  induction d as [|[k' v'] d IH]; simpl; auto.
  destruct (eqb_spec k k'); [discriminate|].
  intros H. now rewrite IH.
Qed.

Lemma dict_set_present k (v v0 : V) d :
  dict_get eqb k d = Some v0 ->
  exists d1 d2,
    d = d1 ++ (k, v0) :: d2 /\ dict_set eqb k v d = d1 ++ (k, v) :: d2.
Proof.
  induction d as [|[k' v'] d IH]; simpl; [discriminate|].
  destruct (eqb_spec k k') as [->|Hne].
  - intros [= ->]. now exists [], d.
  - intros H. destruct (IH H) as (d1 & d2 & -> & E).
    exists ((k', v') :: d1), d2. simpl. now rewrite E.
Qed.
End Dict.

Lemma version_key_eqb_spec a b : reflect (a = b) (version_key_eqb a b).
Proof.
  destruct a as [a1 a2], b as [b1 b2]. unfold version_key_eqb; simpl.
  destruct (String.eqb_spec a1 b1), (String.eqb_spec a2 b2); simpl;
    constructor; congruence.
Qed.

End DictFacts.

(* ================================================================== *)
(** * [__cleanup_version] *)
(* ================================================================== *)

Lemma dict_set_twice k (v v' : Z) d :
  dict_set Z.eqb k v (dict_set Z.eqb k v' d) = dict_set Z.eqb k v d.
Proof.
  induction d as [|[k' w] d IH]; simpl.
  - now rewrite Z.eqb_refl.
  - destruct (Z.eqb_spec k k') as [->|Hne]; simpl.
    + now rewrite Z.eqb_refl.
    + destruct (Z.eqb_spec k k'); [contradiction|]. now rewrite IH.
Qed.

Lemma dict_set_same k (v : Z) d :
  dict_get Z.eqb k d = Some v -> dict_set Z.eqb k v d = d.
Proof.
  induction d as [|[k' w] d IH]; simpl; [discriminate|].
  destruct (Z.eqb_spec k k') as [->|Hne].
  - now intros [= ->].
  - intros H. now rewrite IH.
Qed.

Lemma attempted_incl fs calls : forall history,
  incl (attempted fs history calls) calls.
Proof.
  induction calls as [|m calls IH]; intros history x; cbn [attempted].
  - auto.
  - destruct (shutil_move fs history m).
    + intros [<-|H]; [now left|right; now apply (IH (history ++ [m]) x)].
    + intros [<-|[]]. now left.
Qed.

(** The calls made are the first of the calls asked for. *)
Lemma attempted_prefix fs calls : forall history,
  exists later, calls = (attempted fs history calls ++ later)%list.
Proof.
  induction calls as [|m calls IH]; intros history; cbn [attempted].
  - now exists [].
  - destruct (shutil_move fs history m).
    + destruct (IH (history ++ [m])%list) as [later E].
      exists later. cbn [app]. now rewrite <- E.
    + now exists calls.
Qed.

(** When no call is refused, all are made and carried out. *)
Lemma attempted_all fs calls : forall history,
  (forall before m, shutil_move fs before m = true) ->
  attempted fs history calls = calls /\
  carried_out fs history calls = List.length calls.
Proof.
  induction calls as [|m calls IH]; intros history Hok; cbn; auto.
  rewrite Hok. destruct (IH (history ++ [m]) Hok) as [-> ->]. auto.
Qed.

Section CleanupVersion.
Variable fs : filesystem.
Variable self : DistroCleaner.

(** The loop of [__cleanup_version]: the calls it makes, the count it
    reaches and how it ends. *)
Lemma move_loop repo reason repo_id packages : forall ex n,
  dict_get Z.eqb repo_id (stats ex) = Some n ->
  for_each
    (fun package => move fs (removal_for self repo reason package) ;;;
                    stat_incr repo_id)
    packages ex =
  ({| stats :=
        dict_set Z.eqb repo_id
          (n + Z.of_nat
                 (carried_out fs (moved ex)
                    (map (removal_for self repo reason) packages)))
          (stats ex);
      moved :=
        moved ex
        ++ attempted fs (moved ex)
             (map (removal_for self repo reason) packages) |},
   if (carried_out fs (moved ex)
         (map (removal_for self repo reason) packages)
       =? List.length packages)%nat
   then Returned tt else Raised EnvironmentError).
Proof.
  induction packages as [|p packages IH]; intros ex n Hn.
  - cbn. unfold ret. rewrite Z.add_0_r, app_nil_r.
    rewrite (dict_set_same _ _ _ Hn). now destruct ex.
  - cbn [for_each map attempted carried_out List.length].
    unfold bind at 1. unfold bind at 1. unfold move at 1.
    destruct (shutil_move fs (moved ex) (removal_for self repo reason p)).
    + unfold stat_incr at 1. cbn [stats moved]. rewrite Hn.
      rewrite (IH _ (n + 1)).
      * cbn [stats moved]. rewrite dict_set_twice, <- app_assoc.
        cbn [app Nat.eqb].
        replace (n + 1 + Z.of_nat
                   (carried_out fs
                      (moved ex ++ [removal_for self repo reason p])
                      (map (removal_for self repo reason) packages)))
          with (n + Z.of_nat
                  (S (carried_out fs
                        (moved ex ++ [removal_for self repo reason p])
                        (map (removal_for self repo reason) packages))))
          by lia.
        reflexivity.
      * cbn [stats]. apply (DictFacts.dict_get_set_same _ Z.eqb_spec).
    + cbn [Nat.eqb Z.of_nat]. rewrite Z.add_0_r.
      now rewrite (dict_set_same _ _ _ Hn).
Qed.

(** [__cleanup_version] on a version group whose first package lives in a
    repository that is not read-only. *)
Lemma cleanup_version_effect first rest reason repo ex :
  find_repo (repos_by_id self) (Pkg.repo_id first) = Some repo ->
  Repo.readonly repo = false ->
  cleanup_version fs self (first :: rest) reason ex =
  if makedirs fs (moved ex)
       (path_join (path_join (backup_dir self) (Repo.name repo))
                  (Repo.arch repo))
  then
    ({| stats :=
          dict_set Z.eqb (Pkg.repo_id first)
            (count_of (Pkg.repo_id first) (stats ex)
             + Z.of_nat
                 (carried_out fs (moved ex)
                    (map (removal_for self repo reason) (first :: rest))))
            (stats ex);
        moved :=
          moved ex
          ++ attempted fs (moved ex)
               (map (removal_for self repo reason) (first :: rest)) |},
     if (carried_out fs (moved ex)
           (map (removal_for self repo reason) (first :: rest))
         =? List.length (first :: rest))%nat
     then Returned tt else Raised EnvironmentError)
  else (ex, Raised EnvironmentError).
Proof.
  intros Hrepo Hro. unfold cleanup_version. rewrite Hrepo, Hro.
  unfold bind at 1. unfold ensure_dir.
  destruct (makedirs fs (moved ex) _); [|reflexivity].
  unfold bind at 1. unfold stat_init, count_of.
  destruct (dict_get Z.eqb (Pkg.repo_id first) (stats ex)) as [n|] eqn:Hn.
  - apply (move_loop repo reason (Pkg.repo_id first) (first :: rest) ex n Hn).
  - rewrite (move_loop repo reason (Pkg.repo_id first) (first :: rest) _ 0).
    + cbn [stats moved]. now rewrite dict_set_twice.
    + cbn [stats]. apply (DictFacts.dict_get_set_same _ Z.eqb_spec).
Qed.

(** Whatever group it is given and however it ends, [__cleanup_version]
    leaves the state as it is, or makes calls for packages of the group,
    in the repository of the first. *)
Lemma cleanup_version_moves packages reason ex :
  fst (cleanup_version fs self packages reason ex) = ex \/
  exists first rest repo,
    packages = first :: rest /\
    find_repo (repos_by_id self) (Pkg.repo_id first) = Some repo /\
    Repo.readonly repo = false /\
    fst (cleanup_version fs self packages reason ex) =
    {| stats :=
         dict_set Z.eqb (Pkg.repo_id first)
           (count_of (Pkg.repo_id first) (stats ex)
            + Z.of_nat
                (carried_out fs (moved ex)
                   (map (removal_for self repo reason) packages)))
           (stats ex);
       moved :=
         moved ex
         ++ attempted fs (moved ex)
              (map (removal_for self repo reason) packages) |}.
Proof.
  destruct packages as [|first rest]; [now left|].
  destruct (find_repo (repos_by_id self) (Pkg.repo_id first)) as [repo|]
    eqn:Hrepo.
  - destruct (Repo.readonly repo) eqn:Hro.
    + left. unfold cleanup_version. now rewrite Hrepo, Hro.
    + rewrite (cleanup_version_effect first rest reason repo ex Hrepo Hro).
      destruct (makedirs fs (moved ex) _); [|now left].
      right. exists first, rest, repo. auto.
  - left. unfold cleanup_version. now rewrite Hrepo.
Qed.


End CleanupVersion.

(* ================================================================== *)
(** * What a computation can record *)
(* ================================================================== *)

Section Emits.

Lemma emits_ret {A : Type} (a : A) P (Q : A -> Prop) :
  Q a -> emits (ret a) P Q.
Proof.
  intros Ha ex. exists []. simpl. rewrite app_nil_r. auto.
Qed.

Lemma emits_raise {A : Type} e P (Q : A -> Prop) : emits (raise e) P Q.
Proof.
  intros ex. exists []. simpl. rewrite app_nil_r. auto.
Qed.

Lemma emits_bind {A B : Type} (m : M executor A) (k : A -> M executor B)
    P (Q : A -> Prop) (R : B -> Prop) :
  emits m P Q -> (forall a, Q a -> emits (k a) P R) -> emits (bind m k) P R.
Proof.
  intros Hm Hk ex. unfold bind.
  destruct (Hm ex) as (new1 & E1 & F1 & Q1).
  destruct (m ex) as [ex1 [a|e]]; cbn [fst snd] in *.
  - destruct (Hk a Q1 ex1) as (new2 & E2 & F2 & Q2).
    exists (new1 ++ new2). rewrite E2, E1, app_assoc.
    split; auto. split; auto. apply Forall_app. auto.
  - exists new1. auto.
Qed.

Lemma emits_weaken {A : Type} (m : M executor A) (P P' : removal -> Prop)
    (Q Q' : A -> Prop) :
  emits m P Q -> (forall r, P r -> P' r) -> (forall a, Q a -> Q' a) ->
  emits m P' Q'.
Proof.
  intros Hm HP HQ ex. destruct (Hm ex) as (new & E & F & Hq).
  exists new. split; auto. split.
  - eapply Forall_impl; eauto.
  - destruct (snd (m ex)); auto.
Qed.


Lemma emits_for_each {A : Type} (f : A -> M executor unit) l P :
  (forall x, In x l -> emits (f x) P (fun _ => True)) ->
  emits (for_each f l) P (fun _ => True).
Proof.
  induction l as [|x l IH]; intros H; simpl.
  - now apply emits_ret.
  - apply emits_bind with (Q := fun _ => True).
    + apply H. now left.
    + intros _ _. apply IH. intros y Hy. apply H. now right.
Qed.

Lemma emits_for_fold {A B : Type} (f : B -> A -> M executor B) P
    (I : B -> Prop) l :
  (forall b x, In x l -> I b -> emits (f b x) P I) ->
  forall b, I b -> emits (for_fold f l b) P I.
Proof.
  induction l as [|x l IH]; intros H b Hb; simpl.
  - now apply emits_ret.
  - apply emits_bind with (Q := I).
    + apply H; auto. now left.
    + intros b' Hb'. apply IH; auto. intros b2 y Hy. apply H. now right.
Qed.

End Emits.

(* ================================================================== *)
(** * [__cleanup_previous_versions] and [__cleanup_arch]: what is moved *)
(* ================================================================== *)

Section EngineFacts.
Variable fs : filesystem.
Variable labelCompare : label -> label -> Z.
Variable splitFilename :
  option string -> option (string * string * string * string * string).
Variable iteration_order :
  list (version_key * list Pkg.t) -> list (version_key * list Pkg.t).
Variable self : DistroCleaner.

Hypothesis iteration_is_permutation :
  forall d, Permutation (iteration_order d) d.

Lemma main_first_In srpm_name p v : In p (main_first srpm_name v) <-> In p v.
Proof. apply PyFacts.sort_reverse_In. Qed.

Lemma rearrange_groups srpm_name ids versions : forall latest ord latest' ord',
  rearrange labelCompare srpm_name ids versions latest ord
    = Returned (latest', ord') ->
  ord' = ord ++ map (main_first srpm_name) versions.
Proof.
  induction versions as [|v versions IH]; intros latest ord latest' ord' H.
  - simpl in H. injection H as _ <-. now rewrite app_nil_r.
  - simpl in H. destruct (main_first srpm_name v) as [|first rest] eqn:Ev;
      [discriminate|].
    apply IH in H. rewrite H, <- app_assoc. simpl. now rewrite Ev.
Qed.

Lemma rearrange_returns srpm_name ids versions : forall latest ord,
  Forall (fun v => v <> []) versions ->
  exists latest',
    rearrange labelCompare srpm_name ids versions latest ord
      = Returned (latest', ord ++ map (main_first srpm_name) versions).
Proof.
  induction versions as [|v versions IH]; intros latest ord Hne.
  - exists latest. simpl. now rewrite app_nil_r.
  - inversion Hne as [|? ? Hv Hrest]; subst.
    simpl. destruct (main_first srpm_name v) as [|first rest] eqn:Ev.
    + apply PyFacts.sort_reverse_nil in Ev. contradiction.
    + match goal with
      | |- context [rearrange _ _ _ _ ?l ?o] =>
          destruct (IH l o Hrest) as (latest' & E)
      end.
      exists latest'. rewrite E, <- app_assoc. reflexivity.
Qed.




Local Abbreviation name_of := (srpm_name_of splitFilename).







End EngineFacts.

(* ================================================================== *)
(** * The representative of a version *)
(* ================================================================== *)

(** [main_first] puts the packages named after the source first and keeps
    the order of the packages otherwise: the representative of a version
    is its first package of that name, or its first package when there is
    none. *)
Lemma main_first_spec n l :
  main_first (Some n) l
  = filter (fun p => String.eqb (Pkg.name p) n) l
    ++ filter (fun p => negb (String.eqb (Pkg.name p) n)) l.
Proof.
  unfold main_first. induction l as [|x l IH]; [reflexivity|].
  cbn [sort_reverse fold_right filter].
  change (fold_right (insert_desc (sort_by_rpm_name (Some n))) [] l)
    with (sort_reverse (sort_by_rpm_name (Some n)) l).
  rewrite IH. clear IH.
  set (others := filter (fun p => negb (String.eqb (Pkg.name p) n)) l).
  assert (Hothers : Forall (fun p => String.eqb (Pkg.name p) n = false) others).
  { apply Forall_forall. intros p Hp. apply filter_In in Hp.
    now apply negb_true_iff. }
  clearbody others.
  assert (Hmains : Forall (fun p => String.eqb (Pkg.name p) n = true)
                     (filter (fun p => String.eqb (Pkg.name p) n) l)).
  { apply Forall_forall. intros p Hp. now apply filter_In in Hp. }
  set (mains := filter (fun p => String.eqb (Pkg.name p) n) l) in *.
  clearbody mains.
  destruct (String.eqb (Pkg.name x) n) eqn:Hx; cbn [negb app].
  - destruct (mains ++ others) as [|y rest]; [reflexivity|].
    cbn [insert_desc]. unfold sort_by_rpm_name. now rewrite Hx.
  - induction Hmains as [|y mains Hy Hmains IHm]; cbn [app].
    + destruct Hothers as [|y others Hy _]; [reflexivity|].
      cbn [insert_desc]. unfold sort_by_rpm_name. now rewrite Hx, Hy.
    + cbn [insert_desc]. unfold sort_by_rpm_name at 1. rewrite Hx, Hy.
      cbn. now rewrite IHm.
Qed.

(* ================================================================== *)
(** * How [__cleanup_arch] files packages under versions *)
(* ================================================================== *)

Section Grouping.
Variable fs : filesystem.
Variable labelCompare : label -> label -> Z.
Variable splitFilename :
  option string -> option (string * string * string * string * string).
Variable iteration_order :
  list (version_key * list Pkg.t) -> list (version_key * list Pkg.t).
Variable self : DistroCleaner.

Local Abbreviation name_of := (srpm_name_of splitFilename).
Local Abbreviation key_of := (version_key_of splitFilename).
Local Abbreviation gathered := (gather splitFilename).
Local Abbreviation row_step :=
  (cleanup_arch_row fs labelCompare splitFilename iteration_order self).

Lemma named_row_has_key row n :
  name_of row = Some n -> exists key, key_of row = Some key.
Proof.
  unfold srpm_name_of, version_key_of.
  destruct (splitFilename (Pkg.sourcerpm row))
    as [[[[[nm v] r] e] a]|]; [|discriminate].
  intros _. now exists (v, r).
Qed.

(** While the source name stays the same the loop only files rows. *)
Lemma same_name_rows_gather repos n rows : forall versions ex,
  (forall row, In row rows -> name_of row = Some n) ->
  for_fold (row_step repos) rows (Some n, versions) ex
    = (ex, Returned (Some n, gathered rows versions)).
Proof.
  induction rows as [|row rows IH]; intros versions ex Hrows.
  - reflexivity.
  - cbn [for_fold]. unfold bind at 1.
    pose proof (Hrows row (or_introl eq_refl)) as Hn.
    unfold cleanup_arch_row at 1, gather.
    unfold srpm_name_of in Hn.
    cbn [fold_left]. unfold version_key_of at 2.
    destruct (splitFilename (Pkg.sourcerpm row))
      as [[[[[nm v] r] e] a]|]; [|discriminate].
    injection Hn as ->.
    unfold name_differs. rewrite String.eqb_refl. cbn.
    apply IH. intros r' Hr'. apply Hrows. now right.
Qed.

Lemma first_rows_gather repos n row rows ex :
  (forall r, In r (row :: rows) -> name_of r = Some n) ->
  for_fold (row_step repos) (row :: rows) (None, []) ex
    = (ex, Returned (Some n, gathered (row :: rows) [])).
Proof.
  intros Hrows.
  cbn [for_fold]. unfold bind at 1.
  pose proof (Hrows row (or_introl eq_refl)) as Hn.
  unfold cleanup_arch_row at 1, gather.
  unfold srpm_name_of in Hn.
  cbn [fold_left]. unfold version_key_of at 2.
  destruct (splitFilename (Pkg.sourcerpm row))
    as [[[[[nm v] r] e] a]|]; [|discriminate].
  injection Hn as ->. cbn.
  apply same_name_rows_gather. intros r' Hr'. apply Hrows. now right.
Qed.

Local Abbreviation filed := (filed splitFilename).

Lemma add_version_filed key row versions done :
  key_of row = Some key ->
  filed versions done ->
  filed (add_version key row versions) (done ++ [row]).
Proof.
  intros Hkey (Hnd & Hin & Hall). unfold add_version.
  destruct (dict_get version_key_eqb key versions) as [l|] eqn:E.
  - destruct (DictFacts.dict_set_present _ DictFacts.version_key_eqb_spec
                key (l ++ [row]) l versions E) as (d1 & d2 & -> & ->).
    split; [|split].
    + rewrite map_app in *. exact Hnd.
    + intros k g Hg p Hp.
      apply in_app_or in Hg. destruct Hg as [Hg|[Hg|Hg]].
      * apply (Hin k g); auto. apply in_or_app. now left.
      * injection Hg as <- <-. apply in_app_or in Hp.
        destruct Hp as [Hp|[Hp|[]]].
        -- apply (Hin key l); auto. apply in_or_app. right. now left.
        -- now subst p.
      * apply (Hin k g); auto. apply in_or_app. right. now right.
    + intros p Hp. apply in_app_or in Hp. destruct Hp as [Hp|[Hp|[]]].
      * destruct (Hall p Hp) as (k & g & Hk & Hg & Hpg).
        apply in_app_or in Hg. destruct Hg as [Hg|[Hg|Hg]].
        -- exists k, g. split; auto. split; auto.
           apply in_or_app. now left.
        -- injection Hg as <- <-. exists key, (l ++ [row]).
           split; auto. split.
           ++ apply in_or_app. right. now left.
           ++ apply in_or_app. now left.
        -- exists k, g. split; auto. split; auto.
           apply in_or_app. right. now right.
      * subst p. exists key, (l ++ [row]). split; auto. split.
        -- apply in_or_app. right. now left.
        -- apply in_or_app. right. now left.
  - rewrite (DictFacts.dict_set_absent _ DictFacts.version_key_eqb_spec
               key [row] versions E).
    split; [|split].
    + rewrite map_app. simpl.
      apply (DictFacts.dict_get_None _ DictFacts.version_key_eqb_spec) in E.
      apply Permutation_NoDup with (l := key :: map fst versions).
      * apply Permutation_cons_append.
      * now constructor.
    + intros k g Hg p Hp. apply in_app_or in Hg.
      destruct Hg as [Hg|[Hg|[]]].
      * now apply (Hin k g).
      * injection Hg as <- <-. destruct Hp as [Hp|[]]. now subst p.
    + intros p Hp. apply in_app_or in Hp. destruct Hp as [Hp|[Hp|[]]].
      * destruct (Hall p Hp) as (k & g & Hk & Hg & Hpg).
        exists k, g. split; auto. split; auto. apply in_or_app. now left.
      * subst p. exists key, [row]. split; auto. split.
        -- apply in_or_app. right. now left.
        -- now left.
Qed.

Lemma gather_filed rows : forall versions done,
  (forall row, In row rows -> exists key, key_of row = Some key) ->
  filed versions done ->
  filed (gathered rows versions) (done ++ rows).
Proof.
  induction rows as [|row rows IH]; intros versions done Hrows Hf.
  - simpl. now rewrite app_nil_r.
  - destruct (Hrows row (or_introl eq_refl)) as (key & Hkey).
    unfold gather. cbn [fold_left]. rewrite Hkey.
    replace (done ++ row :: rows) with ((done ++ [row]) ++ rows)
      by now rewrite <- app_assoc.
    apply IH.
    + intros r Hr. apply Hrows. now right.
    + now apply add_version_filed.
Qed.

(** Two rows of one source name are filed together exactly when their
    source file names carry the same version and release. *)
Lemma gather_same_version_group rows p q :
  (forall row, In row rows -> exists key, key_of row = Some key) ->
  In p rows -> In q rows ->
  same_version_group (gathered rows []) p q <->
  key_of p = key_of q.
Proof.
  intros Hrows Hp Hq.
  destruct (gather_filed rows [] [] Hrows) as (Hnd & Hin & Hall).
  { split; [constructor|]. split; intros; contradiction. }
  simpl in Hall. split.
  - intros (key & group & Hg & Hpg & Hqg).
    now rewrite (Hin key group Hg p Hpg), (Hin key group Hg q Hqg).
  - intros Heq.
    destruct (Hall p Hp) as (k1 & g1 & Hk1 & Hg1 & Hp1).
    destruct (Hall q Hq) as (k2 & g2 & Hk2 & Hg2 & Hq2).
    assert (k1 = k2) by congruence. subst k2.
    assert (g1 = g2).
    { clear -Hnd Hg1 Hg2.
      induction (gathered rows []) as [|[k g] d IH]; [contradiction|].
      simpl in Hnd. inversion Hnd as [|? ? Hk Hd]; subst.
      destruct Hg1 as [E1|H1], Hg2 as [E2|H2].
      - congruence.
      - injection E1 as -> ->. exfalso. apply Hk.
        now apply (in_map fst) in H2.
      - injection E2 as -> ->. exfalso. apply Hk.
        now apply (in_map fst) in H1.
      - auto. }
    subst g2. exists k1, g1. auto.
Qed.

End Grouping.

(* ================================================================== *)
(** * [__cleanup_previous_versions]: which versions are handed over *)
(* ================================================================== *)

Section Plan.
Variable fs : filesystem.
Variable labelCompare : label -> label -> Z.
Variable self : DistroCleaner.

Lemma for_each_map {S A B : Type} (g : A -> B) (f : B -> M S unit) l s :
  for_each f (map g l) s = for_each (fun x => f (g x)) l s.
Proof.
  revert s. induction l as [|x l IH]; intros s; simpl; auto.
  unfold bind. destruct (f (g x) s) as [s' [[]|e]]; auto.
Qed.

(** Removing the expired versions one by one leaves the others, in
    order. *)
Lemma expire_filter (P : list Pkg.t -> bool) l : forall pre ex,
  (forall x, In x pre -> P x = false) ->
  expire fs self (filter P l) (pre ++ l) ex =
  match for_each (fun v => cleanup_version fs self v
                             RemovalReason.EXPIRED_BY_STABLE)
                 (filter P l) ex with
  | (ex', Returned _) =>
      (ex', Returned (pre ++ filter (fun v => negb (P v)) l))
  | (ex', Raised e) => (ex', Raised e)
  end.
Proof.
  induction l as [|x l IH]; intros pre ex Hpre.
  - reflexivity.
  - cbn [filter]. destruct (P x) eqn:Px; cbn [negb].
    + cbn [expire for_each]. unfold bind.
      destruct (cleanup_version fs self x RemovalReason.EXPIRED_BY_STABLE ex)
        as [ex1 [[]|e]]; auto.
      rewrite PyFacts.list_remove_app.
      * apply IH, Hpre.
      * intros Hin. apply Hpre in Hin. congruence.
    + replace (pre ++ x :: l) with ((pre ++ [x]) ++ l)
        by now rewrite <- app_assoc.
      rewrite IH.
      * destruct (for_each _ (filter P l) ex) as [ex' [[]|e]]; auto.
        now rewrite <- app_assoc.
      * intros y Hy. apply in_app_or in Hy.
        destruct Hy as [Hy|[Hy|[]]]; [auto|now subst y].
Qed.

(** [__cleanup_previous_versions] runs the removal plan of its sorted
    versions. *)
Lemma cleanup_previous_versions_plan srpm_name versions repos latest ord :
  rearrange labelCompare srpm_name (stable_repo_ids_of repos) versions None []
    = Returned (latest, ord) ->
  forall ex,
    cleanup_previous_versions fs labelCompare self srpm_name versions repos ex =
    run_plan fs self
      (removal_plan labelCompare self (stable_repo_ids_of repos) latest
         (sort_reverse (compare_versions labelCompare) ord)) ex.
Proof.
  intros E ex. unfold cleanup_previous_versions. rewrite E.
  set (ids := stable_repo_ids_of repos).
  set (sorted := sort_reverse (compare_versions labelCompare) ord).
  unfold run_plan, removal_plan.
  rewrite PyFacts.for_each_app. unfold bind.
  rewrite for_each_map. cbn [fst snd].
  assert (Hrest : forall left ex1,
    (let (s', o) :=
       for_each (fun packages => cleanup_version fs self packages
                                   RemovalReason.OUTDATED)
         (slice_from (keep_beta self)
            (filter (fun v => negb (first_in ids v)) left)) ex1 in
     match o with
     | Returned _ =>
         for_each (fun packages => cleanup_version fs self packages
                                     RemovalReason.OUTDATED)
           (slice_from (keep_stable self) (filter (first_in ids) left)) s'
     | Raised e => (s', Raised e)
     end) =
    for_each (fun entry => cleanup_version fs self (fst entry) (snd entry))
      (map (fun v => (v, RemovalReason.OUTDATED))
         (slice_from (keep_beta self)
            (filter (fun v => negb (first_in ids v)) left)) ++
       map (fun v => (v, RemovalReason.OUTDATED))
         (slice_from (keep_stable self) (filter (first_in ids) left))) ex1).
  { intros left ex1. rewrite PyFacts.for_each_app. unfold bind.
    rewrite for_each_map. cbn [fst snd].
    destruct (for_each _ (slice_from (keep_beta self) _) ex1)
      as [ex2 [[]|e]]; auto.
    now rewrite for_each_map. }
  destruct latest as [l|]; cbn [expired_beta_of].
  - pose proof (expire_filter (is_expired labelCompare ids l) sorted [] ex)
      as H.
    cbn [app] in H. rewrite H by (intros ? []). clear H.
    destruct (for_each _ (filter (is_expired labelCompare ids l) sorted) ex)
      as [ex1 [[]|e]]; auto.
  - cbn [expire for_each]. unfold ret. apply Hrest.
Qed.

End Plan.

(* ================================================================== *)
(** * Under an antisymmetric, transitive [labelCompare] *)
(* ================================================================== *)

Section Ordered.
Variable fs : filesystem.
Variable labelCompare : label -> label -> Z.
Variable self : DistroCleaner.

Hypothesis labelCompare_antisym :
  forall a b, labelCompare b a = - labelCompare a b.
Hypothesis labelCompare_trans :
  forall a b c,
    labelCompare a b <= 0 -> labelCompare b c <= 0 -> labelCompare a c <= 0.

Lemma labelCompare_refl a : labelCompare a a = 0.
Proof. pose proof (labelCompare_antisym a a). lia. Qed.

Lemma labelCompare_ge_trans a b c :
  labelCompare a b >= 0 -> labelCompare b c >= 0 -> labelCompare a c >= 0.
Proof.
  apply (PyFacts.cmp_ge_trans labelCompare);
    [exact labelCompare_antisym|exact labelCompare_trans].
Qed.

Lemma compare_versions_antisym a b :
  compare_versions labelCompare b a = - compare_versions labelCompare a b.
Proof. apply labelCompare_antisym. Qed.

Lemma compare_versions_trans a b c :
  compare_versions labelCompare a b <= 0 ->
  compare_versions labelCompare b c <= 0 ->
  compare_versions labelCompare a c <= 0.
Proof. apply labelCompare_trans. Qed.

(** A version below an expired one is expired too, when neither has its
    first package in a stable repository. *)
Lemma expired_below l (above below : list Pkg.t) :
  compare_versions labelCompare above below >= 0 ->
  (0 <? labelCompare (label_of_evr l) (first_label above)) = true ->
  (0 <? labelCompare (label_of_evr l) (first_label below)) = true.
Proof.
  unfold compare_versions. intros Hab Ha.
  apply Z.ltb_lt in Ha. apply Z.ltb_lt.
  destruct (Z_lt_le_dec 0 (labelCompare (label_of_evr l) (first_label below)))
    as [|Hle]; auto.
  exfalso.
  assert (labelCompare (label_of_evr l) (first_label above) <= 0); [|lia].
  apply (labelCompare_trans _ (first_label below)); auto.
  rewrite (labelCompare_antisym (first_label above)). lia.
Qed.

(** With no first package in a stable repository, every version past the
    [keep_beta] newest is in the removal plan. *)
Lemma plan_past_keep_beta ids latest ord :
  (forall v, In v ord -> first_in ids v = false) ->
  0 <= keep_beta self ->
  forall i v,
    nth_error (sort_reverse (compare_versions labelCompare) ord) i = Some v ->
    (Z.to_nat (keep_beta self) <= i)%nat ->
    exists reason,
      In (v, reason)
         (removal_plan labelCompare self ids latest
            (sort_reverse (compare_versions labelCompare) ord)).
Proof.
  intros Hbeta Hkeep i v Hi Hrank.
  set (sorted := sort_reverse (compare_versions labelCompare) ord) in *.
  assert (Hsb : forall w, In w sorted -> first_in ids w = false).
  { intros w Hw. apply Hbeta. now apply PyFacts.sort_reverse_In in Hw. }
  assert (Hall : forall (l : list (list Pkg.t)),
            (forall w, In w l -> first_in ids w = false) ->
            filter (fun w => negb (first_in ids w)) l = l).
  { induction l as [|w l IH]; intros Hl; simpl; auto.
    rewrite (Hl w) by now left. simpl. f_equal. apply IH.
    intros; apply Hl. now right. }
  assert (Hskip : forall (l : list (list Pkg.t)) j w,
            nth_error l j = Some w -> (Z.to_nat (keep_beta self) <= j)%nat ->
            In w (slice_from (keep_beta self) l)).
  { intros l j w Hj Hle. rewrite PyFacts.slice_from_nonneg by exact Hkeep.
    apply nth_error_In with (n := (j - Z.to_nat (keep_beta self))%nat).
    rewrite nth_error_skipn. rewrite <- Hj. f_equal. lia. }
  unfold removal_plan. destruct latest as [l|]; cbn [expired_beta_of].
  - pose proof (PyFacts.sorted_filter_split (compare_versions labelCompare)
                  (is_expired labelCompare ids l) sorted) as Hsplit.
    set (left := filter (fun w => negb (is_expired labelCompare ids l w))
                        sorted) in *.
    set (expired := filter (is_expired labelCompare ids l) sorted) in *.
    assert (Es : sorted = left ++ expired).
    { apply Hsplit.
      - apply PyFacts.sort_reverse_sorted.
        + exact compare_versions_antisym.
        + exact compare_versions_trans.
      - intros a b _ Hb Hab. unfold is_expired.
        rewrite !andb_true_iff. intros [_ Ha]. split.
        + now rewrite (Hsb b Hb).
        + now apply (expired_below l a b). }
    assert (Hleft : filter (fun w => negb (first_in ids w)) left = left).
    { apply Hall. intros w Hw. apply Hsb. rewrite Es.
      apply in_or_app. now left. }
    rewrite Hleft.
    destruct (Nat.lt_ge_cases i (List.length left)) as [Hlt|Hge].
    + exists RemovalReason.OUTDATED.
      apply in_or_app. right. apply in_or_app. left.
      apply (in_map (fun w => (w, RemovalReason.OUTDATED))).
      apply (Hskip left i v); auto.
      rewrite Es, nth_error_app1 in Hi; auto.
    + exists RemovalReason.EXPIRED_BY_STABLE.
      apply in_or_app. left.
      apply (in_map (fun w => (w, RemovalReason.EXPIRED_BY_STABLE))).
      rewrite Es, nth_error_app2 in Hi by exact Hge.
      eapply nth_error_In; eauto.
  - exists RemovalReason.OUTDATED. cbn [map app].
    apply in_or_app. left.
    apply (in_map (fun w => (w, RemovalReason.OUTDATED))).
    rewrite (Hall sorted Hsb). apply (Hskip sorted i v); auto.
Qed.

(** The first loop of [__cleanup_previous_versions], once
    [latest_stable_evr] is set to [e]: it ends on [e] or on the EVR of a
    first package that lives in a stable repository, and nothing of the
    kind compares above it. *)
Lemma rearrange_latest srpm_name ids versions : forall e ord,
  Forall (fun v => v <> []) versions ->
  exists e',
    rearrange labelCompare srpm_name ids versions (Some e) ord
      = Returned (Some e', ord ++ map (main_first srpm_name) versions) /\
    (e' = e \/
     exists v rep, In v versions /\
                   hd_error (main_first srpm_name v) = Some rep /\
                   mem (Pkg.repo_id rep) ids = true /\ evr_of rep = e') /\
    labelCompare (label_of_evr e') (label_of_evr e) >= 0 /\
    (forall v rep, In v versions ->
       hd_error (main_first srpm_name v) = Some rep ->
       mem (Pkg.repo_id rep) ids = true ->
       labelCompare (label_of_evr e') (label_of_evr (evr_of rep)) >= 0).
Proof.
  induction versions as [|v versions IH]; intros e ord Hne.
  - exists e. simpl. rewrite app_nil_r. split; auto. split; auto.
    split; [rewrite labelCompare_refl; lia|]. intros ? ? [].
  - inversion Hne as [|? ? Hv Hrest]; subst.
    cbn [rearrange map].
    destruct (main_first srpm_name v) as [|p rest] eqn:Ev.
    { apply PyFacts.sort_reverse_nil in Ev. contradiction. }
    destruct (mem (Pkg.repo_id p) ids
              && (labelCompare (label_of_evr e) (label_of_evr (evr_of p)) <? 0))
      eqn:Hlatest.
    + apply andb_true_iff in Hlatest. destruct Hlatest as [Hst Hlt].
      apply Z.ltb_lt in Hlt.
      destruct (IH (evr_of p) (ord ++ [p :: rest]) Hrest)
        as (e' & E & Hfrom & Hge & Hmax).
      exists e'. rewrite E, <- app_assoc. split; [reflexivity|].
      split; [|split].
      * right. destruct Hfrom as [->|(w & rep & Hw & Hrep & Hs & He)].
        -- exists v, p. rewrite Ev. split; [now left|]. auto.
        -- exists w, rep. split; [now right|]. auto.
      * apply (labelCompare_ge_trans _ (label_of_evr (evr_of p))); auto.
        rewrite (labelCompare_antisym (label_of_evr e)). lia.
      * intros w rep [<-|Hw] Hrep Hs.
        -- rewrite Ev in Hrep. injection Hrep as <-. exact Hge.
        -- now apply (Hmax w rep).
    + destruct (IH e (ord ++ [p :: rest]) Hrest)
        as (e' & E & Hfrom & Hge & Hmax).
      exists e'. rewrite E, <- app_assoc. split; [reflexivity|].
      split; [|split; [exact Hge|]].
      * destruct Hfrom as [->|(w & rep & Hw & Hrep & Hs & He)]; [now left|].
        right. exists w, rep. split; [now right|]. auto.
      * intros w rep [<-|Hw] Hrep Hs.
        -- rewrite Ev in Hrep. injection Hrep as <-.
           rewrite Hs in Hlatest. cbn [andb] in Hlatest.
           apply Z.ltb_ge in Hlatest.
           apply (labelCompare_ge_trans _ (label_of_evr e));
             [exact Hge|lia].
        -- now apply (Hmax w rep).
Qed.

(** When the version visited first has its first package in a stable
    repository, [latest_stable_evr] ends as the greatest EVR among the first
    packages that live in a stable repository. *)
Lemma rearrange_latest_stable srpm_name ids v versions :
  Forall (fun w => w <> []) (v :: versions) ->
  first_in ids (main_first srpm_name v) = true ->
  exists latest,
    rearrange labelCompare srpm_name ids (v :: versions) None []
      = Returned (Some latest, map (main_first srpm_name) (v :: versions)) /\
    (exists w rep, In w (v :: versions) /\
                   hd_error (main_first srpm_name w) = Some rep /\
                   mem (Pkg.repo_id rep) ids = true /\ evr_of rep = latest) /\
    (forall w rep, In w (v :: versions) ->
       hd_error (main_first srpm_name w) = Some rep ->
       mem (Pkg.repo_id rep) ids = true ->
       labelCompare (label_of_evr latest) (label_of_evr (evr_of rep)) >= 0).
Proof.
  intros Hne Hfirst. inversion Hne as [|? ? Hv Hrest]; subst.
  cbn [rearrange map].
  destruct (main_first srpm_name v) as [|p rest] eqn:Ev.
  { apply PyFacts.sort_reverse_nil in Ev. contradiction. }
  simpl in Hfirst.
  destruct (rearrange_latest srpm_name ids versions (evr_of p)
              ([] ++ [p :: rest]) Hrest) as (e' & E & Hfrom & Hge & Hmax).
  exists e'. split; [exact E|]. split.
  - destruct Hfrom as [->|(w & rep & Hw & Hrep & Hs & He)].
    + exists v, p. rewrite Ev. split; [now left|]. auto.
    + exists w, rep. split; [now right|]. auto.
  - intros w rep [<-|Hw] Hrep Hs.
    + rewrite Ev in Hrep. injection Hrep as <-. exact Hge.
    + now apply (Hmax w rep).
Qed.

End Ordered.

(* ================================================================== *)
(** * The rpm comparator is antisymmetric and transitive *)
(* ================================================================== *)

Lemma rpm_labelCompare_antisym a b :
  Rpm.labelCompare b a = - Rpm.labelCompare a b.
Proof.
  destruct a as [[e1 v1] r1], b as [[e2 v2] r2]. unfold Rpm.labelCompare.
  apply ComparatorFacts.compare_antisym.
Qed.

Lemma rpm_labelCompare_trans a b c :
  Rpm.labelCompare a b <= 0 -> Rpm.labelCompare b c <= 0 ->
  Rpm.labelCompare a c <= 0.
Proof.
  destruct a as [[e1 v1] r1], b as [[e2 v2] r2], c as [[e3 v3] r3].
  unfold Rpm.labelCompare. apply ComparatorFacts.compare_le_trans.
Qed.

(* ================================================================== *)
(** * The iteration order of a small dictionary *)
(* ================================================================== *)

Lemma Permutation_length_3_inv {A : Type} (a b c : A) l :
  Permutation l [a; b; c] ->
  l = [a; b; c] \/ l = [a; c; b] \/ l = [b; a; c] \/
  l = [b; c; a] \/ l = [c; a; b] \/ l = [c; b; a].
Proof.
  intros P.
  assert (Hlen : List.length l = 3%nat) by now rewrite (Permutation_length P).
  destruct l as [|x [|y [|z [|]]]]; try discriminate. clear Hlen.
  assert (Hx : In x [a; b; c]) by (apply (Permutation_in _ P); now left).
  destruct Hx as [Hx|[Hx|[Hx|[]]]]; subst x.
  - apply Permutation_cons_inv in P.
    apply Permutation_length_2_inv in P.
    destruct P as [[= -> ->]|[= -> ->]]; auto.
  - assert (P2 : Permutation [y; z] [a; c]).
    { apply Permutation_cons_inv with (a := b).
      rewrite P. apply perm_swap. }
    apply Permutation_length_2_inv in P2.
    destruct P2 as [[= -> ->]|[= -> ->]]; auto 6.
  - assert (P2 : Permutation [y; z] [a; b]).
    { apply Permutation_cons_inv with (a := c).
      rewrite P.
      apply Permutation_trans with (l' := [a; c; b]).
      - apply perm_skip, perm_swap.
      - apply perm_swap. }
    apply Permutation_length_2_inv in P2.
    destruct P2 as [[= -> ->]|[= -> ->]]; auto 7.
Qed.

(* ================================================================== *)
(** * One source name, then another *)
(* ================================================================== *)

Section Flush.
Variable fs : filesystem.
Variable labelCompare : label -> label -> Z.
Variable splitFilename :
  option string -> option (string * string * string * string * string).
Variable iteration_order :
  list (version_key * list Pkg.t) -> list (version_key * list Pkg.t).
Variable self : DistroCleaner.

(** The rows of one source name with more than one version, followed by
    one row of another name: the first group is cleaned, the row after it
    is only gathered. *)
Lemma cleanup_rows_one_group repos n row rows n' next ex :
  (forall r, In r (row :: rows) -> srpm_name_of splitFilename r = Some n) ->
  srpm_name_of splitFilename next = Some n' ->
  n' <> n ->
  (1 < List.length (gather splitFilename (row :: rows) []))%nat ->
  cleanup_rows fs labelCompare splitFilename iteration_order self repos
    ((row :: rows) ++ [next]) ex
  = (cleanup_previous_versions fs labelCompare self (Some n)
       (map snd (iteration_order (gather splitFilename (row :: rows) [])))
       repos ;;; ret tt) ex.
Proof.
  intros Hrows Hnext Hne Hlen.
  unfold cleanup_rows. unfold bind at 1.
  rewrite PyFacts.for_fold_app. unfold bind at 1.
  rewrite (first_rows_gather fs labelCompare splitFilename iteration_order self
             repos n row rows ex Hrows).
  cbn [for_fold]. unfold bind at 1. unfold cleanup_arch_row.
  unfold srpm_name_of in Hnext.
  destruct (splitFilename (Pkg.sourcerpm next))
    as [[[[[nm v] r] e] a]|]; [|discriminate].
  injection Hnext as ->.
  unfold name_differs.
  destruct (String.eqb_spec n n') as [->|_]; [congruence|]. cbn [negb].
  replace (1 <? Z.of_nat (List.length (gather splitFilename (row :: rows) [])))
    with true by (symmetry; apply Z.ltb_lt; lia).
  unfold bind, ret.
  destruct (cleanup_previous_versions fs labelCompare self (Some n) _ repos ex)
    as [ex' [[]|err]]; reflexivity.
Qed.

End Flush.

(* ================================================================== *)
(** * The version comparator: section 4.1 and 8 of the specification *)
(* ================================================================== *)

Example compare_prerelease :
  Comparator.compare (Some 0, "1.0", "1~rc1") (Some 0, "1.0", "1") = -1.
Proof. reflexivity. Qed.

Example compare_epoch_dominates :
  Comparator.compare (Some 1, "1.0", "1") (Some 0, "9.9", "9") = 1.
Proof. reflexivity. Qed.

Example compare_leading_zeros :
  Comparator.compare (None, "1.05", "1") (Some 0, "1.5", "01") = 0.
Proof. reflexivity. Qed.

Example compare_numeric_above_alphabetic :
  Comparator.compare (None, "1.a", "1") (None, "1.0", "1") = -1.
Proof. reflexivity. Qed.

(** C8: for all EVR triples [a] and [b] the comparator of the
    specification satisfies [compare a b = - compare b a], hence
    [compare a a = 0]; and it is transitive, on any three triples: below
    and below gives below, above and above gives above, and the same for
    "not above". *)
Theorem compare_antisymmetric_and_transitive :
  (forall a b, Comparator.compare a b = - Comparator.compare b a) /\
  (forall a, Comparator.compare a a = 0) /\
  (forall a b c, Comparator.compare a b = -1 -> Comparator.compare b c = -1 ->
                 Comparator.compare a c = -1) /\
  (forall a b c, Comparator.compare a b = 1 -> Comparator.compare b c = 1 ->
                 Comparator.compare a c = 1) /\
  (forall a b c, Comparator.compare a b <= 0 -> Comparator.compare b c <= 0 ->
                 Comparator.compare a c <= 0).
Proof.
  split; [|split; [|split; [|split]]].
  - intros a b. apply ComparatorFacts.compare_antisym.
  - apply ComparatorFacts.compare_refl.
  - apply ComparatorFacts.compare_lt_trans.
  - intros a b c Hab Hbc.
    rewrite (ComparatorFacts.compare_antisym c a).
    rewrite (ComparatorFacts.compare_lt_trans c b a); [reflexivity| |].
    + rewrite (ComparatorFacts.compare_antisym b c). lia.
    + rewrite (ComparatorFacts.compare_antisym a b). lia.
  - apply ComparatorFacts.compare_le_trans.
Qed.

(* ================================================================== *)
(** * [__cleanup_version] *)
(* ================================================================== *)

(** C10 as stated fails.  A group whose first package lives in a read-only
    repository is left where it is: foo 10 of the read-only stable
    repository with foo 10 of the beta repository, on a file system that
    refuses nothing.  The loop ends at the first call the file system
    refuses: foo 2 of the beta repository comes with its sub-package of
    the stable repository, whose file is not under the root of the beta
    repository; the call for it raises and the count stays at one.  And
    nothing is moved when the backup directory cannot be made. *)
Lemma cleanup_version_does_not_move_every_package :
  cleanup_version Scenario.willing Scenario.cleaner_readonly
    [Scenario.stable_10; Scenario.beta_10] RemovalReason.OUTDATED
    Scenario.start
  = (Scenario.start, Returned tt) /\
  cleanup_version Scenario.files_in_place Scenario.cleaner
    [Scenario.foo_2; Scenario.foo_libs_2] RemovalReason.OUTDATED
    Scenario.start
  = ({| stats := [(2, 1)];
        moved :=
          map (removal_for Scenario.cleaner Scenario.beta
                 RemovalReason.OUTDATED)
              [Scenario.foo_2; Scenario.foo_libs_2] |},
     Raised EnvironmentError) /\
  cleanup_version Scenario.no_backup_dir Scenario.cleaner
    [Scenario.foo_2; Scenario.foo_libs_2] RemovalReason.OUTDATED
    Scenario.start
  = (Scenario.start, Raised EnvironmentError).
Proof. repeat split; reflexivity. Qed.

(** C10, amended: when a version group is handed to [__cleanup_version],
    its first package lives in a repository that is not read-only and the
    backup directory named after that repository and its architecture is
    there or can be made, the packages of the group are taken in order,
    whatever repository they belong to: each has its path taken under the
    root of the first package's repository and is handed to [shutil.move]
    into that backup directory, up to the first call the file system
    refuses.  Every call carried out adds one to the removed-count of the
    first package's repository and no other count changes; the method
    returns when no call was refused and raises otherwise.  On a file
    system that refuses no move every package is moved and counted. *)
Theorem cleanup_version_works_in_the_first_package_repository :
  forall fs self first rest reason repo ex,
    find_repo (repos_by_id self) (Pkg.repo_id first) = Some repo ->
    Repo.readonly repo = false ->
    makedirs fs (moved ex)
      (path_join (path_join (backup_dir self) (Repo.name repo))
                 (Repo.arch repo)) = true ->
    let calls := map (removal_for self repo reason) (first :: rest) in
    let made := attempted fs (moved ex) calls in
    let done := carried_out fs (moved ex) calls in
    exists ex',
      cleanup_version fs self (first :: rest) reason ex
      = (ex', if (done =? List.length (first :: rest))%nat
              then Returned tt else Raised EnvironmentError) /\
      moved ex' = moved ex ++ made /\
      (exists later, calls = made ++ later) /\
      dict_get Z.eqb (Pkg.repo_id first) (stats ex') =
        Some (count_of (Pkg.repo_id first) (stats ex) + Z.of_nat done) /\
      (forall k, k <> Pkg.repo_id first ->
                 dict_get Z.eqb k (stats ex') = dict_get Z.eqb k (stats ex)) /\
      ((forall before m, shutil_move fs before m = true) ->
       made = calls /\ done = List.length (first :: rest)).
Proof.
  intros fs self first rest reason repo ex Hrepo Hro Hdir calls made done.
  rewrite (cleanup_version_effect fs self first rest reason repo ex Hrepo Hro).
  rewrite Hdir. eexists. split; [reflexivity|]. cbn [stats moved].
  split; [reflexivity|]. split; [apply attempted_prefix|].
  split; [apply (DictFacts.dict_get_set_same _ Z.eqb_spec)|].
  split.
  - intros k Hk.
    now apply (DictFacts.dict_get_set_other _ Z.eqb_spec).
  - intros Hok. subst made done calls.
    destruct (attempted_all fs
                (map (removal_for self repo reason) (first :: rest))
                (moved ex) Hok) as [E1 E2].
    split; [exact E1|]. now rewrite E2, length_map.
Qed.

(** foo 2 of the beta repository and its sub-package of the stable
    repository, the files being where their own repositories say: both
    calls are made under the root of the beta repository. *)
Lemma cleanup_version_mixed_group :
  let calls :=
    map (removal_for Scenario.cleaner Scenario.beta RemovalReason.OUTDATED)
        [Scenario.foo_2; Scenario.foo_libs_2] in
  let made := attempted Scenario.files_in_place (moved Scenario.start) calls in
  let done :=
    carried_out Scenario.files_in_place (moved Scenario.start) calls in
  exists ex',
    cleanup_version Scenario.files_in_place Scenario.cleaner
      [Scenario.foo_2; Scenario.foo_libs_2] RemovalReason.OUTDATED
      Scenario.start
    = (ex', if (done =? List.length [Scenario.foo_2; Scenario.foo_libs_2])%nat
            then Returned tt else Raised EnvironmentError) /\
    moved ex' = moved Scenario.start ++ made /\
    (exists later, calls = made ++ later) /\
    dict_get Z.eqb (Pkg.repo_id Scenario.foo_2) (stats ex') =
      Some (count_of (Pkg.repo_id Scenario.foo_2) (stats Scenario.start)
            + Z.of_nat done) /\
    (forall k, k <> Pkg.repo_id Scenario.foo_2 ->
               dict_get Z.eqb k (stats ex')
               = dict_get Z.eqb k (stats Scenario.start)) /\
    ((forall before m,
        shutil_move Scenario.files_in_place before m = true) ->
     made = calls /\
     done = List.length [Scenario.foo_2; Scenario.foo_libs_2]).
Proof.
  apply (cleanup_version_works_in_the_first_package_repository
           Scenario.files_in_place Scenario.cleaner Scenario.foo_2
           [Scenario.foo_libs_2] RemovalReason.OUTDATED Scenario.beta
           Scenario.start);
    reflexivity.
Defined.

(** C4, on the program: foo 1 lives in the beta repository and its
    sub-package foo-libs 1 in the stable repository, which is read-only.
    The group is handed over as expired; once the backup directory is
    there and the file of foo 1 is moved, [shutil.move] is called for the
    sub-package of the read-only repository too, under the root of the
    beta repository. *)
Theorem readonly_package_is_moved_with_its_group :
  forall fs,
    makedirs fs [] "/backup/distro/7/beta/x86_64" = true ->
    shutil_move fs []
      (removal_for Scenario.cleaner_readonly Scenario.beta
         RemovalReason.EXPIRED_BY_STABLE Scenario.old_foo) = true ->
    exists m repo,
      In m (moved (fst (cleanup_version fs Scenario.cleaner_readonly
                          [Scenario.old_foo; Scenario.old_foo_libs]
                          RemovalReason.EXPIRED_BY_STABLE Scenario.start))) /\
      rm_package m = Scenario.old_foo_libs /\
      find_repo (repos_by_id Scenario.cleaner_readonly)
                (Pkg.repo_id (rm_package m)) = Some repo /\
      Repo.readonly repo = true /\
      rm_path m = "/repos/beta/x86_64/foo-libs-1-1.x86_64.rpm".
Proof.
  intros fs Hdir Hfirst.
  exists (removal_for Scenario.cleaner_readonly Scenario.beta
            RemovalReason.EXPIRED_BY_STABLE Scenario.old_foo_libs),
         Scenario.stable_readonly.
  split; [|repeat split].
  rewrite (cleanup_version_effect fs Scenario.cleaner_readonly
             Scenario.old_foo [Scenario.old_foo_libs]
             RemovalReason.EXPIRED_BY_STABLE Scenario.beta Scenario.start)
    by reflexivity.
  change (moved Scenario.start) with (@nil removal).
  change (path_join (path_join (backup_dir Scenario.cleaner_readonly)
                       (Repo.name Scenario.beta)) (Repo.arch Scenario.beta))
    with "/backup/distro/7/beta/x86_64"%string.
  rewrite Hdir. cbn [fst moved app map attempted]. rewrite Hfirst.
  cbn [In]. right.
  destruct (shutil_move fs [_] _); cbn [In]; now left.
Qed.

(** The files being where their own repositories say. *)
Lemma readonly_package_is_moved_with_files_in_place :
  exists m repo,
    In m (moved (fst (cleanup_version Scenario.files_in_place
                        Scenario.cleaner_readonly
                        [Scenario.old_foo; Scenario.old_foo_libs]
                        RemovalReason.EXPIRED_BY_STABLE Scenario.start))) /\
    rm_package m = Scenario.old_foo_libs /\
    find_repo (repos_by_id Scenario.cleaner_readonly)
              (Pkg.repo_id (rm_package m)) = Some repo /\
    Repo.readonly repo = true /\
    rm_path m = "/repos/beta/x86_64/foo-libs-1-1.x86_64.rpm".
Proof.
  apply (readonly_package_is_moved_with_its_group Scenario.files_in_place);
    reflexivity.
Defined.

(** The same group as [__cleanup_previous_versions] meets it, whichever
    way the two versions of foo are visited. *)
Lemma readonly_package_is_moved_by_cleanup_previous_versions :
  forall versions,
    versions = [[Scenario.old_foo; Scenario.old_foo_libs]; [Scenario.new_foo]]
    \/ versions
       = [[Scenario.new_foo]; [Scenario.old_foo; Scenario.old_foo_libs]] ->
    In (removal_for Scenario.cleaner_readonly Scenario.beta
          RemovalReason.EXPIRED_BY_STABLE Scenario.old_foo_libs)
       (moved (fst (cleanup_previous_versions Scenario.files_in_place
           Rpm.labelCompare
                      Scenario.cleaner_readonly (Some "foo") versions
                      [Scenario.stable_readonly; Scenario.beta]
                      Scenario.start))).
Proof.
  intros versions [->| ->]; vm_compute; right; now left.
Qed.

(* ================================================================== *)
(** * [__cleanup_arch] *)
(* ================================================================== *)



(** C1 as stated fails on the reason.  The stable build first in the
    EVR-10 group, the files where their repositories say, keepBeta=1:
    whichever way the three version groups of foo are visited,
    [__cleanup_previous_versions] hands over the EVR-9 and EVR-8 groups as
    expired by the stable version, not as outdated. *)
Lemma end_to_end_reason_is_expired_by_stable :
  Forall
    (fun versions =>
       map (fun m => (rm_package m, rm_reason m))
         (moved (fst (cleanup_previous_versions Scenario.files_in_place
                        Rpm.labelCompare Scenario.cleaner (Some "foo")
                        versions Scenario.repos Scenario.start)))
       = [(Scenario.beta_9, RemovalReason.EXPIRED_BY_STABLE);
          (Scenario.beta_8, RemovalReason.EXPIRED_BY_STABLE)] /\
       ~ In RemovalReason.OUTDATED
            (map rm_reason
               (moved (fst (cleanup_previous_versions
                              Scenario.files_in_place Rpm.labelCompare
                              Scenario.cleaner (Some "foo") versions
                              Scenario.repos Scenario.start)))))
    [[[Scenario.stable_10; Scenario.beta_10]; [Scenario.beta_9];
      [Scenario.beta_8]];
     [[Scenario.stable_10; Scenario.beta_10]; [Scenario.beta_8];
      [Scenario.beta_9]];
     [[Scenario.beta_9]; [Scenario.stable_10; Scenario.beta_10];
      [Scenario.beta_8]];
     [[Scenario.beta_9]; [Scenario.beta_8];
      [Scenario.stable_10; Scenario.beta_10]];
     [[Scenario.beta_8]; [Scenario.stable_10; Scenario.beta_10];
      [Scenario.beta_9]];
     [[Scenario.beta_8]; [Scenario.beta_9];
      [Scenario.stable_10; Scenario.beta_10]]].
Proof.
  repeat constructor; vm_compute; intros [H|[H|[]]]; discriminate.
Qed.

(** C1, amended: one stable repository holding foo 10 and one beta
    repository holding foo 10, 9 and 8, keepBeta=1.  Whichever way the two
    builds of the EVR-10 group are listed and the three version groups are
    visited, [__cleanup_previous_versions] yields removal decisions exactly
    for the EVR-9 and EVR-8 groups and none for EVR 10; with the stable
    build first in its group the reason of both is [EXPIRED_BY_STABLE]. *)
Theorem end_to_end_expired_by_stable :
  forall tens versions,
    Permutation tens [Scenario.stable_10; Scenario.beta_10] ->
    Permutation versions [tens; [Scenario.beta_9]; [Scenario.beta_8]] ->
    exists plan,
      (forall fs ex,
         cleanup_previous_versions fs Rpm.labelCompare Scenario.cleaner
           (Some "foo") versions Scenario.repos ex
         = run_plan fs Scenario.cleaner plan ex) /\
      Permutation (map fst plan) [[Scenario.beta_9]; [Scenario.beta_8]] /\
      (tens = [Scenario.stable_10; Scenario.beta_10] ->
       map snd plan = [RemovalReason.EXPIRED_BY_STABLE;
                       RemovalReason.EXPIRED_BY_STABLE]).
Proof.
  intros tens versions Htens Hversions.
  assert (Et : tens = [Scenario.stable_10; Scenario.beta_10] \/
               tens = [Scenario.beta_10; Scenario.stable_10]).
  { assert (Hlen : List.length tens = 2%nat)
      by now rewrite (Permutation_length Htens).
    destruct tens as [|x [|y [|]]]; try discriminate.
    assert (Hx : In x [Scenario.stable_10; Scenario.beta_10])
      by (apply (Permutation_in _ Htens); now left).
    assert (Hy : In y [Scenario.stable_10; Scenario.beta_10])
      by (apply (Permutation_in _ Htens); right; now left).
    assert (Hnd : NoDup [x; y]).
    { apply (Permutation_NoDup (Permutation_sym Htens)).
      repeat constructor; cbn; intuition discriminate. }
    inversion Hnd as [|? ? Hnx _]; subst.
    destruct Hx as [<-|[<-|[]]]; destruct Hy as [<-|[<-|[]]]; auto;
      exfalso; apply Hnx; now left. }
  apply Permutation_length_3_inv in Hversions.
  destruct Et as [-> | ->];
    destruct Hversions as [->|[->|[->|[->|[->| ->]]]]];
    (eexists; split;
     [intros fs ex; apply cleanup_previous_versions_plan; vm_compute;
      reflexivity
     |split;
      [vm_compute;
       first [apply Permutation_refl | apply perm_swap]
      |intros E; first [discriminate E | vm_compute; reflexivity]]]).
Qed.

(** The EVR-10 group with its stable build first, the version groups
    from the newest to the oldest. *)
Lemma end_to_end_in_insertion_order :
  exists plan,
    (forall fs ex,
       cleanup_previous_versions fs Rpm.labelCompare Scenario.cleaner
         (Some "foo")
         [[Scenario.stable_10; Scenario.beta_10]; [Scenario.beta_9];
          [Scenario.beta_8]] Scenario.repos ex
       = run_plan fs Scenario.cleaner plan ex) /\
    Permutation (map fst plan) [[Scenario.beta_9]; [Scenario.beta_8]] /\
    ([Scenario.stable_10; Scenario.beta_10]
     = [Scenario.stable_10; Scenario.beta_10] ->
     map snd plan = [RemovalReason.EXPIRED_BY_STABLE;
                     RemovalReason.EXPIRED_BY_STABLE]).
Proof.
  apply (end_to_end_expired_by_stable
           [Scenario.stable_10; Scenario.beta_10]
           [[Scenario.stable_10; Scenario.beta_10]; [Scenario.beta_9];
            [Scenario.beta_8]]);
    apply Permutation_refl.
Defined.

(** With the beta build first in the EVR-10 group no version counts as
    stable: visited from the oldest, foo 9 and foo 8 are handed over as
    outdated. *)
Example end_to_end_with_the_beta_build_first :
  map (fun m => (rm_package m, rm_reason m))
    (moved (fst (cleanup_previous_versions Scenario.files_in_place
                   Rpm.labelCompare Scenario.cleaner (Some "foo")
                   [[Scenario.beta_8]; [Scenario.beta_9];
                    [Scenario.beta_10; Scenario.stable_10]]
                   Scenario.repos Scenario.start)))
  = [(Scenario.beta_9, RemovalReason.OUTDATED);
     (Scenario.beta_8, RemovalReason.OUTDATED)].
Proof. reflexivity. Qed.

(** C6 as stated fails: two builds of foo-1-1.src.rpm that differ in epoch
    are gathered by the loop of [__cleanup_arch] into one version. *)
Lemma builds_that_differ_in_epoch_share_a_version :
  exists versions,
    for_fold (cleanup_arch_row Scenario.files_in_place Rpm.labelCompare
        Rpm.splitFilename
                insertion_order Scenario.cleaner Scenario.repos)
             [Scenario.foo_epoch_0; Scenario.foo_epoch_1] (None, [])
             Scenario.start
      = (Scenario.start, Returned (Some "foo", versions)) /\
    same_version_group versions Scenario.foo_epoch_0 Scenario.foo_epoch_1 /\
    Pkg.version Scenario.foo_epoch_0 = Pkg.version Scenario.foo_epoch_1 /\
    Pkg.rel Scenario.foo_epoch_0 = Pkg.rel Scenario.foo_epoch_1 /\
    Pkg.epoch Scenario.foo_epoch_0 <> Pkg.epoch Scenario.foo_epoch_1.
Proof.
  exists [(("1", "1"), [Scenario.foo_epoch_0; Scenario.foo_epoch_1])].
  split; [vm_compute; reflexivity|].
  split; [|repeat split; discriminate].
  exists ("1", "1"), [Scenario.foo_epoch_0; Scenario.foo_epoch_1].
  split; [left; reflexivity|]. split; [left; reflexivity|].
  right. left. reflexivity.
Qed.

(** C6, as the program has it: the rows of one source name are gathered by
    the loop of [__cleanup_arch] without any removal, and two of them are in
    the same version exactly when [splitFilename] reads the same version and
    release in their source file names; the epoch, version and release of
    the packages themselves play no part. *)
Theorem version_groups_follow_the_source_file_name :
  forall fs labelCompare splitFilename iteration_order self repos n row rows ex,
    (forall r, In r (row :: rows) -> srpm_name_of splitFilename r = Some n) ->
    exists versions,
      for_fold (cleanup_arch_row fs labelCompare splitFilename iteration_order
                  self repos) (row :: rows) (None, []) ex
        = (ex, Returned (Some n, versions)) /\
      forall p q, In p (row :: rows) -> In q (row :: rows) ->
        (same_version_group versions p q <->
         version_key_of splitFilename p = version_key_of splitFilename q).
Proof.
  intros fs labelCompare splitFilename iteration_order self repos n row rows ex
         Hrows.
  exists (gather splitFilename (row :: rows) []). split.
  - now apply first_rows_gather.
  - intros p q Hp Hq. apply gather_same_version_group; auto.
    intros r Hr. apply (named_row_has_key splitFilename r n). auto.
Qed.

Lemma version_groups_of_foo :
  exists versions,
    for_fold (cleanup_arch_row Scenario.files_in_place Rpm.labelCompare
        Rpm.splitFilename
                insertion_order Scenario.cleaner Scenario.repos)
             (Scenario.stable_10
              :: [Scenario.beta_10; Scenario.beta_8; Scenario.beta_9])
             (None, []) Scenario.start
      = (Scenario.start, Returned (Some "foo", versions)) /\
    forall p q,
      In p (Scenario.stable_10
            :: [Scenario.beta_10; Scenario.beta_8; Scenario.beta_9]) ->
      In q (Scenario.stable_10
            :: [Scenario.beta_10; Scenario.beta_8; Scenario.beta_9]) ->
      (same_version_group versions p q <->
       version_key_of Rpm.splitFilename p = version_key_of Rpm.splitFilename q).
Proof.
  apply (version_groups_follow_the_source_file_name Scenario.files_in_place
      Rpm.labelCompare
           Rpm.splitFilename insertion_order Scenario.cleaner Scenario.repos
           "foo").
  intros r [<-|[<-|[<-|[<-|[]]]]]; reflexivity.
Defined.

(* ================================================================== *)
(** * [__cleanup_previous_versions] *)
(* ================================================================== *)

(** C2 as stated fails.  foo 1 of the stable repository is visited
    first, then foo 2 of the beta repository, whose sub-package lives in
    the stable repository: [latest_stable_evr] ends as that of foo 1,
    although the version of foo 2 holds a stable package and compares above
    it.  The second input has the same two keys and fails in the same way
    when they are visited in the other order, so that one of the two fails
    whatever the order of iteration over these keys. *)
Lemma latest_stable_evr_misses_a_stable_sub_package :
  (exists latest ord_versions,
     rearrange Rpm.labelCompare (Some "foo")
       (stable_repo_ids_of Scenario.repos)
       [[Scenario.foo_1]; [Scenario.foo_2; Scenario.foo_libs_2]] None []
       = Returned (Some latest, ord_versions) /\
     latest = evr_of Scenario.foo_1 /\
     ~ spec_latest_stable_evr Rpm.labelCompare
         (stable_repo_ids_of Scenario.repos) ord_versions latest) /\
  (exists latest ord_versions,
     rearrange Rpm.labelCompare (Some "foo")
       (stable_repo_ids_of Scenario.repos)
       [[Scenario.plain_foo]; [Scenario.epoch_foo; Scenario.epoch_foo_libs]]
       None []
       = Returned (Some latest, ord_versions) /\
     latest = evr_of Scenario.plain_foo /\
     ~ spec_latest_stable_evr Rpm.labelCompare
         (stable_repo_ids_of Scenario.repos) ord_versions latest).
Proof.
  split.
  - eexists _, _. split; [reflexivity|]. split; [reflexivity|].
    intros [_ Hmax].
    specialize (Hmax [Scenario.foo_2; Scenario.foo_libs_2]).
    assert (H : Rpm.labelCompare (label_of_evr (evr_of Scenario.foo_1))
                  (first_label [Scenario.foo_2; Scenario.foo_libs_2]) >= 0).
    { apply Hmax; [right; now left|reflexivity]. }
    vm_compute in H. now apply H.
  - eexists _, _. split; [reflexivity|]. split; [reflexivity|].
    intros [_ Hmax].
    specialize (Hmax [Scenario.epoch_foo; Scenario.epoch_foo_libs]).
    assert (H : Rpm.labelCompare (label_of_evr (evr_of Scenario.plain_foo))
                  (first_label [Scenario.epoch_foo; Scenario.epoch_foo_libs])
                >= 0).
    { apply Hmax; [right; now left|reflexivity]. }
    vm_compute in H. now apply H.
Qed.

(** C2, as the program has it: under an antisymmetric and transitive
    [labelCompare], when the version visited first has its representative
    in a stable repository, [latest_stable_evr] ends as the EVR of a
    representative that lives in a stable repository, no such
    representative compares above it, and it is the value the removal plan
    of [__cleanup_previous_versions] is computed from. *)
Theorem latest_stable_evr_is_the_greatest_stable_representative :
  forall fs labelCompare self srpm_name repos v versions,
    (forall a b, labelCompare b a = - labelCompare a b) ->
    (forall a b c, labelCompare a b <= 0 -> labelCompare b c <= 0 ->
                   labelCompare a c <= 0) ->
    Forall (fun w => w <> []) (v :: versions) ->
    first_in (stable_repo_ids_of repos) (main_first srpm_name v) = true ->
    exists latest,
      rearrange labelCompare srpm_name (stable_repo_ids_of repos)
        (v :: versions) None []
        = Returned (Some latest, map (main_first srpm_name) (v :: versions)) /\
      (exists w rep,
         In w (v :: versions) /\
         hd_error (main_first srpm_name w) = Some rep /\
         mem (Pkg.repo_id rep) (stable_repo_ids_of repos) = true /\
         evr_of rep = latest) /\
      (forall w rep,
         In w (v :: versions) ->
         hd_error (main_first srpm_name w) = Some rep ->
         mem (Pkg.repo_id rep) (stable_repo_ids_of repos) = true ->
         labelCompare (label_of_evr latest) (label_of_evr (evr_of rep)) >= 0) /\
      (forall ex,
         cleanup_previous_versions fs labelCompare self srpm_name (v ::
             versions)
           repos ex
         = run_plan fs self
             (removal_plan labelCompare self (stable_repo_ids_of repos)
                (Some latest)
                (sort_reverse (compare_versions labelCompare)
                   (map (main_first srpm_name) (v :: versions)))) ex).
Proof.
  intros fs labelCompare self srpm_name repos v versions Hanti Htrans Hne
      Hfirst.
  destruct (rearrange_latest_stable labelCompare Hanti Htrans srpm_name
              (stable_repo_ids_of repos) v versions Hne Hfirst)
    as (latest & E & Hfrom & Hmax).
  exists latest. split; [exact E|]. split; [exact Hfrom|].
  split; [exact Hmax|].
  intros ex. now apply cleanup_previous_versions_plan.
Qed.

Lemma latest_stable_evr_of_foo :
  exists latest,
    rearrange Rpm.labelCompare (Some "foo")
      (stable_repo_ids_of Scenario.repos)
      ([Scenario.new_foo] :: [[Scenario.old_foo; Scenario.old_foo_libs]])
      None []
      = Returned (Some latest,
                  map (main_first (Some "foo"))
                      ([Scenario.new_foo]
                       :: [[Scenario.old_foo; Scenario.old_foo_libs]])) /\
    (exists w rep,
       In w ([Scenario.new_foo]
             :: [[Scenario.old_foo; Scenario.old_foo_libs]]) /\
       hd_error (main_first (Some "foo") w) = Some rep /\
       mem (Pkg.repo_id rep) (stable_repo_ids_of Scenario.repos) = true /\
       evr_of rep = latest) /\
    (forall w rep,
       In w ([Scenario.new_foo]
             :: [[Scenario.old_foo; Scenario.old_foo_libs]]) ->
       hd_error (main_first (Some "foo") w) = Some rep ->
       mem (Pkg.repo_id rep) (stable_repo_ids_of Scenario.repos) = true ->
       Rpm.labelCompare (label_of_evr latest) (label_of_evr (evr_of rep))
       >= 0) /\
    (forall ex,
       cleanup_previous_versions Scenario.files_in_place Rpm.labelCompare
           Scenario.cleaner (Some "foo")
         ([Scenario.new_foo] :: [[Scenario.old_foo; Scenario.old_foo_libs]])
         Scenario.repos ex
       = run_plan Scenario.files_in_place Scenario.cleaner
           (removal_plan Rpm.labelCompare Scenario.cleaner
              (stable_repo_ids_of Scenario.repos) (Some latest)
              (sort_reverse (compare_versions Rpm.labelCompare)
                 (map (main_first (Some "foo"))
                      ([Scenario.new_foo]
                       :: [[Scenario.old_foo; Scenario.old_foo_libs]])))) ex).
Proof.
  apply (latest_stable_evr_is_the_greatest_stable_representative
      Scenario.files_in_place
           Rpm.labelCompare Scenario.cleaner (Some "foo") Scenario.repos
           [Scenario.new_foo] [[Scenario.old_foo; Scenario.old_foo_libs]]).
  - exact rpm_labelCompare_antisym.
  - exact rpm_labelCompare_trans.
  - repeat constructor; discriminate.
  - reflexivity.
Defined.

(** C3 as stated fails: foo 9 and foo 8, both of the beta repository and
    with [keep_beta = 1]; foo 8 is removed whichever version is visited
    first. *)
Lemma beta_only_versions_are_removed :
  contains_stable (stable_repo_ids_of Scenario.repos) [Scenario.beta_9] = false
  /\ contains_stable (stable_repo_ids_of Scenario.repos) [Scenario.beta_8]
     = false
  /\ map rm_package
       (moved (fst (cleanup_previous_versions Scenario.files_in_place
           Rpm.labelCompare Scenario.cleaner
                      (Some "foo") [[Scenario.beta_9]; [Scenario.beta_8]]
                      Scenario.repos Scenario.start))) = [Scenario.beta_8]
  /\ map rm_package
       (moved (fst (cleanup_previous_versions Scenario.files_in_place
           Rpm.labelCompare Scenario.cleaner
                      (Some "foo") [[Scenario.beta_8]; [Scenario.beta_9]]
                      Scenario.repos Scenario.start))) = [Scenario.beta_8].
Proof. repeat split. Qed.

(** C3, as the program has it: under an antisymmetric and transitive
    [labelCompare] and a [keep_beta] that is not negative, a source name
    none of whose versions holds a package of a stable repository is still
    trimmed: [__cleanup_previous_versions] runs [__cleanup_version] on a
    plan that holds every version ranked after the [keep_beta] newest. *)
Theorem beta_only_versions_are_still_trimmed :
  forall fs labelCompare self srpm_name versions repos,
    (forall a b, labelCompare b a = - labelCompare a b) ->
    (forall a b c, labelCompare a b <= 0 -> labelCompare b c <= 0 ->
                   labelCompare a c <= 0) ->
    Forall (fun v => v <> []) versions ->
    Forall (fun v => contains_stable (stable_repo_ids_of repos) v = false)
           versions ->
    0 <= keep_beta self ->
    exists plan,
      (forall ex,
         cleanup_previous_versions fs labelCompare self srpm_name versions repos
             ex
         = run_plan fs self plan ex) /\
      (forall i v,
         nth_error (sort_reverse (compare_versions labelCompare)
                      (map (main_first srpm_name) versions)) i = Some v ->
         (Z.to_nat (keep_beta self) <= i)%nat ->
         exists reason, In (v, reason) plan).
Proof.
  intros fs labelCompare self srpm_name versions repos Hanti Htrans Hne Hbeta
         Hkeep.
  destruct (rearrange_returns labelCompare srpm_name
              (stable_repo_ids_of repos) versions None [] Hne)
    as (latest & E).
  simpl in E.
  exists (removal_plan labelCompare self (stable_repo_ids_of repos) latest
            (sort_reverse (compare_versions labelCompare)
               (map (main_first srpm_name) versions))).
  split.
  - intros ex. now apply cleanup_previous_versions_plan.
  - apply plan_past_keep_beta; auto.
    intros v Hv. apply in_map_iff in Hv. destruct Hv as (v0 & <- & Hv0).
    rewrite Forall_forall in Hbeta. specialize (Hbeta v0 Hv0).
    destruct (main_first srpm_name v0) as [|p rest] eqn:Ev; auto.
    simpl. unfold contains_stable in Hbeta.
    destruct (mem (Pkg.repo_id p) (stable_repo_ids_of repos)) eqn:Hp; auto.
    rewrite <- Hbeta. symmetry. apply existsb_exists.
    exists p. split; auto.
    apply (main_first_In srpm_name). rewrite Ev. now left.
Qed.

Lemma beta_only_versions_of_foo :
  exists plan,
    (forall ex,
       cleanup_previous_versions Scenario.files_in_place Rpm.labelCompare
           Scenario.cleaner (Some "foo")
         [[Scenario.beta_8]; [Scenario.beta_9]] Scenario.repos ex
       = run_plan Scenario.files_in_place Scenario.cleaner plan ex) /\
    (forall i v,
       nth_error (sort_reverse (compare_versions Rpm.labelCompare)
                    (map (main_first (Some "foo"))
                         [[Scenario.beta_8]; [Scenario.beta_9]])) i = Some v ->
       (Z.to_nat (keep_beta Scenario.cleaner) <= i)%nat ->
       exists reason, In (v, reason) plan).
Proof.
  apply (beta_only_versions_are_still_trimmed Scenario.files_in_place
      Rpm.labelCompare
           Scenario.cleaner (Some "foo")
           [[Scenario.beta_8]; [Scenario.beta_9]] Scenario.repos).
  - exact rpm_labelCompare_antisym.
  - exact rpm_labelCompare_trans.
  - repeat constructor; discriminate.
  - repeat constructor.
  - vm_compute. discriminate.
Defined.

(* ================================================================== *)
(** * The package index *)
(* ================================================================== *)

Lemma save_repo_package_rows self db repo_id package row :
  In row (packages (save_repo_package self db repo_id package)) ->
  In row (packages db) \/
  (forall srpm, Pkg.sourcerpm row = Some srpm ->
                srpm = "" \/ is_srpm_excluded self srpm = false).
Proof.
  unfold save_repo_package.
  destruct (CrPackage.rpm_sourcerpm package) as [s|] eqn:Es.
  - destruct (negb (s =? "")%string && is_srpm_excluded self s) eqn:Ex;
      auto.
    cbn [packages]. intros H. apply in_app_or in H.
    destruct H as [H|[<-|[]]]; auto.
    right. cbn [Pkg.sourcerpm]. intros srpm [= <-].
    apply andb_false_iff in Ex. destruct Ex as [Ex|Ex]; auto.
    left. apply negb_false_iff in Ex. now apply String.eqb_eq.
  - cbn [packages]. intros H. apply in_app_or in H.
    destruct H as [H|[<-|[]]]; auto.
    right. cbn [Pkg.sourcerpm]. discriminate.
Qed.

Lemma index_repo_packages_rows self repo_id primary : forall db row,
  In row (packages (index_repo_packages self db repo_id primary)) ->
  In row (packages db) \/
  (forall srpm, Pkg.sourcerpm row = Some srpm ->
                srpm = "" \/ is_srpm_excluded self srpm = false).
Proof.
  induction primary as [|package primary IH]; intros db row; simpl; auto.
  intros H. apply IH in H. destruct H as [H|H]; auto.
  now apply save_repo_package_rows in H.
Qed.

(** C5 as stated fails: the kernel package, whose source matches the
    pattern [^kernel], is not in the index after it was handed to
    [__save_repo_package]. *)
Lemma excluded_package_is_dropped :
  is_srpm_excluded Scenario.cleaner_excluding "kernel-3.10.0-1.src.rpm" = true
  /\ packages (save_repo_package Scenario.cleaner_excluding Scenario.empty_db
                 1 Scenario.kernel) = [].
Proof. split; reflexivity. Qed.

(** C5, as the program has it: a package whose source identifier is not
    empty and matches the exclusion pattern is not inserted:
    [__save_repo_package] leaves the database as it is, and after a whole
    repository is indexed no new row has that source identifier. *)
Theorem excluded_package_is_not_indexed :
  forall self db repo_id package srpm,
    CrPackage.rpm_sourcerpm package = Some srpm ->
    srpm <> "" ->
    is_srpm_excluded self srpm = true ->
    save_repo_package self db repo_id package = db /\
    (forall primary row,
       In row (packages (index_repo_packages self db repo_id primary)) ->
       Pkg.sourcerpm row = Some srpm -> In row (packages db)).
Proof.
  intros self db repo_id package srpm Hs Hne Hex. split.
  - unfold save_repo_package. rewrite Hs, Hex.
    destruct (String.eqb_spec srpm "") as [->|_]; [congruence|]. reflexivity.
  - intros primary row Hin Hrow.
    apply index_repo_packages_rows in Hin. destruct Hin as [Hin|Hin]; auto.
    destruct (Hin srpm Hrow); congruence.
Qed.

Lemma excluded_kernel_is_not_indexed :
  save_repo_package Scenario.cleaner_excluding Scenario.empty_db 1
    Scenario.kernel = Scenario.empty_db /\
  (forall primary row,
     In row (packages (index_repo_packages Scenario.cleaner_excluding
                         Scenario.empty_db 1 primary)) ->
     Pkg.sourcerpm row = Some "kernel-3.10.0-1.src.rpm" ->
     In row (packages Scenario.empty_db)).
Proof.
  apply (excluded_package_is_not_indexed Scenario.cleaner_excluding
           Scenario.empty_db 1 Scenario.kernel "kernel-3.10.0-1.src.rpm").
  - reflexivity.
  - discriminate.
  - reflexivity.
Defined.

(* ================================================================== *)
(** * [__update_repodata] *)
(* ================================================================== *)

Section RegenerationFacts.
Variable createrepo_c : list string -> Z.
Variable get_repomd_record_xml_path : string -> string -> option string.
Variable self : DistroCleaner.

Local Abbreviation command_for repo :=
  (createrepo_command (Repo.path repo)
     (get_repomd_record_xml_path (Repo.path repo) "group")).

Lemma update_repodata_stops before : forall before_repos failing repo after ran,
  Forall2 (fun repo_id r =>
             find_repo (repos_by_id self) repo_id = Some r /\
             createrepo_c (command_for r) = 0) before before_repos ->
  find_repo (repos_by_id self) failing = Some repo ->
  createrepo_c (command_for repo) <> 0 ->
  update_repodata createrepo_c get_repomd_record_xml_path self
    (before ++ failing :: after) ran
  = (ran ++ map (fun r => command_for r) before_repos ++ [command_for repo],
     Raised (CreaterepoError (Repo.path repo)
               (createrepo_c (command_for repo)))).
Proof.
  induction before as [|repo_id before IH];
    intros before_repos failing repo after ran Hbefore Hrepo Hfail.
  - inversion Hbefore; subst. cbn [app map update_repodata for_each].
    unfold update_repodata. cbn [for_each]. unfold bind.
    rewrite Hrepo. unfold create_repo.
    destruct (Z.eqb_spec (createrepo_c (command_for repo)) 0); [contradiction|].
    reflexivity.
  - inversion Hbefore as [|? r ? rs [Hr Hok] Hrest]; subst.
    unfold update_repodata in *. cbn [app for_each map]. unfold bind at 1.
    rewrite Hr. unfold create_repo at 1. rewrite Hok. cbn [Z.eqb].
    rewrite (IH rs failing repo after _ Hrest Hrepo Hfail).
    now rewrite <- app_assoc.
Qed.

End RegenerationFacts.

(** C7 as stated fails: the stable and the beta repository both lost
    packages and [createrepo_c] fails in the stable one, which the loop
    meets first: the command is never run in the beta repository. *)
Lemma regeneration_is_not_attempted_after_a_failure :
  update_repodata Scenario.failing_createrepo Scenario.no_group_file
    Scenario.cleaner [1; 2] []
  = ([createrepo_command "/repos/stable/x86_64" None],
     Raised (CreaterepoError "/repos/stable/x86_64" 1)).
Proof. reflexivity. Qed.

(** C7, as the program has it: [__update_repodata] runs [createrepo_c] in
    the repositories of [self.__stats] in turn until the command fails in
    one of them; [create_repo] then raises, the exception leaves the loop,
    and no command is run in the repositories after it. *)
Theorem regeneration_stops_at_the_first_failure :
  forall createrepo_c get_repomd_record_xml_path self
         before before_repos failing repo after ran,
    Forall2 (fun repo_id r =>
               find_repo (repos_by_id self) repo_id = Some r /\
               createrepo_c
                 (createrepo_command (Repo.path r)
                    (get_repomd_record_xml_path (Repo.path r) "group")) = 0)
            before before_repos ->
    find_repo (repos_by_id self) failing = Some repo ->
    createrepo_c
      (createrepo_command (Repo.path repo)
         (get_repomd_record_xml_path (Repo.path repo) "group")) <> 0 ->
    update_repodata createrepo_c get_repomd_record_xml_path self
      (before ++ failing :: after) ran
    = (ran
       ++ map (fun r => createrepo_command (Repo.path r)
                          (get_repomd_record_xml_path (Repo.path r) "group"))
              before_repos
       ++ [createrepo_command (Repo.path repo)
             (get_repomd_record_xml_path (Repo.path repo) "group")],
       Raised (CreaterepoError (Repo.path repo)
                 (createrepo_c
                    (createrepo_command (Repo.path repo)
                       (get_repomd_record_xml_path (Repo.path repo)
                          "group"))))).
Proof.
  intros. now apply update_repodata_stops.
Qed.

(** The command fails in the stable repository, which the loop meets
    first: nothing is run for the beta repository after it. *)
Lemma regeneration_stops_in_the_stable_repository :
  update_repodata Scenario.failing_createrepo Scenario.no_group_file
    Scenario.cleaner ([] ++ 1 :: [2]) []
  = ([]
     ++ map (fun r => createrepo_command (Repo.path r)
                        (Scenario.no_group_file (Repo.path r) "group"))
            []
     ++ [createrepo_command (Repo.path Scenario.stable)
           (Scenario.no_group_file (Repo.path Scenario.stable) "group")],
     Raised (CreaterepoError (Repo.path Scenario.stable)
               (Scenario.failing_createrepo
                  (createrepo_command (Repo.path Scenario.stable)
                     (Scenario.no_group_file (Repo.path Scenario.stable)
                        "group"))))).
Proof.
  apply (regeneration_stops_at_the_first_failure Scenario.failing_createrepo
           Scenario.no_group_file Scenario.cleaner [] [] 1
           Scenario.stable [2] []).
  - constructor.
  - reflexivity.
  - vm_compute. discriminate.
Defined.

(* ================================================================== *)
(** * More on [__cleanup_version] and what it is called with *)
(* ================================================================== *)

Lemma find_repo_In repos repo_id repo :
  find_repo repos repo_id = Some repo ->
  In repo repos /\ Repo.repo_id repo = repo_id.
Proof.
  unfold find_repo. intros H. apply find_some in H.
  destruct H as [Hin Heq]. split; auto. now apply Z.eqb_eq.
Qed.

Lemma cleanup_version_group fs self packages reason :
  emits (cleanup_version fs self packages reason) (moved_with self packages)
        (fun _ => True).
Proof.
  intros ex.
  assert (Hq : match snd (cleanup_version fs self packages reason ex) with
               | Returned _ => True
               | Raised _ => True
               end) by now destruct (snd _).
  destruct (cleanup_version_moves fs self packages reason ex)
    as [E|(first & rest & repo & Hp & Hrepo & Hro & E)]; rewrite E.
  - exists []. rewrite app_nil_r. auto.
  - cbn [moved]. eexists. split; [reflexivity|]. split; [|exact Hq].
    apply Forall_forall. intros m Hin.
    apply attempted_incl, in_map_iff in Hin.
    destruct Hin as (p & <- & Hin).
    split; [exact Hin|]. exists first, repo.
    split; [rewrite Hp; now left|]. auto.
Qed.

Section Lifting.
Variable fs : filesystem.
Variable labelCompare : label -> label -> Z.
Variable splitFilename :
  option string -> option (string * string * string * string * string).
Variable iteration_order :
  list (version_key * list Pkg.t) -> list (version_key * list Pkg.t).
Variable self : DistroCleaner.

(** What holds of every removal [__cleanup_version] records holds of every
    removal [__cleanup_previous_versions] and [__cleanup_arch] record. *)
Variable P : removal -> Prop.
Hypothesis cleanup_version_records :
  forall packages reason,
    emits (cleanup_version fs self packages reason) P (fun _ => True).

Lemma expire_records expired : forall ord,
  emits (expire fs self expired ord) P (fun _ => True).
Proof.
  induction expired as [|v expired IH]; intros ord; simpl.
  - now apply emits_ret.
  - apply emits_bind with (Q := fun _ => True); [apply
      cleanup_version_records|].
    intros _ _.
    destruct (list_remove (list_eq_dec Pkg.eq_dec) v ord);
      [apply IH|apply emits_raise].
Qed.

Lemma cleanup_previous_versions_records srpm_name versions repos :
  emits (cleanup_previous_versions fs labelCompare self srpm_name versions
      repos)
        P (fun _ => True).
Proof.
  unfold cleanup_previous_versions.
  destruct (rearrange labelCompare srpm_name (stable_repo_ids_of repos)
              versions None []) as [[latest ord]|e]; [|apply emits_raise].
  apply emits_bind with (Q := fun _ => True); [apply expire_records|].
  intros ord' _.
  apply emits_bind with (Q := fun _ => True).
  - apply emits_for_each. intros; apply cleanup_version_records.
  - intros _ _. apply emits_for_each. intros; apply cleanup_version_records.
Qed.

Lemma cleanup_rows_records repos rows :
  emits (cleanup_rows fs labelCompare splitFilename iteration_order self repos
           rows) P (fun _ => True).
Proof.
  unfold cleanup_rows.
  apply emits_bind with (Q := fun _ => True); [|intros; now apply emits_ret].
  apply emits_for_fold; [|exact I].
  intros [ln vs] row _ _. unfold cleanup_arch_row.
  destruct (splitFilename (Pkg.sourcerpm row))
    as [[[[[srpm_name srpm_version] srpm_release] e] a]|].
  - apply emits_bind with (Q := fun _ => True).
    + destruct (name_differs ln srpm_name); [|now apply emits_ret].
      apply emits_bind with (Q := fun _ => True);
        [|intros; now apply emits_ret].
      destruct (1 <? Z.of_nat (List.length vs));
        [apply cleanup_previous_versions_records|now apply emits_ret].
    + intros; now apply emits_ret.
  - destruct (find_repo repos (Pkg.repo_id row));
      [now apply emits_ret|apply emits_raise].
Qed.

End Lifting.

(** X1: whatever the database, the settings and the order of iteration,
    every call of [shutil.move] that [__cleanup_arch] makes takes its file
    under the root of a repository of [self.__repos] that is not
    read-only, and has the backup directory named after that repository
    and its architecture as its destination. *)
Theorem files_are_moved_out_of_writable_repositories_only :
  forall fs labelCompare splitFilename iteration_order self db repos ex,
  exists new,
    moved (fst (cleanup_arch fs labelCompare splitFilename iteration_order self
                  db repos ex)) = moved ex ++ new /\
    Forall (fun m =>
              exists repo,
                In repo (repos_by_id self) /\
                Repo.readonly repo = false /\
                rm_path m = path_join (Repo.path repo)
                                      (Pkg.location (rm_package m)) /\
                rm_backup_dir m =
                  path_join (path_join (backup_dir self) (Repo.name repo))
                            (Repo.arch repo)) new.
Proof.
  intros fs labelCompare splitFilename iteration_order self db repos ex.
  unfold cleanup_arch.
  destruct (cleanup_rows_records fs labelCompare splitFilename iteration_order
              self
              (fun m =>
                 exists repo,
                   In repo (repos_by_id self) /\
                   Repo.readonly repo = false /\
                   rm_path m = path_join (Repo.path repo)
                                         (Pkg.location (rm_package m)) /\
                   rm_backup_dir m =
                     path_join (path_join (backup_dir self) (Repo.name repo))
                               (Repo.arch repo)))
    with (repos := repos) (rows := select_packages db repos) (ex := ex)
    as (new & E & F & _).
  - intros packages reason.
    eapply emits_weaken; [apply cleanup_version_group| |auto].
    intros m (_ & first & repo & _ & Hrepo & Hro & ->).
    exists repo. apply find_repo_In in Hrepo. destruct Hrepo as [Hin _].
    repeat split; auto.
  - exists new. auto.
Qed.

(* ================================================================== *)
(** * Which version groups [__cleanup_arch] hands over *)
(* ================================================================== *)

Lemma insert_asc_perm {A : Type} (lt : A -> A -> bool) x l :
  Permutation (insert_asc lt x l) (x :: l).
Proof.
  induction l as [|y l IH]; simpl; auto.
  destruct (lt y x); auto.
  eapply perm_trans; [apply perm_skip, IH|apply perm_swap].
Qed.

Lemma order_by_perm {A : Type} (lt : A -> A -> bool) l :
  Permutation (order_by lt l) l.
Proof.
  induction l as [|x l IH]; simpl; auto.
  eapply perm_trans; [apply insert_asc_perm|]. now apply perm_skip.
Qed.

Lemma select_packages_In db repos p :
  In p (select_packages db repos) <->
  In p (packages db) /\ mem (Pkg.repo_id p) (map Repo.repo_id repos) = true.
Proof.
  unfold select_packages. split; intros H.
  - apply (Permutation_in _ (order_by_perm _ _)) in H.
    now apply filter_In in H.
  - apply (Permutation_in _ (Permutation_sym (order_by_perm _ _))).
    now apply filter_In.
Qed.

Lemma other_key {K V : Type} (eqb : K -> K -> bool)
    (eqb_spec : forall a b, reflect (a = b) (eqb a b)) (d : list (K * V)) k g :
  NoDup (map fst d) -> (1 < List.length d)%nat -> In (k, g) d ->
  exists k' g', In (k', g') d /\ k' <> k.
Proof.
  destruct d as [|[k1 g1] [|[k2 g2] d]]; simpl; try lia.
  intros Hnd _ Hin. inversion Hnd as [|? ? Hk1 _]; subst.
  destruct (eqb_spec k1 k) as [->|Hne].
  - exists k2, g2. split; [right; now left|].
    intros ->. apply Hk1. now left.
  - exists k1, g1. split; [now left|exact Hne].
Qed.

Section Groups.
Variable fs : filesystem.
Variable labelCompare : label -> label -> Z.
Variable splitFilename :
  option string -> option (string * string * string * string * string).
Variable iteration_order :
  list (version_key * list Pkg.t) -> list (version_key * list Pkg.t).
Variable self : DistroCleaner.

Hypothesis iteration_is_permutation :
  forall d, Permutation (iteration_order d) d.

Lemma moved_with_main_first srpm_name v m :
  moved_with self (main_first srpm_name v) m -> moved_with self v m.
Proof.
  intros (Hp & first & repo & Hfirst & H).
  split; [now apply main_first_In in Hp|].
  exists first, repo. split; [now apply main_first_In in Hfirst|exact H].
Qed.

Lemma expire_groups expired : forall ord,
  emits (expire fs self expired ord)
        (fun m => exists v, In v expired /\ moved_with self v m)
        (fun ord' => incl ord' ord).
Proof.
  induction expired as [|v expired IH]; intros ord; simpl.
  - apply emits_ret. apply incl_refl.
  - apply emits_bind with (Q := fun _ => True).
    + eapply emits_weaken; [apply cleanup_version_group| |auto].
      intros m Hm. exists v. split; [now left|exact Hm].
    + intros _ _.
      destruct (list_remove (list_eq_dec Pkg.eq_dec) v ord) as [ord1|e] eqn:E.
      * eapply emits_weaken; [apply IH| |].
        -- intros m (w & Hw & Hm). exists w. split; [now right|exact Hm].
        -- intros ord' Hincl. eapply incl_tran; [exact Hincl|].
           eapply PyFacts.list_remove_incl; eauto.
      * apply emits_raise.
Qed.

(** Every removal [__cleanup_previous_versions] records is recorded for one
    of the versions it is given. *)
Lemma cleanup_previous_versions_groups srpm_name versions repos :
  emits (cleanup_previous_versions fs labelCompare self srpm_name versions
      repos)
        (fun m => exists v, In v versions /\ moved_with self v m)
        (fun _ => True).
Proof.
  unfold cleanup_previous_versions.
  destruct (rearrange labelCompare srpm_name (stable_repo_ids_of repos)
              versions None []) as [[latest ord]|e] eqn:E;
    [|apply emits_raise].
  apply rearrange_groups in E. simpl in E. subst ord.
  set (sorted := sort_reverse (compare_versions labelCompare)
                   (map (main_first srpm_name) versions)).
  assert (Hsorted : forall v m, In v sorted -> moved_with self v m ->
                      exists v0, In v0 versions /\ moved_with self v0 m).
  { intros v m Hv Hm. apply PyFacts.sort_reverse_In in Hv.
    apply in_map_iff in Hv. destruct Hv as (v0 & <- & Hv0).
    exists v0. split; auto. now apply moved_with_main_first in Hm. }
  apply emits_bind with (Q := fun ord' => incl ord' sorted).
  - eapply emits_weaken; [apply expire_groups| |auto].
    intros m (v & Hv & Hm). apply (Hsorted v); auto.
    unfold expired_beta_of in Hv. destruct latest; [|contradiction].
    now apply filter_In in Hv.
  - intros ord' Hord'.
    assert (Hgroup : forall v, In v ord' ->
              emits (cleanup_version fs self v RemovalReason.OUTDATED)
                    (fun m => exists v0, In v0 versions /\
                                         moved_with self v0 m)
                    (fun _ => True)).
    { intros v Hv. eapply emits_weaken; [apply cleanup_version_group| |auto].
      intros m Hm. apply (Hsorted v); auto. }
    apply emits_bind with (Q := fun _ => True).
    + apply emits_for_each. intros v Hv. apply Hgroup.
      apply PyFacts.slice_from_incl in Hv. now apply filter_In in Hv.
    + intros _ _. apply emits_for_each. intros v Hv. apply Hgroup.
      apply PyFacts.slice_from_incl in Hv. now apply filter_In in Hv.
Qed.

Variable R : Pkg.t -> Prop.

Local Abbreviation source_of := (srpm_name_of splitFilename).
Local Abbreviation filed_under := (version_key_of splitFilename).
Local Abbreviation well_kept := (well_filed splitFilename R).

Lemma well_filed_start n row key :
  R row -> source_of row = Some n -> filed_under row = Some key ->
  well_kept (Some n, [(key, [row])]).
Proof.
  intros HR Hn Hk. split; simpl.
  - constructor; [tauto|constructor].
  - intros k g [[= <- <-]|[]]. split; [discriminate|].
    intros p [<-|[]]. auto.
Qed.

Lemma add_version_well_filed n key row versions :
  R row -> source_of row = Some n -> filed_under row = Some key ->
  well_kept (Some n, versions) ->
  well_kept (Some n, add_version key row versions).
Proof.
  intros HR Hn Hk [Hnd Hin]. cbn [fst snd] in *. unfold add_version.
  destruct (dict_get version_key_eqb key versions) as [l|] eqn:E.
  - destruct (DictFacts.dict_set_present _ DictFacts.version_key_eqb_spec
                key (l ++ [row]) l versions E) as (d1 & d2 & -> & ->).
    split; cbn [fst snd].
    + rewrite map_app in *. exact Hnd.
    + intros k g Hg. apply in_app_or in Hg. destruct Hg as [Hg|[Hg|Hg]].
      * apply (Hin k g). apply in_or_app. now left.
      * injection Hg as <- <-. split.
        -- intros Habs. now apply app_eq_nil in Habs.
        -- intros p Hp. apply in_app_or in Hp.
           destruct Hp as [Hp|[<-|[]]]; auto.
           apply (Hin key l); auto. apply in_or_app. right. now left.
      * apply (Hin k g). apply in_or_app. right. now right.
  - rewrite (DictFacts.dict_set_absent _ DictFacts.version_key_eqb_spec
               key [row] versions E).
    split; cbn [fst snd].
    + rewrite map_app. simpl.
      apply (DictFacts.dict_get_None _ DictFacts.version_key_eqb_spec) in E.
      apply Permutation_NoDup with (l := key :: map fst versions).
      * apply Permutation_cons_append.
      * now constructor.
    + intros k g Hg. apply in_app_or in Hg. destruct Hg as [Hg|[Hg|[]]].
      * now apply (Hin k g).
      * injection Hg as <- <-. split; [discriminate|].
        intros p [<-|[]]. auto.
Qed.

Lemma well_filed_several n versions key group :
  well_kept (n, versions) -> (1 < List.length versions)%nat ->
  In (key, group) versions ->
  one_of_several_versions splitFilename R group.
Proof.
  intros [Hnd Hin] Hlen Hg. cbn [fst snd] in *.
  destruct (other_key _ DictFacts.version_key_eqb_spec versions key group
              Hnd Hlen Hg)
    as (k' & g' & Hg' & Hne).
  destruct (Hin key group Hg) as [Hnonempty Hrows].
  destruct (Hin k' g' Hg') as [Hnonempty' Hrows'].
  destruct g' as [|q g']; [contradiction|].
  destruct (Hrows' q (or_introl eq_refl)) as (HRq & Hnq & Hkq).
  destruct n as [n|].
  - exists n, key. split; [exact Hrows|].
    exists q. split; auto. split; auto. rewrite Hkq. congruence.
  - exfalso. unfold srpm_name_of, version_key_of in *.
    destruct (splitFilename (Pkg.sourcerpm q)) as [[[[[? ?] ?] ?] ?]|];
      discriminate.
Qed.

(** One row: what is moved is moved for a version group that is one of
    several of its source package, and [versions] stays well filed. *)
Lemma cleanup_arch_row_groups repos vars row :
  R row -> well_kept vars ->
  emits (cleanup_arch_row fs labelCompare splitFilename iteration_order self
      repos
           vars row)
        (fun m => exists group,
                    one_of_several_versions splitFilename R group /\
                    moved_with self group m)
        well_kept.
Proof.
  intros HR Hvars. destruct vars as [ln vs]. unfold cleanup_arch_row.
  destruct (splitFilename (Pkg.sourcerpm row))
    as [[[[[srpm_name srpm_version] srpm_release] e] a]|] eqn:Hsplit.
  - assert (Hn : source_of row = Some srpm_name)
      by (unfold srpm_name_of; now rewrite Hsplit).
    assert (Hk : filed_under row = Some (srpm_version, srpm_release))
      by (unfold version_key_of; now rewrite Hsplit).
    apply emits_bind with
      (Q := fun vars' => fst vars' = Some srpm_name /\ well_kept vars').
    + destruct (name_differs ln srpm_name) eqn:Hd.
      * apply emits_bind with (Q := fun _ => True).
        -- destruct (1 <? Z.of_nat (List.length vs)) eqn:Hlen.
           ++ eapply emits_weaken;
                [apply cleanup_previous_versions_groups| |auto].
              intros m (v & Hv & Hm).
              apply in_map_iff in Hv. destruct Hv as ([k v'] & <- & Hkv).
              apply (Permutation_in _ (iteration_is_permutation vs)) in Hkv.
              exists v'. split; [|exact Hm].
              apply (well_filed_several ln vs k); auto.
              apply Z.ltb_lt in Hlen. lia.
           ++ now apply emits_ret.
        -- intros _ _. apply emits_ret. split; [reflexivity|].
           split; simpl; [constructor|intros ? ? []].
      * apply emits_ret.
        destruct ln as [n|]; simpl in Hd; [|discriminate].
        apply negb_false_iff, String.eqb_eq in Hd. subst n. auto.
    + intros [ln' vs'] [Hln Hw]. simpl in Hln. subst ln'.
      apply emits_ret. cbn [fst snd].
      now apply add_version_well_filed.
  - destruct (find_repo repos (Pkg.repo_id row));
      [now apply emits_ret|apply emits_raise].
Qed.

Lemma cleanup_rows_groups repos rows :
  (forall row, In row rows -> R row) ->
  emits (cleanup_rows fs labelCompare splitFilename iteration_order self repos
           rows)
        (fun m => exists group,
                    one_of_several_versions splitFilename R group /\
                    moved_with self group m)
        (fun _ => True).
Proof.
  intros HR. unfold cleanup_rows.
  apply emits_bind with (Q := well_kept); [|intros; now apply emits_ret].
  apply emits_for_fold.
  - intros vars row Hrow Hvars. apply cleanup_arch_row_groups; auto.
  - split; simpl; [constructor|intros ? ? []].
Qed.

End Groups.

(** X2: when [itervalues] yields the versions gathered, in whatever order,
    every package [__cleanup_arch] moves is a row of the [packages] table
    in one of the repositories it is given, its [sourcerpm] column splits,
    and another row of these repositories was built from the same source
    name with another (version, release) in the source file name: a source
    package met in one version only, and a row without a source file name,
    are never touched. *)
Theorem only_sources_with_several_versions_are_cleaned :
  forall fs labelCompare splitFilename iteration_order self db repos ex,
  (forall d, Permutation (iteration_order d) d) ->
  exists new,
    moved (fst (cleanup_arch fs labelCompare splitFilename iteration_order self
                  db repos ex)) = moved ex ++ new /\
    Forall (fun m =>
              let p := rm_package m in
              In p (packages db) /\
              mem (Pkg.repo_id p) (map Repo.repo_id repos) = true /\
              exists srpm_name q,
                srpm_name_of splitFilename p = Some srpm_name /\
                In q (packages db) /\
                mem (Pkg.repo_id q) (map Repo.repo_id repos) = true /\
                srpm_name_of splitFilename q = Some srpm_name /\
                version_key_of splitFilename q <>
                version_key_of splitFilename p) new.
Proof.
  intros fs labelCompare splitFilename iteration_order self db repos ex Hperm.
  unfold cleanup_arch.
  destruct (cleanup_rows_groups fs labelCompare splitFilename iteration_order
              self Hperm (fun p => In p (select_packages db repos)) repos
              (select_packages db repos) (fun _ H => H) ex)
    as (new & E & F & _).
  exists new. split; [exact E|].
  eapply Forall_impl; [|exact F]. cbn beta.
  intros m (group & (n & key & Hrows & q & Hq & Hnq & Hkq) & Hp & _).
  destruct (Hrows _ Hp) as (Hin & Hn & Hk).
  apply select_packages_In in Hin. destruct Hin as [Hin Hmem].
  apply select_packages_In in Hq. destruct Hq as [Hq Hqmem].
  split; auto. split; auto.
  exists n, q. repeat split; auto. congruence.
Qed.

(** The same in the small distribution: foo 9 and foo 8 of the beta
    repository are moved, and foo 10 is the other version. *)
Lemma only_sources_with_several_versions_in_the_scenario :
  exists new,
    moved (fst (cleanup_arch Scenario.files_in_place Rpm.labelCompare
        Rpm.splitFilename
                  insertion_order Scenario.cleaner Scenario.db_followed
                  Scenario.repos Scenario.start))
      = moved Scenario.start ++ new /\
    Forall (fun m =>
              let p := rm_package m in
              In p (packages Scenario.db_followed) /\
              mem (Pkg.repo_id p) (map Repo.repo_id Scenario.repos) = true /\
              exists srpm_name q,
                srpm_name_of Rpm.splitFilename p = Some srpm_name /\
                In q (packages Scenario.db_followed) /\
                mem (Pkg.repo_id q) (map Repo.repo_id Scenario.repos) = true /\
                srpm_name_of Rpm.splitFilename q = Some srpm_name /\
                version_key_of Rpm.splitFilename q <>
                version_key_of Rpm.splitFilename p) new.
Proof.
  apply (only_sources_with_several_versions_are_cleaned Scenario.files_in_place
      Rpm.labelCompare
           Rpm.splitFilename insertion_order Scenario.cleaner
           Scenario.db_followed Scenario.repos Scenario.start).
  intros d. apply Permutation_refl.
Defined.

(* ================================================================== *)
(** * What [self.__stats] counts *)
(* ================================================================== *)

Section Preserves.

Lemma preserves_ret {A : Type} (a : A) I (Q : A -> Prop) :
  Q a -> preserves (ret a) I Q.
Proof. intros Ha ex Hex. simpl. auto. Qed.

Lemma preserves_raise {A : Type} e I (Q : A -> Prop) :
  preserves (raise e) I Q.
Proof. intros ex Hex. simpl. auto. Qed.

Lemma preserves_bind {A B : Type} (m : M executor A) (k : A -> M executor B)
    I (Q : A -> Prop) (R : B -> Prop) :
  preserves m I Q -> (forall a, Q a -> preserves (k a) I R) ->
  preserves (bind m k) I R.
Proof.
  intros Hm Hk ex Hex. unfold bind.
  destruct (Hm ex Hex) as [H1 Q1].
  destruct (m ex) as [ex1 [a|e]]; cbn [fst snd] in *.
  - apply (Hk a Q1 ex1 H1).
  - auto.
Qed.

Lemma preserves_for_each {A : Type} (f : A -> M executor unit) l I :
  (forall x, In x l -> preserves (f x) I (fun _ => True)) ->
  preserves (for_each f l) I (fun _ => True).
Proof.
  induction l as [|x l IH]; intros H; simpl.
  - now apply preserves_ret.
  - apply preserves_bind with (Q := fun _ => True).
    + apply H. now left.
    + intros _ _. apply IH. intros y Hy. apply H. now right.
Qed.

Lemma preserves_for_fold {A B : Type} (f : B -> A -> M executor B) I
    (J : B -> Prop) l :
  (forall b x, In x l -> J b -> preserves (f b x) I J) ->
  forall b, J b -> preserves (for_fold f l b) I J.
Proof.
  induction l as [|x l IH]; intros H b Hb; simpl.
  - now apply preserves_ret.
  - apply preserves_bind with (Q := J).
    + apply H; auto. now left.
    + intros b' Hb'. apply IH; auto. intros b2 y Hy. apply H. now right.
Qed.

End Preserves.

Section Invariants.
Variable fs : filesystem.
Variable labelCompare : label -> label -> Z.
Variable splitFilename :
  option string -> option (string * string * string * string * string).
Variable iteration_order :
  list (version_key * list Pkg.t) -> list (version_key * list Pkg.t).
Variable self : DistroCleaner.

(** What every call of [__cleanup_version] keeps, [__cleanup_previous_versions]
    and [__cleanup_arch] keep. *)
Variable I : executor -> Prop.
Hypothesis cleanup_version_keeps :
  forall packages reason,
    preserves (cleanup_version fs self packages reason) I (fun _ => True).

Lemma expire_keeps expired : forall ord,
  preserves (expire fs self expired ord) I (fun _ => True).
Proof.
  induction expired as [|v expired IH]; intros ord; simpl.
  - now apply preserves_ret.
  - apply preserves_bind with (Q := fun _ => True);
      [apply cleanup_version_keeps|].
    intros _ _.
    destruct (list_remove (list_eq_dec Pkg.eq_dec) v ord);
      [apply IH|apply preserves_raise].
Qed.

Lemma cleanup_previous_versions_keeps srpm_name versions repos :
  preserves (cleanup_previous_versions fs labelCompare self srpm_name versions
               repos) I (fun _ => True).
Proof.
  unfold cleanup_previous_versions.
  destruct (rearrange labelCompare srpm_name (stable_repo_ids_of repos)
              versions None []) as [[latest ord]|e]; [|apply preserves_raise].
  apply preserves_bind with (Q := fun _ => True); [apply expire_keeps|].
  intros ord' _.
  apply preserves_bind with (Q := fun _ => True).
  - apply preserves_for_each. intros; apply cleanup_version_keeps.
  - intros _ _. apply preserves_for_each. intros; apply cleanup_version_keeps.
Qed.

Lemma cleanup_rows_keeps repos rows :
  preserves (cleanup_rows fs labelCompare splitFilename iteration_order self
      repos
               rows) I (fun _ => True).
Proof.
  unfold cleanup_rows.
  apply preserves_bind with (Q := fun _ => True);
    [|intros; now apply preserves_ret].
  apply preserves_for_fold; [|exact Logic.I].
  intros [ln vs] row _ _. unfold cleanup_arch_row.
  destruct (splitFilename (Pkg.sourcerpm row))
    as [[[[[srpm_name srpm_version] srpm_release] e] a]|].
  - apply preserves_bind with (Q := fun _ => True).
    + destruct (name_differs ln srpm_name); [|now apply preserves_ret].
      apply preserves_bind with (Q := fun _ => True);
        [|intros; now apply preserves_ret].
      destruct (1 <? Z.of_nat (List.length vs));
        [apply cleanup_previous_versions_keeps|now apply preserves_ret].
    + intros; now apply preserves_ret.
  - destruct (find_repo repos (Pkg.repo_id row));
      [now apply preserves_ret|apply preserves_raise].
Qed.

End Invariants.

(** ** The exact effect of [__cleanup_version] *)

Lemma dict_set_keys k k0 (v : Z) d :
  In k (map fst (dict_set Z.eqb k0 v d)) <-> k = k0 \/ In k (map fst d).
Proof.
  induction d as [|[k' w] d IH]; simpl.
  - intuition.
  - destruct (Z.eqb_spec k0 k') as [->|Hne]; simpl.
    + intuition.
    + rewrite IH. intuition.
Qed.

Lemma count_total_set k v d :
  count_total (dict_set Z.eqb k v d) =
  count_total d - match dict_get Z.eqb k d with
                  | Some n => n
                  | None => 0
                  end + v.
Proof.
  induction d as [|[k' w] d IH]; simpl.
  - lia.
  - destruct (Z.eqb_spec k k') as [->|Hne]; simpl.
    + lia.
    + rewrite IH. lia.
Qed.

Lemma files_moved_from_app fs a : forall history b,
  files_moved_from fs history (a ++ b) =
  (files_moved_from fs history a ++ files_moved_from fs (history ++ a) b)%list.
Proof.
  induction a as [|m a IH]; intros history b; cbn [app files_moved_from].
  - now rewrite app_nil_r.
  - rewrite IH, <- !app_assoc. reflexivity.
Qed.

(** Of the calls the loop makes, those before the refused one moved a
    file. *)
Lemma files_moved_attempted fs calls : forall history,
  List.length (files_moved_from fs history (attempted fs history calls))
  = carried_out fs history calls.
Proof.
  induction calls as [|m calls IH]; intros history;
    cbn [attempted carried_out]; [reflexivity|].
  destruct (shutil_move fs history m) eqn:E; cbn [files_moved_from];
    rewrite E; cbn [app List.length]; [now rewrite IH|reflexivity].
Qed.

Lemma attempted_first fs history m calls :
  In m (attempted fs history (m :: calls)).
Proof. cbn [attempted]. destruct (shutil_move fs history m); now left. Qed.

Section Exact.
Variable fs : filesystem.
Variable self : DistroCleaner.

Lemma cleanup_version_keeps_total packages reason :
  preserves (cleanup_version fs self packages reason)
            (fun ex => count_total (stats ex)
                       = Z.of_nat (List.length (files_moved fs (moved ex))))
            (fun _ => True).
Proof.
  intros ex Hex.
  assert (Hq : match snd (cleanup_version fs self packages reason ex) with
               | Returned _ => True
               | Raised _ => True
               end) by now destruct (snd _).
  split; [|exact Hq].
  destruct (cleanup_version_moves fs self packages reason ex)
    as [E|(first & rest & repo & _ & _ & _ & E)]; rewrite E; [exact Hex|].
  cbn [stats moved]. unfold files_moved in *.
  rewrite files_moved_from_app, length_app, files_moved_attempted.
  rewrite count_total_set. unfold count_of. cbn [app].
  rewrite Nat2Z.inj_add. lia.
Qed.

Lemma cleanup_version_keeps_counted packages reason :
  preserves (cleanup_version fs self packages reason)
            (counted_repositories_lost_a_file self) (fun _ => True).
Proof.
  intros ex Hex.
  assert (Hq : match snd (cleanup_version fs self packages reason ex) with
               | Returned _ => True
               | Raised _ => True
               end) by now destruct (snd _).
  split; [|exact Hq].
  destruct (cleanup_version_moves fs self packages reason ex)
    as [E|(first & rest & repo & -> & Hrepo & Hro & E)]; rewrite E;
    [exact Hex|].
  intros k Hk. cbn [stats moved] in *.
  apply dict_set_keys in Hk. destruct Hk as [->|Hk].
  - exists repo, (removal_for self repo reason first).
    split; auto. split; auto. split; [|reflexivity].
    apply in_or_app. right. apply attempted_first.
  - destruct (Hex k Hk) as (repo' & m & H1 & H2 & H3 & H4).
    exists repo', m. split; auto. split; auto. split; auto.
    apply in_or_app. now left.
Qed.

End Exact.


(* ================================================================== *)
(** * Where [__update_repodata] runs [createrepo_c] *)
(* ================================================================== *)

Section RegenerationOfKnown.
Variable createrepo_c : list string -> Z.
Variable get_repomd_record_xml_path : string -> string -> option string.
Variable self : DistroCleaner.

Local Abbreviation command_of repo :=
  (createrepo_command (Repo.path repo)
     (get_repomd_record_xml_path (Repo.path repo) "group")).

(** Over ids that [self.__repos] knows, the only exception is that of
    [create_repo], and every command is that of a repository of an id. *)
Lemma update_repodata_known (P : Repo.t -> Prop) repo_ids : forall ran,
  (forall repo_id, In repo_id repo_ids ->
     exists repo, find_repo (repos_by_id self) repo_id = Some repo /\ P repo) ->
  exists cmds,
    fst (update_repodata createrepo_c get_repomd_record_xml_path self repo_ids
           ran) = ran ++ cmds /\
    Forall (fun cmd => exists repo,
                         In repo (repos_by_id self) /\ P repo /\
                         cmd = command_of repo) cmds /\
    (snd (update_repodata createrepo_c get_repomd_record_xml_path self
            repo_ids ran) = Returned tt \/
     exists path returncode,
       snd (update_repodata createrepo_c get_repomd_record_xml_path self
              repo_ids ran) = Raised (CreaterepoError path returncode)).
Proof.
  unfold update_repodata.
  induction repo_ids as [|repo_id repo_ids IH]; intros ran Hknown.
  - exists []. simpl. rewrite app_nil_r. auto.
  - destruct (Hknown repo_id (or_introl eq_refl)) as (repo & Hrepo & HP).
    match goal with
    | |- context [for_each ?f (repo_id :: repo_ids) ran] =>
        assert (Estep : for_each f (repo_id :: repo_ids) ran =
                        if createrepo_c (command_of repo) =? 0
                        then for_each f repo_ids (ran ++ [command_of repo])
                        else (ran ++ [command_of repo],
                              Raised (CreaterepoError (Repo.path repo)
                                        (createrepo_c (command_of repo)))))
    end.
    { cbn [for_each]. unfold bind. rewrite Hrepo. unfold create_repo.
      now destruct (createrepo_c (command_of repo) =? 0). }
    rewrite Estep. clear Estep.
    assert (Hcmd : exists r, In r (repos_by_id self) /\ P r /\
                             command_of repo = command_of r).
    { exists repo. apply find_repo_In in Hrepo. destruct Hrepo. auto. }
    destruct (createrepo_c (command_of repo) =? 0).
    + destruct (IH (ran ++ [command_of repo])) as (cmds & E & F & O).
      { intros k Hk. apply Hknown. now right. }
      exists (command_of repo :: cmds).
      rewrite E, <- app_assoc. split; [reflexivity|]. split; [|exact O].
      constructor; [exact Hcmd|exact F].
    + exists [command_of repo]. cbn [fst snd]. split; [reflexivity|]. split.
      * constructor; [exact Hcmd|constructor].
      * right. eauto.
Qed.

(** When the command succeeds in every repository, it is run once in
    each, in the order of the ids. *)
Lemma update_repodata_succeeds repo_ids : forall repos ran,
  Forall2 (fun repo_id r =>
             find_repo (repos_by_id self) repo_id = Some r /\
             createrepo_c (command_of r) = 0) repo_ids repos ->
  update_repodata createrepo_c get_repomd_record_xml_path self repo_ids ran
  = (ran ++ map (fun r => command_of r) repos, Returned tt).
Proof.
  unfold update_repodata.
  induction repo_ids as [|repo_id repo_ids IH]; intros repos ran H.
  - inversion H; subst. simpl. now rewrite app_nil_r.
  - inversion H as [|? r ? rs [Hr Hok] Hrest]; subst.
    cbn [for_each map]. unfold bind at 1. rewrite Hr.
    unfold create_repo at 1. rewrite Hok. cbn [Z.eqb].
    rewrite (IH rs _ Hrest). now rewrite <- app_assoc.
Qed.

End RegenerationOfKnown.

(** X4: when every count of [self.__stats] stands for a call of
    [shutil.move] on a file of a known repository that is not read-only,
    it does so after [__cleanup_arch], and [__update_repodata] over keys
    of [self.__stats], in whatever order, then runs [createrepo_c] only in
    repositories that are not read-only and for a file of which
    [shutil.move] was called; it never fails on an unknown repository id,
    only when the command does. *)
Theorem createrepo_runs_where_a_file_was_moved :
  forall fs labelCompare splitFilename iteration_order createrepo_c
         get_repomd_record_xml_path self db repos ex repo_ids ran,
  counted_repositories_lost_a_file self ex ->
  incl repo_ids
       (map fst (stats (fst (cleanup_arch fs labelCompare splitFilename
                               iteration_order self db repos ex)))) ->
  exists cmds,
    fst (update_repodata createrepo_c get_repomd_record_xml_path self repo_ids
           ran) = ran ++ cmds /\
    Forall (fun cmd =>
              exists repo m,
                In repo (repos_by_id self) /\
                Repo.readonly repo = false /\
                In m (moved (fst (cleanup_arch fs labelCompare splitFilename
                                    iteration_order self db repos ex))) /\
                rm_path m = path_join (Repo.path repo)
                              (Pkg.location (rm_package m)) /\
                cmd = createrepo_command (Repo.path repo)
                        (get_repomd_record_xml_path (Repo.path repo) "group"))
           cmds /\
    (snd (update_repodata createrepo_c get_repomd_record_xml_path self
            repo_ids ran) = Returned tt \/
     exists path returncode,
       snd (update_repodata createrepo_c get_repomd_record_xml_path self
              repo_ids ran) = Raised (CreaterepoError path returncode)).
Proof.
  intros fs labelCompare splitFilename iteration_order createrepo_c
         get_repomd_record_xml_path self db repos ex repo_ids ran Hex Hids.
  pose proof (cleanup_rows_keeps fs labelCompare splitFilename iteration_order
                self _ (cleanup_version_keeps_counted fs self) repos
                (select_packages db repos) ex Hex) as [Hafter _].
  fold (cleanup_arch fs labelCompare splitFilename iteration_order self db repos
          ex) in Hafter.
  destruct (update_repodata_known createrepo_c get_repomd_record_xml_path self
              (fun repo =>
                 Repo.readonly repo = false /\
                 exists m,
                   In m (moved (fst (cleanup_arch fs labelCompare splitFilename
                                       iteration_order self db repos ex))) /\
                   rm_path m = path_join (Repo.path repo)
                                 (Pkg.location (rm_package m)))
              repo_ids ran) as (cmds & E & F & O).
  - intros k Hk. apply Hids in Hk.
    destruct (Hafter k Hk) as (repo & m & Hrepo & Hro & Hm & Em).
    exists repo. split; auto. split; auto. exists m. split; auto.
    now rewrite Em.
  - exists cmds. split; [exact E|]. split; [|exact O].
    eapply Forall_impl; [|exact F]. cbn beta.
    intros cmd (repo & Hin & (Hro & m & Hm & Hpath) & Hcmd).
    exists repo, m. auto.
Qed.

(** In the small distribution [shutil.move] is called for files of the
    beta repository only, and the command is run there. *)
Lemma createrepo_runs_in_the_beta_repository :
  exists cmds,
    fst (update_repodata Scenario.failing_createrepo Scenario.no_group_file
           Scenario.cleaner [2] []) = [] ++ cmds /\
    Forall (fun cmd =>
              exists repo m,
                In repo (repos_by_id Scenario.cleaner) /\
                Repo.readonly repo = false /\
                In m (moved (fst (cleanup_arch Scenario.files_in_place
                    Rpm.labelCompare
                                    Rpm.splitFilename insertion_order
                                    Scenario.cleaner Scenario.db_followed
                                    Scenario.repos Scenario.start))) /\
                rm_path m = path_join (Repo.path repo)
                              (Pkg.location (rm_package m)) /\
                cmd = createrepo_command (Repo.path repo)
                        (Scenario.no_group_file (Repo.path repo) "group"))
           cmds /\
    (snd (update_repodata Scenario.failing_createrepo Scenario.no_group_file
            Scenario.cleaner [2] []) = Returned tt \/
     exists path returncode,
       snd (update_repodata Scenario.failing_createrepo Scenario.no_group_file
              Scenario.cleaner [2] [])
       = Raised (CreaterepoError path returncode)).
Proof.
  apply (createrepo_runs_where_a_file_was_moved Scenario.files_in_place
      Rpm.labelCompare
           Rpm.splitFilename insertion_order Scenario.failing_createrepo
           Scenario.no_group_file Scenario.cleaner Scenario.db_followed
           Scenario.repos Scenario.start [2] []).
  - intros repo_id [].
  - intros repo_id [<-|[]]. vm_compute. now left.
Defined.

(** X5: when [createrepo_c] returns 0 in the repository of every id,
    [__update_repodata] runs it once in each of them, in the order of the
    ids, and returns. *)
Theorem regeneration_visits_every_repository_in_turn :
  forall createrepo_c get_repomd_record_xml_path self repo_ids repos ran,
  Forall2 (fun repo_id r =>
             find_repo (repos_by_id self) repo_id = Some r /\
             createrepo_c
               (createrepo_command (Repo.path r)
                  (get_repomd_record_xml_path (Repo.path r) "group")) = 0)
          repo_ids repos ->
  update_repodata createrepo_c get_repomd_record_xml_path self repo_ids ran
  = (ran
     ++ map (fun r => createrepo_command (Repo.path r)
                        (get_repomd_record_xml_path (Repo.path r) "group"))
            repos,
     Returned tt).
Proof.
  intros. now apply update_repodata_succeeds.
Qed.

(** The beta repository first, then the stable one. *)
Lemma regeneration_visits_beta_then_stable :
  update_repodata Distro.createrepo_succeeds Scenario.no_group_file
    Scenario.cleaner [2; 1] []
  = ([]
     ++ map (fun r => createrepo_command (Repo.path r)
                        (Scenario.no_group_file (Repo.path r) "group"))
            [Scenario.beta; Scenario.stable],
     Returned tt).
Proof.
  apply (regeneration_visits_every_repository_in_turn
           Distro.createrepo_succeeds Scenario.no_group_file Scenario.cleaner
           [2; 1] [Scenario.beta; Scenario.stable] []).
  repeat constructor.
Defined.

(* ================================================================== *)
(** * When [__cleanup_arch] cannot raise *)
(* ================================================================== *)

Section RaisesOnly.
Variable E : exn -> Prop.

Lemma raises_only_ret {A : Type} (a : A) (Q : A -> Prop) :
  Q a -> raises_only E (ret a) Q.
Proof. intros Ha ex. exact Ha. Qed.

Lemma raises_only_bind {A B : Type} (m : M executor A)
    (k : A -> M executor B) (Q : A -> Prop) (R : B -> Prop) :
  raises_only E m Q -> (forall a, Q a -> raises_only E (k a) R) ->
  raises_only E (bind m k) R.
Proof.
  intros Hm Hk ex. unfold bind. specialize (Hm ex).
  destruct (m ex) as [ex1 [a|e]]; cbn [snd] in *.
  - apply (Hk a Hm ex1).
  - exact Hm.
Qed.

Lemma raises_only_for_each {A : Type} (f : A -> M executor unit) l :
  (forall x, In x l -> raises_only E (f x) (fun _ => True)) ->
  raises_only E (for_each f l) (fun _ => True).
Proof.
  induction l as [|x l IH]; intros H; simpl.
  - now apply raises_only_ret.
  - apply raises_only_bind with (Q := fun _ => True).
    + apply H. now left.
    + intros _ _. apply IH. intros y Hy. apply H. now right.
Qed.

Lemma raises_only_for_fold {A B : Type} (f : B -> A -> M executor B)
    (J : B -> Prop) l :
  (forall b x, In x l -> J b -> raises_only E (f b x) J) ->
  forall b, J b -> raises_only E (for_fold f l b) J.
Proof.
  induction l as [|x l IH]; intros H b Hb; simpl.
  - now apply raises_only_ret.
  - apply raises_only_bind with (Q := J).
    + apply H; auto. now left.
    + intros b' Hb'. apply IH; auto. intros b2 y Hy. apply H. now right.
Qed.

Lemma raises_only_ext {A : Type} (m m' : M executor A) (Q : A -> Prop) :
  (forall ex, m ex = m' ex) -> raises_only E m Q -> raises_only E m' Q.
Proof. intros Eq Hm ex. rewrite <- Eq. apply Hm. Qed.

End RaisesOnly.

(** When a call of the loop is not carried out, the file system refused
    one. *)
Lemma carried_out_short fs calls : forall history,
  carried_out fs history calls <> List.length calls ->
  exists before m, shutil_move fs before m = false.
Proof.
  induction calls as [|m calls IH]; intros history;
    cbn [carried_out List.length]; [congruence|].
  destruct (shutil_move fs history m) eqn:Em; [|eauto].
  intros H. apply (IH (history ++ [m])%list). congruence.
Qed.

Lemma mem_find_repo repos repo_id :
  mem repo_id (map Repo.repo_id repos) = true ->
  exists repo, find_repo repos repo_id = Some repo.
Proof.
  unfold mem, find_repo. intros H.
  apply existsb_exists in H. destruct H as (k & Hk & Heq).
  apply in_map_iff in Hk. destruct Hk as (repo & <- & Hin).
  destruct (find (fun r => Repo.repo_id r =? repo_id) repos) as [r|] eqn:E.
  - now exists r.
  - exfalso. apply (find_none _ _ E) in Hin.
    apply Z.eqb_eq in Heq. rewrite <- Heq, Z.eqb_refl in Hin. discriminate.
Qed.

Lemma removal_plan_incl labelCompare self ids latest ord v reason :
  In (v, reason) (removal_plan labelCompare self ids latest ord) -> In v ord.
Proof.
  unfold removal_plan. intros H.
  apply in_app_or in H. destruct H as [H|H].
  - apply in_map_iff in H. destruct H as (w & [= <- _] & Hw).
    unfold expired_beta_of in Hw. destruct latest; [|contradiction].
    now apply filter_In in Hw.
  - apply in_app_or in H. destruct H as [H|H];
      apply in_map_iff in H; destruct H as (w & [= <- _] & Hw);
      apply PyFacts.slice_from_incl in Hw; apply filter_In in Hw;
      destruct Hw as [Hw _]; destruct latest; auto;
      now apply filter_In in Hw.
Qed.

Section NeverRaises.
Variable fs : filesystem.
Variable labelCompare : label -> label -> Z.
Variable splitFilename :
  option string -> option (string * string * string * string * string).
Variable iteration_order :
  list (version_key * list Pkg.t) -> list (version_key * list Pkg.t).
Variable self : DistroCleaner.

Hypothesis iteration_is_permutation :
  forall d, Permutation (iteration_order d) d.

(** The exceptions allowed: that of the file system, when it can refuse a
    call. *)
Variable E : exn -> Prop.
Hypothesis refused_makedirs :
  forall before dir, makedirs fs before dir = false -> E EnvironmentError.
Hypothesis refused_move :
  forall before m, shutil_move fs before m = false -> E EnvironmentError.

(** The repository of the row is one [self.__repos] knows. *)
Local Abbreviation known p :=
  (exists repo, find_repo (repos_by_id self) (Pkg.repo_id p) = Some repo).

Lemma cleanup_version_raises_only first rest reason :
  known first ->
  raises_only E (cleanup_version fs self (first :: rest) reason)
              (fun _ => True).
Proof.
  intros (repo & Hrepo) ex.
  destruct (Repo.readonly repo) eqn:Hro.
  - unfold cleanup_version. now rewrite Hrepo, Hro.
  - rewrite (cleanup_version_effect fs self first rest reason repo ex Hrepo
               Hro).
    destruct (makedirs fs (moved ex) _) eqn:Hdir; cbn [snd].
    + destruct (Nat.eqb_spec
                  (carried_out fs (moved ex)
                     (map (removal_for self repo reason) (first :: rest)))
                  (List.length (first :: rest))) as [_|Hshort]; [exact I|].
      rewrite <- (length_map (removal_for self repo reason)) in Hshort.
      destruct (carried_out_short fs _ _ Hshort) as (before & m & Hm).
      exact (refused_move before m Hm).
    + exact (refused_makedirs _ _ Hdir).
Qed.

Lemma cleanup_previous_versions_raises_only srpm_name versions repos :
  (forall v, In v versions -> v <> [] /\ forall p, In p v -> known p) ->
  raises_only E (cleanup_previous_versions fs labelCompare self srpm_name
                   versions repos) (fun _ => True).
Proof.
  intros Hversions.
  assert (Hne : Forall (fun v : list Pkg.t => v <> []) versions).
  { apply Forall_forall. intros v Hv. now apply Hversions. }
  destruct (rearrange_returns labelCompare srpm_name
              (stable_repo_ids_of repos) versions None [] Hne)
    as (latest & Er).
  eapply raises_only_ext.
  { intros ex. symmetry.
    apply (cleanup_previous_versions_plan fs labelCompare self srpm_name
        versions
             repos latest _ Er). }
  unfold run_plan. apply raises_only_for_each.
  intros [v reason] Hv. cbn [fst snd].
  apply removal_plan_incl, PyFacts.sort_reverse_In in Hv.
  cbn [app] in Hv. apply in_map_iff in Hv. destruct Hv as (v0 & <- & Hv0).
  destruct (Hversions v0 Hv0) as [Hnonempty Hknown].
  destruct (main_first srpm_name v0) as [|first rest] eqn:Ev.
  { apply PyFacts.sort_reverse_nil in Ev. contradiction. }
  apply cleanup_version_raises_only. apply Hknown.
  apply (main_first_In srpm_name). rewrite Ev. now left.
Qed.

Variable repos : list Repo.t.

Local Abbreviation selected p :=
  (mem (Pkg.repo_id p) (map Repo.repo_id repos) = true /\ known p).

Lemma cleanup_arch_row_raises_only vars row :
  selected row ->
  well_filed splitFilename (fun p => selected p) vars ->
  raises_only E (cleanup_arch_row fs labelCompare splitFilename iteration_order
      self
             repos vars row)
          (well_filed splitFilename (fun p => selected p)).
Proof.
  intros HR Hvars. destruct vars as [ln vs]. unfold cleanup_arch_row.
  destruct (splitFilename (Pkg.sourcerpm row))
    as [[[[[srpm_name srpm_version] srpm_release] e] a]|] eqn:Hsplit.
  - assert (Hn : srpm_name_of splitFilename row = Some srpm_name)
      by (unfold srpm_name_of; now rewrite Hsplit).
    assert (Hk : version_key_of splitFilename row
                 = Some (srpm_version, srpm_release))
      by (unfold version_key_of; now rewrite Hsplit).
    apply raises_only_bind with
      (Q := fun vars' => fst vars' = Some srpm_name /\
                         well_filed splitFilename (fun p => selected p) vars').
    + destruct (name_differs ln srpm_name) eqn:Hd.
      * apply raises_only_bind with (Q := fun _ => True).
        -- destruct (1 <? Z.of_nat (List.length vs)).
           ++ apply cleanup_previous_versions_raises_only.
              intros v Hv.
              apply in_map_iff in Hv. destruct Hv as ([k v'] & <- & Hkv).
              apply (Permutation_in _ (iteration_is_permutation vs)) in Hkv.
              destruct Hvars as [_ Hin]. cbn [fst snd] in *.
              destruct (Hin k v' Hkv) as [Hnonempty Hrows].
              split; auto. intros p Hp. now apply Hrows.
           ++ now apply raises_only_ret.
        -- intros _ _. apply raises_only_ret. split; [reflexivity|].
           split; simpl; [constructor|intros ? ? []].
      * apply raises_only_ret.
        destruct ln as [n|]; simpl in Hd; [|discriminate].
        apply negb_false_iff, String.eqb_eq in Hd. subst n. auto.
    + intros [ln' vs'] [Hln Hw]. simpl in Hln. subst ln'.
      apply raises_only_ret. cbn [fst snd].
      now apply add_version_well_filed.
  - destruct HR as [Hmem _].
    destruct (mem_find_repo repos _ Hmem) as (repo & ->).
    now apply raises_only_ret.
Qed.

Lemma cleanup_rows_raises_only rows :
  (forall row, In row rows -> selected row) ->
  raises_only E (cleanup_rows fs labelCompare splitFilename iteration_order self
      repos
             rows) (fun _ => True).
Proof.
  intros HR. unfold cleanup_rows.
  apply raises_only_bind with
    (Q := well_filed splitFilename (fun p => selected p));
    [|intros; now apply raises_only_ret].
  apply raises_only_for_fold.
  - intros vars row Hrow Hvars. apply cleanup_arch_row_raises_only; auto.
  - split; simpl; [constructor|intros ? ? []].
Qed.

End NeverRaises.

(** X6: when [itervalues] yields the versions gathered, in whatever order,
    and [self.__repos] knows the repository of every row of the [packages]
    table that belongs to one of the repositories given, [__cleanup_arch]
    raises no [IndexError], [KeyError] or [ValueError]: no index, key or
    value is ever missing.  It returns, or raises the error of the file
    system at a directory it could not make or a file it could not move;
    on a file system that refuses nothing it returns. *)
Theorem cleanup_arch_raises_for_the_file_system_only :
  forall fs labelCompare splitFilename iteration_order self db repos ex,
  (forall d, Permutation (iteration_order d) d) ->
  (forall p, In p (packages db) ->
             mem (Pkg.repo_id p) (map Repo.repo_id repos) = true ->
             exists repo,
               find_repo (repos_by_id self) (Pkg.repo_id p) = Some repo) ->
  (snd (cleanup_arch fs labelCompare splitFilename iteration_order self db
          repos ex) = Returned tt \/
   snd (cleanup_arch fs labelCompare splitFilename iteration_order self db
          repos ex) = Raised EnvironmentError) /\
  ((forall before dir, makedirs fs before dir = true) ->
   (forall before m, shutil_move fs before m = true) ->
   snd (cleanup_arch fs labelCompare splitFilename iteration_order self db
          repos ex) = Returned tt).
Proof.
  intros fs labelCompare splitFilename iteration_order self db repos ex Hperm
         Hknown.
  assert (Hrows : forall row, In row (select_packages db repos) ->
            mem (Pkg.repo_id row) (map Repo.repo_id repos) = true /\
            exists repo,
              find_repo (repos_by_id self) (Pkg.repo_id row) = Some repo).
  { intros row Hrow. apply select_packages_In in Hrow.
    destruct Hrow as [Hin Hmem]. split; auto. }
  split.
  - pose proof (cleanup_rows_raises_only fs labelCompare splitFilename
                  iteration_order self Hperm
                  (fun e => e = EnvironmentError)
                  (fun _ _ _ => eq_refl) (fun _ _ _ => eq_refl)
                  repos (select_packages db repos) Hrows ex) as H.
    unfold cleanup_arch.
    destruct (snd (cleanup_rows _ _ _ _ _ _ _ _)) as [[]|e];
      [now left|right; now rewrite H].
  - intros Hdirs Hmoves.
    pose proof (cleanup_rows_raises_only fs labelCompare splitFilename
                  iteration_order self Hperm (fun _ => False)) as H.
    specialize (H (fun before dir Hno =>
                     eq_ind true (fun b => if b then True else False) I false
                       (eq_trans (eq_sym (Hdirs before dir)) Hno))
                  (fun before m Hno =>
                     eq_ind true (fun b => if b then True else False) I false
                       (eq_trans (eq_sym (Hmoves before m)) Hno))
                  repos (select_packages db repos) Hrows ex).
    unfold cleanup_arch.
    destruct (snd (cleanup_rows _ _ _ _ _ _ _ _)) as [[]|e];
      [reflexivity|contradiction].
Qed.

(** The small distribution, the files where their repositories say: every
    row belongs to the stable or to the beta repository, which the cleaner
    knows. *)
Lemma cleanup_arch_of_the_scenario_raises_for_the_file_system_only :
  (snd (cleanup_arch Scenario.files_in_place Rpm.labelCompare
          Rpm.splitFilename insertion_order Scenario.cleaner
          Scenario.db_followed Scenario.repos Scenario.start)
   = Returned tt \/
   snd (cleanup_arch Scenario.files_in_place Rpm.labelCompare
          Rpm.splitFilename insertion_order Scenario.cleaner
          Scenario.db_followed Scenario.repos Scenario.start)
   = Raised EnvironmentError) /\
  ((forall before dir, makedirs Scenario.files_in_place before dir = true) ->
   (forall before m,
      shutil_move Scenario.files_in_place before m = true) ->
   snd (cleanup_arch Scenario.files_in_place Rpm.labelCompare
          Rpm.splitFilename insertion_order Scenario.cleaner
          Scenario.db_followed Scenario.repos Scenario.start)
   = Returned tt).
Proof.
  apply (cleanup_arch_raises_for_the_file_system_only
           Scenario.files_in_place Rpm.labelCompare Rpm.splitFilename
           insertion_order Scenario.cleaner Scenario.db_followed
           Scenario.repos Scenario.start).
  - intros d. apply Permutation_refl.
  - intros p Hp _. simpl in Hp.
    repeat (destruct Hp as [<-|Hp];
            [vm_compute; eexists; reflexivity|]).
    contradiction.
Defined.

(* ================================================================== *)
(** * Which versions [__cleanup_previous_versions] keeps and expires *)
(* ================================================================== *)

Lemma nth_error_not_in_skipn {A : Type} (l : list A) : forall n i v,
  NoDup l -> nth_error l i = Some v -> (i < n)%nat -> ~ In v (skipn n l).
Proof.
  induction l as [|x l IH]; intros n i v Hnd Hi Hlt.
  - destruct i; discriminate.
  - destruct n as [|n]; [lia|]. inversion Hnd as [|? ? Hx Hl]; subst.
    cbn [skipn]. destruct i as [|i]; cbn [nth_error] in Hi.
    + injection Hi as ->. intros Hin. apply Hx.
      now apply (PyFacts.skipn_incl n l).
    + apply (IH n i v Hl Hi). lia.
Qed.

Lemma filter_filter_implied {A : Type} (f g : A -> bool) l :
  (forall x, f x = true -> g x = true) ->
  filter f (filter g l) = filter f l.
Proof.
  intros H. induction l as [|x l IH]; simpl; auto.
  destruct (g x) eqn:Hg; simpl.
  - now rewrite IH.
  - destruct (f x) eqn:Hf; auto. apply H in Hf. congruence.
Qed.

Lemma filter_all {A : Type} (f : A -> bool) l :
  (forall x, In x l -> f x = true) -> filter f l = l.
Proof.
  induction l as [|x l IH]; intros H; simpl; auto.
  rewrite (H x (or_introl eq_refl)), IH; auto.
  intros y Hy. apply H. now right.
Qed.

Lemma filter_none {A : Type} (f : A -> bool) l :
  (forall x, In x l -> f x = false) -> filter f l = [].
Proof.
  induction l as [|x l IH]; intros H; simpl; auto.
  rewrite (H x (or_introl eq_refl)), IH; auto.
  intros y Hy. apply H. now right.
Qed.

(** Versions that share no row have different lists, also once each is
    put main package first. *)
Lemma main_first_NoDup srpm_name versions :
  Forall (fun v : list Pkg.t => v <> []) versions ->
  NoDup (List.concat versions) ->
  NoDup (map (main_first srpm_name) versions).
Proof.
  induction versions as [|v versions IH]; intros Hne Hnd; simpl.
  - constructor.
  - inversion Hne as [|? ? Hv Hrest]; subst. simpl in Hnd.
    constructor.
    + intros Hin. apply in_map_iff in Hin. destruct Hin as (w & E & Hw).
      destruct v as [|p v]; [contradiction|].
      assert (Hp : In p w).
      { apply (main_first_In srpm_name). rewrite E.
        apply (main_first_In srpm_name). now left. }
      simpl in Hnd. inversion Hnd as [|? ? Hp' _]; subst.
      apply Hp'. apply in_or_app. right.
      apply in_concat. exists w. auto.
    + apply IH; auto. now apply NoDup_app_remove_l in Hnd.
Qed.

Section Retention.
Variable fs : filesystem.
Variable labelCompare : label -> label -> Z.
Variable self : DistroCleaner.

Lemma plan_of_stable_representative ids latest ord v reason :
  0 <= keep_stable self ->
  first_in ids v = true ->
  In (v, reason) (removal_plan labelCompare self ids latest ord) ->
  In v (skipn (Z.to_nat (keep_stable self)) (filter (first_in ids) ord)).
Proof.
  intros Hkeep Hv H. unfold removal_plan in H.
  apply in_app_or in H. destruct H as [H|H].
  { apply in_map_iff in H. destruct H as (w & [= <- _] & Hw).
    unfold expired_beta_of in Hw. destruct latest; [|contradiction].
    apply filter_In in Hw. destruct Hw as [_ Hw].
    unfold is_expired in Hw. rewrite Hv in Hw. discriminate. }
  apply in_app_or in H. destruct H as [H|H].
  { apply in_map_iff in H. destruct H as (w & [= <- _] & Hw).
    apply PyFacts.slice_from_incl, filter_In in Hw.
    destruct Hw as [_ Hw]. rewrite Hv in Hw. discriminate. }
  apply in_map_iff in H. destruct H as (w & [= <- _] & Hw).
  rewrite PyFacts.slice_from_nonneg in Hw by exact Hkeep.
  destruct latest as [l|]; [|exact Hw].
  rewrite filter_filter_implied in Hw; [exact Hw|].
  intros x Hx. unfold is_expired. now rewrite Hx.
Qed.

Hypothesis labelCompare_antisym :
  forall a b, labelCompare b a = - labelCompare a b.
Hypothesis labelCompare_trans :
  forall a b c,
    labelCompare a b <= 0 -> labelCompare b c <= 0 -> labelCompare a c <= 0.

(** Whatever version is visited first, [latest_stable_evr] ends at or
    above the EVR of its first package, and at or above the EVR of every
    first package that lives in a stable repository. *)
Lemma rearrange_latest_dominates srpm_name ids v versions :
  Forall (fun w => w <> []) (v :: versions) ->
  exists latest,
    rearrange labelCompare srpm_name ids (v :: versions) None []
      = Returned (Some latest, map (main_first srpm_name) (v :: versions)) /\
    labelCompare (label_of_evr latest) (first_label (main_first srpm_name v))
      >= 0 /\
    (forall w rep, In w (v :: versions) ->
       hd_error (main_first srpm_name w) = Some rep ->
       mem (Pkg.repo_id rep) ids = true ->
       labelCompare (label_of_evr latest) (label_of_evr (evr_of rep)) >= 0).
Proof.
  intros Hne. inversion Hne as [|? ? Hv Hrest]; subst.
  cbn [rearrange map].
  destruct (main_first srpm_name v) as [|p rest] eqn:Ev.
  { apply PyFacts.sort_reverse_nil in Ev. contradiction. }
  destruct (rearrange_latest labelCompare labelCompare_antisym
              labelCompare_trans srpm_name ids versions (evr_of p)
              ([] ++ [p :: rest]) Hrest) as (e' & E & _ & Hge & Hmax).
  exists e'. split; [exact E|]. split; [exact Hge|].
  intros w rep [<-|Hw] Hrep Hs.
  - rewrite Ev in Hrep. injection Hrep as <-. exact Hge.
  - now apply (Hmax w rep).
Qed.

End Retention.

(** X7: under an antisymmetric and transitive [labelCompare], whatever the
    order in which the versions are visited, a version whose first package
    does not live in a stable repository and compares below the first
    package of a version that does is handed to [__cleanup_version] as
    expired by stable, whatever [keep_beta] is. *)
Theorem versions_below_a_stable_one_are_expired :
  forall fs labelCompare self srpm_name versions repos,
    (forall a b, labelCompare b a = - labelCompare a b) ->
    (forall a b c, labelCompare a b <= 0 -> labelCompare b c <= 0 ->
                   labelCompare a c <= 0) ->
    Forall (fun v => v <> []) versions ->
    exists plan,
      (forall ex,
         cleanup_previous_versions fs labelCompare self srpm_name versions repos
             ex
         = run_plan fs self plan ex) /\
      (forall older newer,
         In older versions -> In newer versions ->
         first_in (stable_repo_ids_of repos) (main_first srpm_name newer)
           = true ->
         first_in (stable_repo_ids_of repos) (main_first srpm_name older)
           = false ->
         compare_versions labelCompare (main_first srpm_name newer)
                          (main_first srpm_name older) > 0 ->
         In (main_first srpm_name older, RemovalReason.EXPIRED_BY_STABLE)
            plan).
Proof.
  intros fs labelCompare self srpm_name versions repos Hanti Htrans Hne.
  destruct versions as [|v versions].
  { exists (removal_plan labelCompare self (stable_repo_ids_of repos) None
              (sort_reverse (compare_versions labelCompare) [])).
    split; [|intros ? ? []].
    intros ex. now apply cleanup_previous_versions_plan. }
  destruct (rearrange_latest_dominates labelCompare Hanti Htrans srpm_name
              (stable_repo_ids_of repos) v versions Hne)
    as (latest & E & _ & Hmax).
  exists (removal_plan labelCompare self (stable_repo_ids_of repos)
            (Some latest)
            (sort_reverse (compare_versions labelCompare)
               (map (main_first srpm_name) (v :: versions)))).
  split.
  - intros ex. now apply cleanup_previous_versions_plan.
  - intros older newer Holder Hnewer Hstable Hbeta Hcmp.
    unfold removal_plan. apply in_or_app. left.
    apply (in_map (fun w => (w, RemovalReason.EXPIRED_BY_STABLE))).
    unfold expired_beta_of. apply filter_In. split.
    + apply PyFacts.sort_reverse_In.
      now apply (in_map (main_first srpm_name)).
    + unfold is_expired. rewrite Hbeta. cbn [negb andb].
      apply Z.ltb_lt.
      destruct (main_first srpm_name newer) as [|rep rest] eqn:Enewer;
        [discriminate|].
      cbn [first_in] in Hstable.
      assert (Hge : labelCompare (label_of_evr latest)
                      (label_of_evr (evr_of rep)) >= 0).
      { apply (Hmax newer rep); auto. now rewrite Enewer. }
      unfold compare_versions in Hcmp. cbn [first_label] in Hcmp.
      set (b := first_label (main_first srpm_name older)) in *.
      set (s := label_of_evr (evr_of rep)) in *.
      set (l := label_of_evr latest) in *.
      destruct (Z_lt_le_dec 0 (labelCompare l b)) as [|Hle]; auto.
      exfalso.
      assert (Hsl : labelCompare s l <= 0)
        by (rewrite (Hanti l s); lia).
      pose proof (Htrans s l b Hsl Hle). lia.
Qed.

(** foo 10 of the stable repository expires foo 9 of the beta repository,
    although [keep_beta] would keep it. *)
Lemma versions_below_a_stable_one_of_foo :
  exists plan,
    (forall ex,
       cleanup_previous_versions Scenario.files_in_place Rpm.labelCompare
           Scenario.cleaner (Some "foo")
         [[Scenario.beta_9]; [Scenario.stable_10]] Scenario.repos ex
       = run_plan Scenario.files_in_place Scenario.cleaner plan ex) /\
    (forall older newer,
       In older [[Scenario.beta_9]; [Scenario.stable_10]] ->
       In newer [[Scenario.beta_9]; [Scenario.stable_10]] ->
       first_in (stable_repo_ids_of Scenario.repos)
                (main_first (Some "foo") newer) = true ->
       first_in (stable_repo_ids_of Scenario.repos)
                (main_first (Some "foo") older) = false ->
       compare_versions Rpm.labelCompare (main_first (Some "foo") newer)
                        (main_first (Some "foo") older) > 0 ->
       In (main_first (Some "foo") older, RemovalReason.EXPIRED_BY_STABLE)
          plan).
Proof.
  apply (versions_below_a_stable_one_are_expired Scenario.files_in_place
      Rpm.labelCompare
           Scenario.cleaner (Some "foo")
           [[Scenario.beta_9]; [Scenario.stable_10]] Scenario.repos).
  - exact rpm_labelCompare_antisym.
  - exact rpm_labelCompare_trans.
  - repeat constructor; discriminate.
Defined.

(** X8: [latest_stable_evr] starts as the EVR of the version visited
    first, whatever its channel.  Under an antisymmetric and transitive
    [labelCompare], a version whose first package does not live in a stable
    repository and compares below the first package of the version visited
    first is handed to [__cleanup_version] as expired by stable, also when
    no version is stable, and whatever [keep_beta] is. *)
Theorem versions_below_the_first_visited_are_expired :
  forall fs labelCompare self srpm_name first versions repos,
    (forall a b, labelCompare b a = - labelCompare a b) ->
    (forall a b c, labelCompare a b <= 0 -> labelCompare b c <= 0 ->
                   labelCompare a c <= 0) ->
    Forall (fun v => v <> []) (first :: versions) ->
    exists plan,
      (forall ex,
         cleanup_previous_versions fs labelCompare self srpm_name
           (first :: versions) repos ex
         = run_plan fs self plan ex) /\
      (forall older,
         In older (first :: versions) ->
         first_in (stable_repo_ids_of repos) (main_first srpm_name older)
           = false ->
         compare_versions labelCompare (main_first srpm_name first)
                          (main_first srpm_name older) > 0 ->
         In (main_first srpm_name older, RemovalReason.EXPIRED_BY_STABLE)
            plan).
Proof.
  intros fs labelCompare self srpm_name first versions repos Hanti Htrans Hne.
  destruct (rearrange_latest_dominates labelCompare Hanti Htrans srpm_name
              (stable_repo_ids_of repos) first versions Hne)
    as (latest & E & Hge & _).
  exists (removal_plan labelCompare self (stable_repo_ids_of repos)
            (Some latest)
            (sort_reverse (compare_versions labelCompare)
               (map (main_first srpm_name) (first :: versions)))).
  split.
  - intros ex. now apply cleanup_previous_versions_plan.
  - intros older Holder Hbeta Hcmp.
    unfold removal_plan. apply in_or_app. left.
    apply (in_map (fun w => (w, RemovalReason.EXPIRED_BY_STABLE))).
    unfold expired_beta_of. apply filter_In. split.
    + apply PyFacts.sort_reverse_In.
      now apply (in_map (main_first srpm_name)).
    + unfold is_expired. rewrite Hbeta. cbn [negb andb].
      apply Z.ltb_lt. unfold compare_versions in Hcmp.
      set (b := first_label (main_first srpm_name older)) in *.
      set (s := first_label (main_first srpm_name first)) in *.
      set (l := label_of_evr latest) in *.
      destruct (Z_lt_le_dec 0 (labelCompare l b)) as [|Hle]; auto.
      exfalso.
      assert (Hsl : labelCompare s l <= 0)
        by (rewrite (Hanti l s); lia).
      pose proof (Htrans s l b Hsl Hle). lia.
Qed.

(** foo 9 and foo 8, both of the beta repository, with foo 9 visited
    first: foo 8 is expired by stable although no version is stable. *)
Lemma versions_below_the_first_visited_of_foo :
  exists plan,
    (forall ex,
       cleanup_previous_versions Scenario.files_in_place Rpm.labelCompare
           Scenario.cleaner (Some "foo")
         ([Scenario.beta_9] :: [[Scenario.beta_8]]) Scenario.repos ex
       = run_plan Scenario.files_in_place Scenario.cleaner plan ex) /\
    (forall older,
       In older ([Scenario.beta_9] :: [[Scenario.beta_8]]) ->
       first_in (stable_repo_ids_of Scenario.repos)
                (main_first (Some "foo") older) = false ->
       compare_versions Rpm.labelCompare
         (main_first (Some "foo") [Scenario.beta_9])
         (main_first (Some "foo") older) > 0 ->
       In (main_first (Some "foo") older, RemovalReason.EXPIRED_BY_STABLE)
          plan).
Proof.
  apply (versions_below_the_first_visited_are_expired Scenario.files_in_place
      Rpm.labelCompare
           Scenario.cleaner (Some "foo") [Scenario.beta_9]
           [[Scenario.beta_8]] Scenario.repos).
  - exact rpm_labelCompare_antisym.
  - exact rpm_labelCompare_trans.
  - repeat constructor; discriminate.
Defined.

(** X9: when no row is filed under two versions and [keep_stable] is not
    negative, the [keep_stable] first of the sorted versions whose first
    package lives in a stable repository are never handed to
    [__cleanup_version], for whatever reason; and no version whose first
    package lives in a stable repository is handed over as expired by
    stable. *)
Theorem newest_stable_versions_are_kept :
  forall fs labelCompare self srpm_name versions repos,
    Forall (fun v => v <> []) versions ->
    NoDup (List.concat versions) ->
    0 <= keep_stable self ->
    exists plan,
      (forall ex,
         cleanup_previous_versions fs labelCompare self srpm_name versions repos
             ex
         = run_plan fs self plan ex) /\
      (forall i v,
         nth_error
           (filter (first_in (stable_repo_ids_of repos))
              (sort_reverse (compare_versions labelCompare)
                 (map (main_first srpm_name) versions))) i = Some v ->
         (i < Z.to_nat (keep_stable self))%nat ->
         forall reason, ~ In (v, reason) plan) /\
      (forall v,
         first_in (stable_repo_ids_of repos) v = true ->
         ~ In (v, RemovalReason.EXPIRED_BY_STABLE) plan).
Proof.
  intros fs labelCompare self srpm_name versions repos Hne Hnd Hkeep.
  destruct (rearrange_returns labelCompare srpm_name
              (stable_repo_ids_of repos) versions None [] Hne)
    as (latest & E).
  simpl in E.
  exists (removal_plan labelCompare self (stable_repo_ids_of repos) latest
            (sort_reverse (compare_versions labelCompare)
               (map (main_first srpm_name) versions))).
  split; [|split].
  - intros ex. now apply cleanup_previous_versions_plan.
  - intros i v Hi Hlt reason Hin.
    assert (Hv : first_in (stable_repo_ids_of repos) v = true).
    { apply nth_error_In, filter_In in Hi. tauto. }
    apply (plan_of_stable_representative labelCompare self _ _ _ _ _ Hkeep Hv)
      in Hin.
    revert Hin. apply (nth_error_not_in_skipn _ _ i); auto.
    apply NoDup_filter.
    apply (Permutation_NoDup
             (Permutation_sym (PyFacts.sort_reverse_perm _ _))).
    now apply main_first_NoDup.
  - intros v Hv Hin. unfold removal_plan in Hin.
    apply in_app_or in Hin. destruct Hin as [Hin|Hin].
    + apply in_map_iff in Hin. destruct Hin as (w & [= <-] & Hw).
      unfold expired_beta_of in Hw. destruct latest; [|contradiction].
      apply filter_In in Hw. destruct Hw as [_ Hw].
      unfold is_expired in Hw. rewrite Hv in Hw. discriminate.
    + apply in_app_or in Hin. destruct Hin as [Hin|Hin];
        apply in_map_iff in Hin; destruct Hin as (w & Hw & _);
        discriminate.
Qed.

(** With [keep_stable = 3], the only stable version of foo is kept. *)
Lemma newest_stable_version_of_foo_is_kept :
  exists plan,
    (forall ex,
       cleanup_previous_versions Scenario.files_in_place Rpm.labelCompare
           Scenario.cleaner (Some "foo")
         [[Scenario.beta_9]; [Scenario.stable_10]] Scenario.repos ex
       = run_plan Scenario.files_in_place Scenario.cleaner plan ex) /\
    (forall i v,
       nth_error
         (filter (first_in (stable_repo_ids_of Scenario.repos))
            (sort_reverse (compare_versions Rpm.labelCompare)
               (map (main_first (Some "foo"))
                    [[Scenario.beta_9]; [Scenario.stable_10]]))) i = Some v ->
       (i < Z.to_nat (keep_stable Scenario.cleaner))%nat ->
       forall reason, ~ In (v, reason) plan) /\
    (forall v,
       first_in (stable_repo_ids_of Scenario.repos) v = true ->
       ~ In (v, RemovalReason.EXPIRED_BY_STABLE) plan).
Proof.
  apply (newest_stable_versions_are_kept Scenario.files_in_place
      Rpm.labelCompare Scenario.cleaner
           (Some "foo") [[Scenario.beta_9]; [Scenario.stable_10]]
           Scenario.repos).
  - repeat constructor; discriminate.
  - repeat constructor; simpl; intuition discriminate.
  - vm_compute. discriminate.
Defined.

(** X10: when the first package of every version lives in a stable
    repository and [keep_stable] is not negative, nothing is expired:
    [__cleanup_previous_versions] hands the sorted versions past the
    [keep_stable] first to [__cleanup_version] as outdated, in order, and
    no other. *)
Theorem stable_versions_are_trimmed_to_keep_stable :
  forall fs labelCompare self srpm_name versions repos ex,
    Forall (fun v => v <> []) versions ->
    Forall (fun v => first_in (stable_repo_ids_of repos)
                       (main_first srpm_name v) = true) versions ->
    0 <= keep_stable self ->
    cleanup_previous_versions fs labelCompare self srpm_name versions repos ex
    = for_each
        (fun packages =>
           cleanup_version fs self packages RemovalReason.OUTDATED)
        (skipn (Z.to_nat (keep_stable self))
           (sort_reverse (compare_versions labelCompare)
              (map (main_first srpm_name) versions))) ex.
Proof.
  intros fs labelCompare self srpm_name versions repos ex Hne Hstable Hkeep.
  destruct (rearrange_returns labelCompare srpm_name
              (stable_repo_ids_of repos) versions None [] Hne)
    as (latest & E).
  simpl in E.
  rewrite (cleanup_previous_versions_plan fs labelCompare self srpm_name
      versions
             repos latest _ E).
  set (ids := stable_repo_ids_of repos) in *.
  set (sorted := sort_reverse (compare_versions labelCompare)
                   (map (main_first srpm_name) versions)).
  assert (Hsorted : forall v, In v sorted -> first_in ids v = true).
  { intros v Hv. apply PyFacts.sort_reverse_In, in_map_iff in Hv.
    destruct Hv as (v0 & <- & Hv0).
    rewrite Forall_forall in Hstable. now apply Hstable. }
  assert (Hleft : match latest with
                  | Some l =>
                      filter (fun v => negb (is_expired labelCompare ids l v))
                             sorted
                  | None => sorted
                  end = sorted).
  { destruct latest as [l|]; auto. apply filter_all.
    intros v Hv. unfold is_expired. now rewrite (Hsorted v Hv). }
  unfold run_plan, removal_plan. rewrite Hleft.
  assert (Hexp : expired_beta_of labelCompare ids latest sorted = []).
  { unfold expired_beta_of. destruct latest as [l|]; auto.
    apply filter_none. intros v Hv. unfold is_expired.
    now rewrite (Hsorted v Hv). }
  rewrite Hexp.
  rewrite (filter_none (fun v => negb (first_in ids v)) sorted)
    by (intros v Hv; now rewrite (Hsorted v Hv)).
  rewrite (filter_all (first_in ids) sorted Hsorted).
  assert (Hnil : slice_from (keep_beta self) (@nil (list Pkg.t)) = []).
  { unfold slice_from. destruct (keep_beta self <? 0); apply skipn_nil. }
  rewrite Hnil. cbn [map app].
  rewrite PyFacts.slice_from_nonneg by exact Hkeep.
  now rewrite for_each_map.
Qed.

(** foo 1 and foo 10 of the stable repository with [keep_stable = 1]:
    foo 10 is kept and foo 1 is handed over as outdated. *)
Lemma stable_versions_of_foo_are_trimmed_to_one :
  cleanup_previous_versions Scenario.files_in_place Rpm.labelCompare
    Distro.keeping_one (Some "foo")
    [[Scenario.foo_1]; [Scenario.stable_10]] Scenario.repos Scenario.start
  = for_each
      (fun packages =>
         cleanup_version Scenario.files_in_place Distro.keeping_one packages
           RemovalReason.OUTDATED)
      (skipn (Z.to_nat (keep_stable Distro.keeping_one))
         (sort_reverse (compare_versions Rpm.labelCompare)
            (map (main_first (Some "foo"))
                 [[Scenario.foo_1]; [Scenario.stable_10]]))) Scenario.start.
Proof.
  apply (stable_versions_are_trimmed_to_keep_stable Scenario.files_in_place
           Rpm.labelCompare Distro.keeping_one (Some "foo")
           [[Scenario.foo_1]; [Scenario.stable_10]] Scenario.repos
           Scenario.start).
  - repeat constructor; discriminate.
  - repeat constructor.
  - vm_compute. discriminate.
Defined.

(** What is handed over there: foo 1, and nothing of foo 10. *)
Example stable_versions_of_foo_past_the_first :
  skipn (Z.to_nat (keep_stable Distro.keeping_one))
    (sort_reverse (compare_versions Rpm.labelCompare)
       (map (main_first (Some "foo"))
            [[Scenario.foo_1]; [Scenario.stable_10]]))
  = [[Scenario.foo_1]] /\
  moved (fst (cleanup_previous_versions Scenario.files_in_place
                Rpm.labelCompare Distro.keeping_one (Some "foo")
                [[Scenario.foo_1]; [Scenario.stable_10]] Scenario.repos
                Scenario.start))
  = [removal_for Distro.keeping_one Scenario.stable RemovalReason.OUTDATED
       Scenario.foo_1].
Proof. split; reflexivity. Qed.


(* ================================================================== *)
(** * What indexing leaves in the database *)
(* ================================================================== *)

Lemma max_package_id_app rows row :
  fold_right (fun p m => Z.max (Pkg.package_id p) m) 0 (rows ++ [row])
  = Z.max (fold_right (fun p m => Z.max (Pkg.package_id p) m) 0 rows)
          (Z.max (Pkg.package_id row) 0).
Proof.
  induction rows as [|p rows IH]; simpl; [lia|]. rewrite IH. lia.
Qed.

Lemma next_package_id_app rows row :
  Pkg.package_id row = next_package_id rows ->
  next_package_id (rows ++ [row]) = next_package_id rows + 1.
Proof.
  unfold next_package_id. intros H. rewrite max_package_id_app, H.
  assert (0 <= fold_right (fun p m => Z.max (Pkg.package_id p) m) 0 rows).
  { clear. induction rows; simpl; lia. }
  lia.
Qed.

Lemma save_repo_package_closed self db repo_id package :
  save_repo_package self db repo_id package =
  if skipped_package self package then db
  else {| repositories := repositories db;
          packages :=
            packages db
            ++ [package_row (next_package_id (packages db)) repo_id package] |}.
Proof. reflexivity. Qed.

Lemma index_repo_packages_closed self repo_id primary : forall db,
  index_repo_packages self db repo_id primary =
  {| repositories := repositories db;
     packages :=
       packages db
       ++ rows_from (next_package_id (packages db)) repo_id
            (filter (fun package => negb (skipped_package self package))
                    primary) |}.
Proof.
  unfold index_repo_packages.
  induction primary as [|package primary IH]; intros db.
  - simpl. rewrite app_nil_r. now destruct db.
  - cbn [fold_left filter]. rewrite save_repo_package_closed.
    destruct (skipped_package self package); cbn [negb].
    + apply IH.
    + rewrite IH. cbn [repositories packages rows_from].
      rewrite next_package_id_app by reflexivity.
      now rewrite <- app_assoc.
Qed.

Lemma rows_from_repo_id repo_id primary : forall package_id p,
  In p (rows_from package_id repo_id primary) -> Pkg.repo_id p = repo_id.
Proof.
  induction primary as [|package primary IH]; intros package_id p; simpl.
  - contradiction.
  - intros [<-|H]; [reflexivity|]. now apply IH in H.
Qed.

(** X11: [__index_repo_packages] leaves the rows of the database as they
    are and adds, after them and in the order of the metadata, one row for
    each package [__save_repo_package] does not skip, with the fields of
    the package, the id of the repository, and ids that go up by one from
    the next free id. *)
Theorem index_adds_a_row_for_each_package_kept :
  forall self db repo_id primary,
    index_repo_packages self db repo_id primary =
    {| repositories := repositories db;
       packages :=
         packages db
         ++ rows_from (next_package_id (packages db)) repo_id
              (filter (fun package => negb (skipped_package self package))
                      primary) |}.
Proof.
  intros. apply index_repo_packages_closed.
Qed.

(** ** The invariant of [__index_repo] *)

Lemma next_repo_id_above rows repo :
  In repo rows -> Repo.repo_id repo < next_repo_id rows.
Proof.
  unfold next_repo_id. induction rows as [|r rows IH]; cbn [fold_right In].
  - contradiction.
  - intros [<-|H]; [lia|]. apply IH in H. lia.
Qed.

Lemma next_repo_id_fresh rows :
  ~ In (next_repo_id rows) (map Repo.repo_id rows).
Proof.
  intros H. apply in_map_iff in H. destruct H as (repo & E & Hin).
  apply next_repo_id_above in Hin. lia.
Qed.

Lemma set_repo_fresh repo repos :
  ~ In (Repo.repo_id repo) (map Repo.repo_id repos) ->
  set_repo repo repos = repos ++ [repo].
Proof.
  induction repos as [|r repos IH]; simpl; auto.
  intros H. destruct (Z.eqb_spec (Repo.repo_id r) (Repo.repo_id repo)).
  - exfalso. apply H. now left.
  - rewrite IH; auto.
Qed.

Lemma with_repos_self self : self = with_repos self (repos_by_id self).
Proof. now destruct self. Qed.

Lemma from_string_raises channel e :
  Channel.from_string channel = Raised e -> e = ValueError.
Proof.
  unfold Channel.from_string.
  destruct (channel =? "stable")%string; [discriminate|].
  destruct (channel =? "beta")%string; [discriminate|].
  now intros [= <-].
Qed.

Section Indexing.
Variable path_exists : string -> bool.
Variable primary_packages : string -> option (list CrPackage.t).

Lemma index_repo_paths_spec name channel readonly items : forall self db,
  consistent self db -> honours_exclude self db ->
  exists self' db' o,
    index_repo_paths path_exists primary_packages name channel readonly items
                     self db = (self', db', o) /\
    (exists repos', self' = with_repos self repos') /\
    match o with
    | None =>
        consistent self' db' /\ honours_exclude self' db' /\
        forall arch path, In (arch, path) items ->
                          path_exists path = true /\
                          primary_packages path <> None
    | Some f =>
        exists arch path,
          In (arch, path) items /\
          ((path_exists path = false /\ f = RepositoryDoesNotExist path) \/
           (primary_packages path = None /\ f = MetadataNotRead path))
    end.
Proof.
  induction items as [|[arch path] items IH]; intros self db Hc Hh.
  - exists self, db, None. split; [reflexivity|].
    split; [exists (repos_by_id self); apply with_repos_self|].
    split; [exact Hc|]. split; [exact Hh|]. intros ? ? [].
  - cbn [index_repo_paths].
    destruct (path_exists path) eqn:Hpath; cbn [negb].
    + set (repo := {| Repo.repo_id := next_repo_id (repositories db);
                      Repo.name := name; Repo.arch := arch;
                      Repo.path := path; Repo.channel := channel;
                      Repo.readonly := readonly |}).
      set (self1 := with_repos self (set_repo repo (repos_by_id self))).
      destruct (primary_packages path) as [primary|] eqn:Hread.
      * set (db1 := index_repo_packages self1 _ _ _).
        destruct Hc as (Hrepos & Hnd & Hfk).
        assert (Hset : set_repo repo (repos_by_id self)
                       = repositories db ++ [repo]).
        { rewrite Hrepos. apply set_repo_fresh. apply next_repo_id_fresh. }
        assert (Hdb1 : repositories db1 = repositories db ++ [repo] /\
                       forall p, In p (packages db1) ->
                                 In p (packages db) \/
                                 Pkg.repo_id p = Repo.repo_id repo).
        { unfold db1. rewrite index_repo_packages_closed.
          cbn [repositories packages]. split; [reflexivity|].
          intros p Hp. apply in_app_or in Hp. destruct Hp as [Hp|Hp]; auto.
          right. now apply rows_from_repo_id in Hp. }
        destruct Hdb1 as [Hrows Hpk].
        destruct (IH self1 db1)
          as (self' & db' & o & E & (repos' & Hself) & Ho).
        -- split; [|split].
           ++ unfold self1. cbn [repos_by_id with_repos].
              now rewrite Hset, Hrows.
           ++ rewrite Hrows, map_app. cbn [map].
              apply Permutation_NoDup
                with (l := Repo.repo_id repo
                           :: map Repo.repo_id (repositories db)).
              ** apply Permutation_cons_append.
              ** constructor; [apply next_repo_id_fresh|exact Hnd].
           ++ intros p Hp. rewrite Hrows, map_app. apply in_or_app.
              destruct (Hpk p Hp) as [Hold| ->]; [left; auto|right; now left].
        -- intros p srpm Hp Hs Hne.
           apply index_repo_packages_rows in Hp. destruct Hp as [Hp|Hp].
           ++ apply (Hh p srpm Hp Hs Hne).
           ++ destruct (Hp srpm Hs); [contradiction|assumption].
        -- exists self', db', o. split; [exact E|].
           split; [exists repos'; rewrite Hself; reflexivity|].
           destruct o as [f|].
           ++ destruct Ho as (a & q & Hin & Hf).
              exists a, q. split; [now right|]. exact Hf.
           ++ destruct Ho as (Hc' & Hh' & Hall). split; auto. split; auto.
              intros a q [[= <- <-]|Hin]; [|now apply (Hall a q)].
              split; [exact Hpath|]. now rewrite Hread.
      * eexists self1, _, (Some (MetadataNotRead path)).
        split; [reflexivity|].
        split; [eexists; reflexivity|].
        exists arch, path. split; [now left|]. right. auto.
    + exists self, db, (Some (RepositoryDoesNotExist path)).
      split; [reflexivity|].
      split; [exists (repos_by_id self); apply with_repos_self|].
      exists arch, path. split; [now left|]. left. auto.
Qed.

Lemma index_repo_spec repo self db :
  consistent self db -> honours_exclude self db ->
  exists self' db' o,
    index_repo path_exists primary_packages self db repo = (self', db', o) /\
    (exists repos', self' = with_repos self repos') /\
    match o with
    | None =>
        consistent self' db' /\ honours_exclude self' db' /\
        accepted path_exists repo /\ readable primary_packages repo
    | Some f =>
        (Channel.from_string (rc_channel repo) = Raised ValueError /\
         f = PythonError ValueError) \/
        exists arch path,
          In (arch, path) (rc_path repo) /\
          ((path_exists path = false /\ f = RepositoryDoesNotExist path) \/
           (primary_packages path = None /\ f = MetadataNotRead path))
    end.
Proof.
  intros Hc Hh. unfold index_repo.
  destruct (Channel.from_string (rc_channel repo)) as [channel|e] eqn:Ech.
  - destruct (index_repo_paths_spec (rc_name repo) channel (rc_readonly repo)
                (rc_path repo) self db Hc Hh)
      as (self' & db' & o & E & Hself & Ho).
    rewrite E. destruct o as [f|].
    + exists self', db, (Some f). split; [reflexivity|]. split; auto.
    + exists self', db', None. split; [reflexivity|]. split; auto.
      destruct Ho as (Hc' & Hh' & Hall). split; auto. split; auto.
      split; [split; [eauto|]|]; intros a q Hin; now apply (Hall a q).
  - pose proof (from_string_raises _ _ Ech). subst e.
    exists self, db, (Some (PythonError ValueError)).
    split; [reflexivity|].
    split; [exists (repos_by_id self); apply with_repos_self|].
    left. auto.
Qed.

Lemma index_repos_spec repositories : forall self db,
  consistent self db -> honours_exclude self db ->
  exists self' db' o,
    index_repos path_exists primary_packages repositories self db
      = (self', db', o) /\
    (exists repos', self' = with_repos self repos') /\
    match o with
    | None =>
        consistent self' db' /\ honours_exclude self' db' /\
        Forall (accepted path_exists) repositories /\
        Forall (readable primary_packages) repositories
    | Some f =>
        exists repo,
          In repo repositories /\
          ((Channel.from_string (rc_channel repo) = Raised ValueError /\
            f = PythonError ValueError) \/
           exists arch path,
             In (arch, path) (rc_path repo) /\
             ((path_exists path = false /\ f = RepositoryDoesNotExist path)
              \/ (primary_packages path = None /\ f = MetadataNotRead path)))
    end.
Proof.
  induction repositories as [|repo repositories IH]; intros self db Hc Hh.
  - exists self, db, None. split; [reflexivity|].
    split; [exists (repos_by_id self); apply with_repos_self|]. auto.
  - cbn [index_repos].
    destruct (index_repo_spec repo self db Hc Hh)
      as (self1 & db1 & o1 & E1 & (repos1 & Hself1) & Ho1).
    rewrite E1. destruct o1 as [f|].
    + exists self1, db1, (Some f). split; [reflexivity|].
      split; [eauto|]. exists repo. split; [now left|exact Ho1].
    + destruct Ho1 as (Hc1 & Hh1 & Hacc & Hread).
      destruct (IH self1 db1 Hc1 Hh1)
        as (self' & db' & o & E & (repos' & Hself) & Ho).
      exists self', db', o. split; [exact E|].
      split; [exists repos'; rewrite Hself, Hself1; reflexivity|].
      destruct o as [f|].
      * destruct Ho as (r & Hr & Hf). exists r. split; [now right|exact Hf].
      * destruct Ho as (Hc' & Hh' & Hall & Hreadable). auto.
Qed.

End Indexing.

(* ================================================================== *)
(** * The whole run *)
(* ================================================================== *)

Lemma dict_set_In {K V : Type} (eqb : K -> K -> bool) k (v : V) d k' v' :
  In (k', v') (dict_set eqb k v d) -> (k', v') = (k, v) \/ In (k', v') d.
Proof.
  induction d as [|[k0 v0] d IH]; simpl.
  - intros [H|[]]; auto.
  - destruct (eqb k k0); simpl.
    + intros [H|H]; auto.
    + intros [H|H]; auto. apply IH in H. tauto.
Qed.

Lemma set_repo_In repo repos x :
  In x (set_repo repo repos) -> x = repo \/ In x repos.
Proof.
  induction repos as [|r repos IH]; simpl.
  - intros [H|[]]; auto.
  - destruct (Repo.repo_id r =? Repo.repo_id repo); simpl.
    + intros [H|H]; auto.
    + intros [H|H]; auto. apply IH in H. tauto.
Qed.

Lemma add_repo_row_entries (known : Repo.t -> Prop) d row :
  known row ->
  (forall arch repos, In (arch, repos) d ->
     forall r, In r repos -> known r /\ Repo.arch r = arch) ->
  forall arch repos, In (arch, repos) (add_repo_row d row) ->
    forall r, In r repos -> known r /\ Repo.arch r = arch.
Proof.
  intros Hrow Hd arch repos. unfold add_repo_row.
  destruct (dict_get String.eqb (Repo.arch row) d) as [repos0|] eqn:E.
  - rewrite E. intros H r Hr. apply dict_set_In in H.
    destruct H as [[= -> ->]|H]; [|now apply (Hd arch repos)].
    apply set_repo_In in Hr. destruct Hr as [->|Hr]; auto.
    apply (DictFacts.dict_get_In _ String.eqb_spec) in E.
    now apply (Hd _ repos0).
  - rewrite (DictFacts.dict_get_set_same _ String.eqb_spec).
    intros H r Hr. apply dict_set_In in H.
    destruct H as [[= -> ->]|H].
    + destruct Hr as [<-|[]]. auto.
    + apply dict_set_In in H. destruct H as [[= -> ->]|H]; [contradiction|].
      now apply (Hd arch repos).
Qed.

(** Every repository filed under an architecture in [repos_by_arch] is a
    row of [repositories] of that architecture. *)
Lemma repos_by_arch_entries db arch repos :
  In (arch, repos) (repos_by_arch_of db) ->
  forall r, In r repos -> In r (repositories db) /\ Repo.arch r = arch.
Proof.
  unfold repos_by_arch_of.
  assert (Hrows : forall r, In r (select_repositories db) ->
                            In r (repositories db)).
  { intros r Hr. unfold select_repositories in Hr.
    now apply (Permutation_in _ (order_by_perm _ _)) in Hr. }
  revert Hrows. generalize (select_repositories db) as rows.
  assert (Hstart : forall a rs, In (a, rs) (@nil (string * list Repo.t)) ->
            forall r, In r rs -> In r (repositories db) /\ Repo.arch r = a)
    by (intros ? ? []).
  revert Hstart. generalize (@nil (string * list Repo.t)) as d.
  intros d Hd rows. revert d Hd.
  induction rows as [|row rows IH]; intros d Hd Hrows; cbn [fold_left].
  - apply Hd.
  - apply IH.
    + apply add_repo_row_entries; auto. apply Hrows. now left.
    + intros r Hr. apply Hrows. now right.
Qed.

Lemma mem_In x l : mem x l = true <-> In x l.
Proof.
  unfold mem. rewrite existsb_exists. split.
  - intros (y & Hy & E). apply Z.eqb_eq in E. now subst.
  - intros H. exists x. split; auto. apply Z.eqb_refl.
Qed.

Lemma NoDup_map_inj {A B : Type} (f : A -> B) l a b :
  NoDup (map f l) -> In a l -> In b l -> f a = f b -> a = b.
Proof.
  induction l as [|x l IH]; simpl; [contradiction|].
  intros Hnd Ha Hb E. inversion Hnd as [|? ? Hx Hl]; subst.
  destruct Ha as [->|Ha], Hb as [->|Hb]; auto.
  - exfalso. apply Hx. rewrite E. now apply in_map.
  - exfalso. apply Hx. rewrite <- E. now apply in_map.
Qed.

Section WholeRun.
Variable fs : filesystem.
Variable path_exists : string -> bool.
Variable primary_packages : string -> option (list CrPackage.t).
Variable re_search : string -> string -> bool.
Variable labelCompare : label -> label -> Z.
Variable splitFilename :
  option string -> option (string * string * string * string * string).
Variable iteration_order :
  list (version_key * list Pkg.t) -> list (version_key * list Pkg.t).
Variable arch_order :
  list (string * list Repo.t) -> list (string * list Repo.t).
Variable stats_order : list (Z * Z) -> list (Z * Z).
Variable createrepo_c : list string -> Z.
Variable get_repomd_record_xml_path : string -> string -> option string.

Local Abbreviation cleanup_of :=
  (cleanup fs path_exists primary_packages labelCompare splitFilename
     iteration_order arch_order stats_order createrepo_c
     get_repomd_record_xml_path).
Local Abbreviation archs_of :=
  (cleanup_archs fs labelCompare splitFilename iteration_order arch_order).

(** [cleanup], by the way indexing ends. *)
Lemma cleanup_indexed self repositories db files ran self' db' :
  index_repos path_exists primary_packages repositories self db
    = (self', db', None) ->
  run_self (cleanup_of self repositories db files ran) = self' /\
  run_db (cleanup_of self repositories db files ran) = db' /\
  run_files (cleanup_of self repositories db files ran)
    = fst (archs_of self' db' (repos_by_arch_of db') files).
Proof.
  intros E. unfold cleanup. rewrite E.
  destruct (archs_of self' db' (repos_by_arch_of db') files)
    as [files' [[]|e]]; cbn [fst]; auto.
  destruct (update_repodata _ _ _ _ _) as [ran' [[]|e]]; auto.
  destruct (print_report _ _ _) as [printed [[]|e]]; auto.
Qed.

Lemma cleanup_not_indexed self repositories db files ran self' db' f :
  index_repos path_exists primary_packages repositories self db
    = (self', db', Some f) ->
  cleanup_of self repositories db files ran
  = {| run_self := self'; run_db := db'; run_files := files;
       run_commands := ran; run_report := []; run_failure := Some f |}.
Proof. intros E. unfold cleanup. now rewrite E. Qed.

Lemma consistent_init distro backup_dir :
  consistent (init re_search distro backup_dir) create_db /\
  honours_exclude (init re_search distro backup_dir) create_db.
Proof.
  split; [split; [reflexivity|split; [constructor|intros ? []]]|].
  intros ? ? [].
Qed.

Hypothesis iteration_is_permutation :
  forall d, Permutation (iteration_order d) d.
Hypothesis arch_order_is_permutation :
  forall d, Permutation (arch_order d) d.

(** What the loop over the architectures moves, it moves for a version
    group of the rows of the repositories of one architecture other than
    [src]. *)
Lemma cleanup_archs_groups self db d :
  emits (archs_of self db d)
        (fun m => exists arch repos group,
                    In (arch, repos) d /\ arch <> "src" /\
                    one_of_several_versions splitFilename
                      (fun p => In p (select_packages db repos)) group /\
                    moved_with self group m)
        (fun _ => True).
Proof.
  unfold cleanup_archs. apply emits_for_each.
  intros [arch repos] Hentry. cbn [fst snd].
  apply (Permutation_in _ (arch_order_is_permutation d)) in Hentry.
  destruct (String.eqb_spec arch "src") as [->|Hsrc].
  - now apply emits_ret.
  - eapply emits_weaken;
      [apply (cleanup_rows_groups fs labelCompare splitFilename iteration_order
                self iteration_is_permutation
                (fun p => In p (select_packages db repos)) repos
                (select_packages db repos) (fun _ H => H))| |auto].
    intros m (group & Hgroup & Hm). exists arch, repos, group. auto.
Qed.

Lemma cleanup_archs_keeps self db d (I : executor -> Prop) :
  (forall packages reason,
     preserves (cleanup_version fs self packages reason) I (fun _ => True)) ->
  preserves (archs_of self db d) I (fun _ => True).
Proof.
  intros H. unfold cleanup_archs. apply preserves_for_each.
  intros [arch repos] _. cbn [fst snd].
  destruct (arch =? "src")%string; [now apply preserves_ret|].
  apply (cleanup_rows_keeps fs labelCompare splitFilename iteration_order self
           I H).
Qed.

(** The loop over the architectures raises for the file system only. *)
Lemma cleanup_archs_raises_only (E : exn -> Prop) self db :
  (forall before dir, makedirs fs before dir = false -> E EnvironmentError) ->
  (forall before m, shutil_move fs before m = false -> E EnvironmentError) ->
  consistent self db ->
  raises_only E (archs_of self db (repos_by_arch_of db)) (fun _ => True).
Proof.
  intros Hdirs Hmoves (Hrepos & Hnd & Hfk). unfold cleanup_archs.
  apply raises_only_for_each. intros [arch repos] _. cbn [fst snd].
  destruct (arch =? "src")%string; [now apply raises_only_ret|].
  apply (cleanup_rows_raises_only fs labelCompare splitFilename
           iteration_order self iteration_is_permutation E Hdirs Hmoves).
  intros row Hrow. apply select_packages_In in Hrow.
  destruct Hrow as [Hin Hmem]. split; [exact Hmem|].
  apply mem_find_repo. apply mem_In. rewrite Hrepos. now apply Hfk.
Qed.

(** What a removal of the whole run looks like. *)
Lemma cleanup_archs_within_one_architecture self db :
  consistent self db ->
  emits (archs_of self db (repos_by_arch_of db))
        (fun m =>
           exists repo repo',
             In (rm_package m) (packages db) /\
             In repo (repositories db) /\
             Repo.repo_id repo = Pkg.repo_id (rm_package m) /\
             Repo.arch repo <> "src" /\
             In repo' (repositories db) /\
             Repo.arch repo' = Repo.arch repo /\
             Repo.readonly repo' = false /\
             rm_path m = path_join (Repo.path repo')
                                   (Pkg.location (rm_package m)) /\
             rm_backup_dir m =
               path_join (path_join (backup_dir self) (Repo.name repo'))
                         (Repo.arch repo'))
        (fun _ => True).
Proof.
  intros (Hrepos & Hnd & Hfk).
  eapply emits_weaken; [apply cleanup_archs_groups| |auto].
  intros m (arch & repos & group & Hentry & Hsrc &
            (n & key & Hrows & _) & Hp & first & repo' & Hfirst & Hfind &
            Hro & Em).
  pose proof (repos_by_arch_entries db arch repos Hentry) as Harch.
  destruct (Hrows _ Hp) as (Hsel & _).
  apply select_packages_In in Hsel. destruct Hsel as [Hin Hmem].
  apply mem_In, in_map_iff in Hmem. destruct Hmem as (repo & Hid & Hrepo).
  destruct (Harch repo Hrepo) as [Hrepo_db Hrepo_arch].
  destruct (Hrows _ Hfirst) as (Hsel1 & _).
  apply select_packages_In in Hsel1. destruct Hsel1 as [_ Hmem1].
  apply mem_In, in_map_iff in Hmem1. destruct Hmem1 as (r1 & Hid1 & Hr1).
  destruct (Harch r1 Hr1) as [Hr1_db Hr1_arch].
  apply find_repo_In in Hfind. destruct Hfind as [Hin' Hid'].
  rewrite Hrepos in Hin'.
  assert (repo' = r1).
  { apply (NoDup_map_inj Repo.repo_id (repositories db)); auto. congruence. }
  subst r1.
  exists repo, repo'. rewrite Em. cbn [rm_package rm_path rm_backup_dir].
  repeat split; auto; congruence.
Qed.

End WholeRun.

Section Reporting.
Variable createrepo_c : list string -> Z.
Variable get_repomd_record_xml_path : string -> string -> option string.
Variable self : DistroCleaner.

Lemma update_repodata_returns repo_ids : forall ran,
  (forall repo_id, In repo_id repo_ids ->
     exists repo, find_repo (repos_by_id self) repo_id = Some repo) ->
  (forall cmd, createrepo_c cmd = 0) ->
  snd (update_repodata createrepo_c get_repomd_record_xml_path self repo_ids
         ran) = Returned tt.
Proof.
  unfold update_repodata.
  induction repo_ids as [|repo_id repo_ids IH]; intros ran Hknown Hok.
  - reflexivity.
  - destruct (Hknown repo_id (or_introl eq_refl)) as (repo & Hrepo).
    cbn [for_each]. unfold bind at 1. rewrite Hrepo. unfold create_repo at 1.
    rewrite Hok. cbn [Z.eqb]. apply IH; auto.
    intros k Hk. apply Hknown. now right.
Qed.

Lemma report_lines_returns items : forall printed,
  (forall repo_id, In repo_id (map fst items) ->
     exists repo, find_repo (repos_by_id self) repo_id = Some repo) ->
  snd (report_lines self items printed) = Returned tt.
Proof.
  induction items as [|[repo_id count] items IH]; intros printed Hknown.
  - reflexivity.
  - destruct (Hknown repo_id (or_introl eq_refl)) as (repo & Hrepo).
    cbn [report_lines]. rewrite Hrepo. unfold bind. apply IH.
    intros k Hk. apply Hknown. now right.
Qed.

End Reporting.

(** X12: a fresh cleaner, with dictionaries walked in whatever order,
    moves files within one architecture only, and never for [src]: every
    file moved is that of a row of [packages] whose repository is not of
    architecture [src], it is looked up under the root of a repository of
    the same architecture that is not read-only, and it is moved to the
    directory of that repository and architecture under the backup
    directory of the distribution and its version. *)
Theorem files_are_moved_within_one_architecture :
  forall fs path_exists primary_packages re_search labelCompare splitFilename
         iteration_order arch_order stats_order createrepo_c
         get_repomd_record_xml_path distro backup_dir,
  (forall d, Permutation (iteration_order d) d) ->
  (forall d, Permutation (arch_order d) d) ->
  let r := clean_distro fs path_exists primary_packages re_search labelCompare
             splitFilename iteration_order arch_order stats_order createrepo_c
             get_repomd_record_xml_path distro backup_dir in
  Forall (fun m =>
            exists repo repo',
              In (rm_package m) (packages (run_db r)) /\
              In repo (repositories (run_db r)) /\
              Repo.repo_id repo = Pkg.repo_id (rm_package m) /\
              Repo.arch repo <> "src" /\
              In repo' (repositories (run_db r)) /\
              Repo.arch repo' = Repo.arch repo /\
              Repo.readonly repo' = false /\
              rm_path m = path_join (Repo.path repo')
                                    (Pkg.location (rm_package m)) /\
              rm_backup_dir m =
                path_join
                  (path_join
                     (path_join (path_join backup_dir (dc_name distro))
                                (dc_version distro))
                     (Repo.name repo'))
                  (Repo.arch repo'))
         (moved (run_files r)).
Proof.
  intros fs path_exists primary_packages re_search labelCompare splitFilename
         iteration_order arch_order stats_order createrepo_c
         get_repomd_record_xml_path distro backup_dir Hperm Harch r.
  subst r. unfold clean_distro.
  destruct (consistent_init re_search distro backup_dir) as [Hc Hh].
  destruct (index_repos_spec path_exists primary_packages
              (dc_repositories distro) _ _ Hc Hh)
    as (self' & db' & o & E & (repos' & Hself) & Ho).
  destruct o as [f|].
  - rewrite (cleanup_not_indexed _ _ _ _ _ _ _ _ _ _ _ _ _ _ _ _ _ _ E).
    constructor.
  - destruct Ho as (Hc' & _).
    destruct (cleanup_indexed fs path_exists primary_packages labelCompare
                splitFilename iteration_order arch_order stats_order
                createrepo_c get_repomd_record_xml_path _ _ _ no_files []
                _ _ E) as (_ & -> & ->).
    destruct (cleanup_archs_within_one_architecture fs labelCompare
        splitFilename
                iteration_order arch_order Hperm Harch self' db' Hc' no_files)
      as (new & Em & F & _).
    rewrite Em. cbn [moved no_files app].
    eapply Forall_impl; [|exact F]. cbn beta.
    intros m (repo & repo1 & H). exists repo, repo1.
    rewrite Hself in H. exact H.
Qed.

(** The small configuration: foo 9, foo 8 and kernel 2 leave the beta
    repository of x86_64; the src repository keeps its two versions of
    foo. *)
Lemma files_of_the_small_configuration_are_moved_within_x86_64 :
  Forall (fun m =>
            exists repo repo',
              In (rm_package m)
                 (packages (run_db (Distro.clean Distro.config))) /\
              In repo (repositories (run_db (Distro.clean Distro.config))) /\
              Repo.repo_id repo = Pkg.repo_id (rm_package m) /\
              Repo.arch repo <> "src" /\
              In repo' (repositories (run_db (Distro.clean Distro.config))) /\
              Repo.arch repo' = Repo.arch repo /\
              Repo.readonly repo' = false /\
              rm_path m = path_join (Repo.path repo')
                                    (Pkg.location (rm_package m)) /\
              rm_backup_dir m =
                path_join
                  (path_join
                     (path_join (path_join "/backup" (dc_name Distro.config))
                                (dc_version Distro.config))
                     (Repo.name repo'))
                  (Repo.arch repo'))
         (moved (run_files (Distro.clean Distro.config))).
Proof.
  apply (files_are_moved_within_one_architecture Distro.files_in_place
      Distro.every_path_exists
           Distro.primary_packages Distro.starts_with Rpm.labelCompare
           Rpm.splitFilename insertion_order Distro.as_inserted
           Distro.as_inserted Distro.createrepo_succeeds Distro.no_group_file
           Distro.config "/backup").
  - intros d. apply Permutation_refl.
  - intros d. apply Permutation_refl.
Defined.

(** X13: a fresh cleaner whose configuration names a channel other than
    [stable] and [beta], or a path that does not exist, stops while
    indexing, at that repository or at one before it whose metadata cannot
    be read: no file is moved, [createrepo_c] is not run and nothing is
    reported, also for the repositories indexed before the failure. *)
Theorem cleanup_stops_before_any_file_is_moved :
  forall fs path_exists primary_packages re_search labelCompare splitFilename
         iteration_order arch_order stats_order createrepo_c
         get_repomd_record_xml_path distro backup_dir,
  (exists repo,
     In repo (dc_repositories distro) /\ ~ accepted path_exists repo) ->
  exists self db f,
    clean_distro fs path_exists primary_packages re_search labelCompare
      splitFilename iteration_order arch_order stats_order createrepo_c
      get_repomd_record_xml_path distro backup_dir
    = {| run_self := self; run_db := db; run_files := no_files;
         run_commands := []; run_report := []; run_failure := Some f |} /\
    (f = PythonError ValueError \/
     (exists path,
        path_exists path = false /\ f = RepositoryDoesNotExist path) \/
     (exists path,
        primary_packages path = None /\ f = MetadataNotRead path)) /\
    (Forall (readable primary_packages) (dc_repositories distro) ->
     f = PythonError ValueError \/
     exists path,
       path_exists path = false /\ f = RepositoryDoesNotExist path).
Proof.
  intros fs path_exists primary_packages re_search labelCompare splitFilename
         iteration_order arch_order stats_order createrepo_c
         get_repomd_record_xml_path distro backup_dir (bad & Hbad & Hnot).
  unfold clean_distro.
  destruct (consistent_init re_search distro backup_dir) as [Hc Hh].
  destruct (index_repos_spec path_exists primary_packages
              (dc_repositories distro) _ _ Hc Hh)
    as (self' & db' & o & E & _ & Ho).
  destruct o as [f|].
  - exists self', db', f. split; [now apply cleanup_not_indexed|].
    destruct Ho
      as (repo & Hrepo &
          [[_ Hf]|(arch & path & Hin & [[Hpath Hf]|[Hread Hf]])]).
    + split; [now left|]. intros _. now left.
    + split; [right; left; eauto|]. intros _. right. eauto.
    + split; [right; right; eauto|]. intros Hreadable. exfalso.
      rewrite Forall_forall in Hreadable.
      exact (Hreadable repo Hrepo arch path Hin Hread).
  - exfalso. destruct Ho as (_ & _ & Hall & _).
    rewrite Forall_forall in Hall. now apply Hnot, Hall.
Qed.

(** The repository of the channel [testing] comes last in the
    configuration: the two before it are indexed, and nothing is moved. *)
Lemma cleanup_stops_at_the_testing_repository :
  exists self db f,
    clean_distro Distro.files_in_place Distro.every_path_exists
      Distro.primary_packages Distro.starts_with Rpm.labelCompare
      Rpm.splitFilename insertion_order Distro.as_inserted Distro.as_inserted
      Distro.createrepo_succeeds Distro.no_group_file
      Distro.config_with_testing "/backup"
    = {| run_self := self; run_db := db; run_files := no_files;
         run_commands := []; run_report := []; run_failure := Some f |} /\
    (f = PythonError ValueError \/
     (exists path,
        Distro.every_path_exists path = false /\
        f = RepositoryDoesNotExist path) \/
     (exists path,
        Distro.primary_packages path = None /\ f = MetadataNotRead path)) /\
    (Forall (readable Distro.primary_packages)
            (dc_repositories Distro.config_with_testing) ->
     f = PythonError ValueError \/
     exists path,
       Distro.every_path_exists path = false /\
       f = RepositoryDoesNotExist path).
Proof.
  apply (cleanup_stops_before_any_file_is_moved Distro.files_in_place
           Distro.every_path_exists Distro.primary_packages
           Distro.starts_with Rpm.labelCompare Rpm.splitFilename
           insertion_order Distro.as_inserted Distro.as_inserted
           Distro.createrepo_succeeds Distro.no_group_file
           Distro.config_with_testing "/backup").
  exists Distro.testing. split.
  - simpl. tauto.
  - intros [[channel Hchannel] _]. vm_compute in Hchannel. discriminate.
Defined.

(** How [cleanup] can end when the configuration is accepted and its
    metadata can be read. *)
Lemma cleanup_of_an_accepted_configuration (E : exn -> Prop) :
  forall fs path_exists primary_packages re_search labelCompare splitFilename
         iteration_order arch_order stats_order createrepo_c
         get_repomd_record_xml_path distro backup_dir,
  (forall before dir, makedirs fs before dir = false -> E EnvironmentError) ->
  (forall before m, shutil_move fs before m = false -> E EnvironmentError) ->
  (forall d, Permutation (iteration_order d) d) ->
  (forall d, Permutation (arch_order d) d) ->
  (forall d, Permutation (stats_order d) d) ->
  Forall (accepted path_exists) (dc_repositories distro) ->
  Forall (readable primary_packages) (dc_repositories distro) ->
  (forall cmd, createrepo_c cmd = 0) ->
  match run_failure
          (clean_distro fs path_exists primary_packages re_search
             labelCompare splitFilename iteration_order arch_order
             stats_order createrepo_c get_repomd_record_xml_path distro
             backup_dir) with
  | None => True
  | Some (PythonError e) => E e
  | Some _ => False
  end.
Proof.
  intros fs path_exists primary_packages re_search labelCompare splitFilename
         iteration_order arch_order stats_order createrepo_c
         get_repomd_record_xml_path distro backup_dir Hdirs Hmoves Hperm
         Harch Hstats Hacc Hreadable Hok.
  unfold clean_distro.
  destruct (consistent_init re_search distro backup_dir) as [Hc Hh].
  destruct (index_repos_spec path_exists primary_packages
              (dc_repositories distro) _ _ Hc Hh)
    as (self' & db' & o & Ei & _ & Ho).
  destruct o as [f|].
  { exfalso. destruct Ho as (repo & Hrepo & Hf).
    rewrite Forall_forall in Hacc, Hreadable.
    destruct (Hacc repo Hrepo) as [[channel Hchannel] Hpaths].
    destruct Hf as [[Hraised _]|(arch & path & Hin & [[Hpath _]|[Hread _]])].
    - congruence.
    - rewrite (Hpaths arch path Hin) in Hpath. discriminate.
    - exact (Hreadable repo Hrepo arch path Hin Hread). }
  destruct Ho as (Hc' & _).
  unfold cleanup. rewrite Ei.
  pose proof (cleanup_archs_raises_only fs labelCompare splitFilename
                iteration_order arch_order Hperm E self' db' Hdirs Hmoves Hc'
                no_files) as Hraises.
  pose proof (cleanup_archs_keeps fs labelCompare splitFilename iteration_order
                arch_order self' db' (repos_by_arch_of db')
                (counted_repositories_lost_a_file self')
                (cleanup_version_keeps_counted fs self') no_files) as Hkeeps.
  destruct Hkeeps as [Hcounted _]; [intros ? []|].
  destruct (cleanup_archs fs labelCompare splitFilename iteration_order
              arch_order self' db' (repos_by_arch_of db') no_files)
    as [files [[]|e]]; cbn [fst snd run_failure] in *; [|exact Hraises].
  assert (Hknown : forall repo_id,
            In repo_id (map fst (stats_order (stats files))) ->
            exists repo, find_repo (repos_by_id self') repo_id = Some repo).
  { intros k Hk.
    apply (Permutation_in _ (Permutation_map fst (Hstats (stats files))))
      in Hk.
    destruct (Hcounted k Hk) as (repo & _ & Hrepo & _). eauto. }
  pose proof (update_repodata_returns createrepo_c get_repomd_record_xml_path
                self' _ [] Hknown Hok) as Hupdate.
  destruct (update_repodata createrepo_c get_repomd_record_xml_path self'
              (map fst (stats_order (stats files))) []) as [ran o].
  cbn [snd] in Hupdate. subst o.
  pose proof (report_lines_returns self' _ ([] ++ ["Cleanup report:"]) Hknown)
    as Hreport.
  unfold print_report, bind.
  destruct (report_lines self' (stats_order (stats files))
              ([] ++ ["Cleanup report:"])) as [printed o].
  cbn [snd] in Hreport. subst o. exact I.
Qed.

(** X14: a fresh cleaner, with dictionaries walked in whatever order,
    whose configuration names the channels [stable] and [beta] only, whose
    paths all exist and hold metadata that can be read, and for which
    [createrepo_c] returns 0: nothing the program looks up by index or key
    is missing.  [cleanup] returns, or it ends with the error of the file
    system at a directory it could not make or a file it could not move;
    on a file system that refuses nothing it returns. *)
Theorem cleanup_fails_for_the_file_system_only :
  forall fs path_exists primary_packages re_search labelCompare splitFilename
         iteration_order arch_order stats_order createrepo_c
         get_repomd_record_xml_path distro backup_dir,
  (forall d, Permutation (iteration_order d) d) ->
  (forall d, Permutation (arch_order d) d) ->
  (forall d, Permutation (stats_order d) d) ->
  Forall (accepted path_exists) (dc_repositories distro) ->
  Forall (readable primary_packages) (dc_repositories distro) ->
  (forall cmd, createrepo_c cmd = 0) ->
  let r := clean_distro fs path_exists primary_packages re_search labelCompare
             splitFilename iteration_order arch_order stats_order createrepo_c
             get_repomd_record_xml_path distro backup_dir in
  (run_failure r = None \/
   run_failure r = Some (PythonError EnvironmentError)) /\
  ((forall before dir, makedirs fs before dir = true) ->
   (forall before m, shutil_move fs before m = true) ->
   run_failure r = None).
Proof.
  intros fs path_exists primary_packages re_search labelCompare splitFilename
         iteration_order arch_order stats_order createrepo_c
         get_repomd_record_xml_path distro backup_dir Hperm Harch Hstats
         Hacc Hreadable Hok r.
  split.
  - pose proof (cleanup_of_an_accepted_configuration
                  (fun e => e = EnvironmentError)
                  fs path_exists primary_packages re_search labelCompare
                  splitFilename iteration_order arch_order stats_order
                  createrepo_c get_repomd_record_xml_path distro backup_dir
                  (fun _ _ _ => eq_refl) (fun _ _ _ => eq_refl)
                  Hperm Harch Hstats Hacc Hreadable Hok) as H.
    fold r in H. destruct (run_failure r) as [[| |e]|];
      [contradiction|contradiction|right; now rewrite H|now left].
  - intros Hdirs Hmoves.
    pose proof (cleanup_of_an_accepted_configuration (fun _ => False)
                  fs path_exists primary_packages re_search labelCompare
                  splitFilename iteration_order arch_order stats_order
                  createrepo_c get_repomd_record_xml_path distro backup_dir)
      as H.
    specialize (H (fun before dir Hno =>
                     eq_ind true (fun b => if b then True else False) I false
                       (eq_trans (eq_sym (Hdirs before dir)) Hno))
                  (fun before m Hno =>
                     eq_ind true (fun b => if b then True else False) I false
                       (eq_trans (eq_sym (Hmoves before m)) Hno))
                  Hperm Harch Hstats Hacc Hreadable Hok).
    fold r in H. destruct (run_failure r) as [[| |e]|];
      [contradiction|contradiction|contradiction|reflexivity].
Qed.

(** The small configuration is accepted and its metadata can be read. *)
Lemma cleanup_of_the_small_configuration_fails_for_the_file_system_only :
  (run_failure (Distro.clean Distro.config) = None \/
   run_failure (Distro.clean Distro.config)
   = Some (PythonError EnvironmentError)) /\
  ((forall before dir, makedirs Distro.files_in_place before dir = true) ->
   (forall before m, shutil_move Distro.files_in_place before m = true) ->
   run_failure (Distro.clean Distro.config) = None).
Proof.
  apply (cleanup_fails_for_the_file_system_only Distro.files_in_place
           Distro.every_path_exists Distro.primary_packages Distro.starts_with
           Rpm.labelCompare Rpm.splitFilename insertion_order
           Distro.as_inserted Distro.as_inserted Distro.createrepo_succeeds
           Distro.no_group_file Distro.config "/backup").
  - intros d. apply Permutation_refl.
  - intros d. apply Permutation_refl.
  - intros d. apply Permutation_refl.
  - repeat constructor; try (eexists; reflexivity).
  - repeat constructor; intros arch path Hin; simpl in Hin;
      repeat (destruct Hin as [[= <- <-]|Hin]; [discriminate|]);
      contradiction.
  - reflexivity.
Defined.

(** With every file in place, the run of the small configuration
    returns: foo 9, foo 8 and kernel 2 leave the beta repository. *)
Example cleanup_of_the_small_configuration_returns :
  run_failure (Distro.clean Distro.config) = None /\
  map (fun m => Pkg.location (rm_package m))
      (moved (run_files (Distro.clean Distro.config)))
  = ["foo-9-1.x86_64.rpm"; "foo-8-1.x86_64.rpm"; "kernel-2-1.x86_64.rpm"] /\
  files_moved Distro.files_in_place
    (moved (run_files (Distro.clean Distro.config)))
  = moved (run_files (Distro.clean Distro.config)).
Proof. vm_compute. auto. Qed.

(** X15: a fresh cleaner with an [exclude] pattern, with dictionaries
    walked in whatever order, never moves a file of a package whose source
    file name is not empty and has the pattern in it: what
    [__save_repo_package] skips, [cleanup] does not touch. *)
Theorem excluded_sources_are_never_moved :
  forall fs path_exists primary_packages re_search labelCompare splitFilename
         iteration_order arch_order stats_order createrepo_c
         get_repomd_record_xml_path distro backup_dir pattern,
  (forall d, Permutation (iteration_order d) d) ->
  (forall d, Permutation (arch_order d) d) ->
  dc_exclude distro = Some pattern ->
  Forall (fun m =>
            forall srpm,
              Pkg.sourcerpm (rm_package m) = Some srpm ->
              srpm <> "" ->
              re_search pattern srpm = false)
         (moved (run_files
                   (clean_distro fs path_exists primary_packages re_search
                      labelCompare splitFilename iteration_order arch_order
                      stats_order createrepo_c get_repomd_record_xml_path
                      distro backup_dir))).
Proof.
  intros fs path_exists primary_packages re_search labelCompare splitFilename
         iteration_order arch_order stats_order createrepo_c
         get_repomd_record_xml_path distro backup_dir pattern Hperm Harch
         Hpattern.
  unfold clean_distro.
  destruct (consistent_init re_search distro backup_dir) as [Hc Hh].
  destruct (index_repos_spec path_exists primary_packages
              (dc_repositories distro) _ _ Hc Hh)
    as (self' & db' & o & E & (repos' & Hself) & Ho).
  destruct o as [f|].
  - rewrite (cleanup_not_indexed _ _ _ _ _ _ _ _ _ _ _ _ _ _ _ _ _ _ E).
    constructor.
  - destruct Ho as (Hc' & Hh' & _).
    destruct (cleanup_indexed fs path_exists primary_packages labelCompare
                splitFilename iteration_order arch_order stats_order
                createrepo_c get_repomd_record_xml_path _ _ _ no_files []
                _ _ E) as (_ & _ & ->).
    destruct (cleanup_archs_within_one_architecture fs labelCompare
        splitFilename
                iteration_order arch_order Hperm Harch self' db' Hc' no_files)
      as (new & Em & F & _).
    rewrite Em. cbn [moved no_files app].
    eapply Forall_impl; [|exact F]. cbn beta.
    intros m (repo & repo1 & Hin & _) srpm Hsrpm Hne.
    pose proof (Hh' _ srpm Hin Hsrpm Hne) as Hex.
    rewrite Hself in Hex. unfold is_srpm_excluded in Hex.
    cbn [exclude_re with_repos init] in Hex.
    rewrite Hpattern in Hex. exact Hex.
Qed.

(** With [exclude: kernel], foo 9 and foo 8 are moved, and neither comes
    from a source whose name starts with kernel; kernel 2, which the run
    without the pattern moves, stays. *)
Lemma excluded_sources_of_the_small_configuration :
  Forall (fun m =>
            forall srpm,
              Pkg.sourcerpm (rm_package m) = Some srpm ->
              srpm <> "" ->
              Distro.starts_with "kernel" srpm = false)
         (moved (run_files (Distro.clean Distro.config_excluding_kernel))).
Proof.
  apply (excluded_sources_are_never_moved Distro.files_in_place
           Distro.every_path_exists Distro.primary_packages
           Distro.starts_with Rpm.labelCompare Rpm.splitFilename
           insertion_order Distro.as_inserted Distro.as_inserted
           Distro.createrepo_succeeds Distro.no_group_file
           Distro.config_excluding_kernel "/backup" "kernel").
  - intros d. apply Permutation_refl.
  - intros d. apply Permutation_refl.
  - reflexivity.
Defined.

(** The files moved in that run. *)
Example files_moved_when_kernel_is_excluded :
  map (fun m => Pkg.location (rm_package m))
      (moved (run_files (Distro.clean Distro.config_excluding_kernel)))
  = ["foo-9-1.x86_64.rpm"; "foo-8-1.x86_64.rpm"].
Proof. reflexivity. Qed.

(* ================================================================== *)
(** * [__cleanup_arch], one source name after another *)
(* ================================================================== *)

Section SourceBySource.
Variable fs : filesystem.
Variable labelCompare : label -> label -> Z.
Variable splitFilename :
  option string -> option (string * string * string * string * string).
Variable iteration_order :
  list (version_key * list Pkg.t) -> list (version_key * list Pkg.t).
Variable self : DistroCleaner.

Lemma cleanup_arch_row_first repos next n' v r e a ex :
  splitFilename (Pkg.sourcerpm next) = Some (n', v, r, e, a) ->
  cleanup_arch_row fs labelCompare splitFilename iteration_order self repos
    (None, []) next ex
  = (ex, Returned (Some n', add_version (v, r) next [])).
Proof. intros E. unfold cleanup_arch_row. now rewrite E. Qed.

Lemma cleanup_arch_row_other repos n versions next n' v r e a ex :
  splitFilename (Pkg.sourcerpm next) = Some (n', v, r, e, a) ->
  n' <> n ->
  cleanup_arch_row fs labelCompare splitFilename iteration_order self repos
    (Some n, versions) next ex
  = match (if 1 <? Z.of_nat (List.length versions)
           then cleanup_previous_versions fs labelCompare self (Some n)
                  (map snd (iteration_order versions)) repos
           else ret tt) ex with
    | (ex', Returned _) =>
        (ex', Returned (Some n', add_version (v, r) next []))
    | (ex', Raised err) => (ex', Raised err)
    end.
Proof.
  intros E Hne. unfold cleanup_arch_row. rewrite E.
  unfold name_differs.
  destruct (String.eqb_spec n n') as [->|_]; [congruence|]. cbn [negb].
  unfold bind, ret.
  destruct ((if 1 <? Z.of_nat (List.length versions)
             then cleanup_previous_versions fs labelCompare self (Some n)
                    (map snd (iteration_order versions)) repos
             else fun s => (s, Returned tt)) ex) as [ex' [[]|err]];
    reflexivity.
Qed.

Lemma cleanup_rows_first_group repos n row rows n' next rest ex :
  (forall r, In r (row :: rows) -> srpm_name_of splitFilename r = Some n) ->
  srpm_name_of splitFilename next = Some n' ->
  n' <> n ->
  cleanup_rows fs labelCompare splitFilename iteration_order self repos
    ((row :: rows) ++ next :: rest) ex
  = ((if 1 <? Z.of_nat (List.length (gather splitFilename (row :: rows) []))
      then cleanup_previous_versions fs labelCompare self (Some n)
             (map snd (iteration_order
                         (gather splitFilename (row :: rows) []))) repos
      else ret tt) ;;;
     cleanup_rows fs labelCompare splitFilename iteration_order self repos
       (next :: rest)) ex.
Proof.
  intros Hrows Hnext Hne.
  unfold srpm_name_of in Hnext.
  destruct (splitFilename (Pkg.sourcerpm next))
    as [[[[[nm v] r] e] a]|] eqn:Esplit; [|discriminate].
  injection Hnext as ->.
  unfold cleanup_rows. unfold bind at 1.
  rewrite PyFacts.for_fold_app. unfold bind at 1.
  rewrite (first_rows_gather fs labelCompare splitFilename iteration_order self
             repos n row rows ex Hrows).
  cbn [for_fold]. unfold bind at 1.
  rewrite (cleanup_arch_row_other repos n _ next n' v r e a ex Esplit Hne).
  unfold bind.
  destruct ((if 1 <? Z.of_nat
                       (List.length (gather splitFilename (row :: rows) []))
             then cleanup_previous_versions fs labelCompare self (Some n)
                    (map snd (iteration_order
                                (gather splitFilename (row :: rows) [])))
                    repos
             else ret tt) ex) as [ex' [[]|err]]; [|reflexivity].
  now rewrite (cleanup_arch_row_first repos next n' v r e a ex' Esplit).
Qed.

End SourceBySource.

(** X16: [__cleanup_arch] works through the rows one source name after
    another.  When the rows start with those of one source name, all of
    which split, and go on with a row of another name, the loop hands the
    versions gathered from the first to [__cleanup_previous_versions] if
    they are more than one, and then does to the remaining rows what it
    does when they are all there is. *)
Theorem rows_are_cleaned_one_source_name_after_another :
  forall fs labelCompare splitFilename iteration_order self repos
         n row rows n' next rest ex,
    (forall r, In r (row :: rows) -> srpm_name_of splitFilename r = Some n) ->
    srpm_name_of splitFilename next = Some n' ->
    n' <> n ->
    cleanup_rows fs labelCompare splitFilename iteration_order self repos
      ((row :: rows) ++ next :: rest) ex
    = ((if 1 <? Z.of_nat (List.length (gather splitFilename (row :: rows) []))
        then cleanup_previous_versions fs labelCompare self (Some n)
               (map snd (iteration_order
                           (gather splitFilename (row :: rows) []))) repos
        else ret tt) ;;;
       cleanup_rows fs labelCompare splitFilename iteration_order self repos
         (next :: rest)) ex.
Proof.
  intros fs labelCompare splitFilename iteration_order self repos
         n row rows n' next rest ex Hrows Hnext Hne.
  now apply cleanup_rows_first_group with (n' := n').
Qed.

(** The rows of foo, then the row of zlib. *)
Lemma rows_of_foo_are_cleaned_before_zlib :
  cleanup_rows Scenario.files_in_place Rpm.labelCompare Rpm.splitFilename
      insertion_order
    Scenario.cleaner Scenario.repos
    ((Scenario.stable_10
      :: [Scenario.beta_10; Scenario.beta_8; Scenario.beta_9])
     ++ Scenario.other :: []) Scenario.start
  = ((if 1 <? Z.of_nat
                (List.length
                   (gather Rpm.splitFilename
                      (Scenario.stable_10
                       :: [Scenario.beta_10; Scenario.beta_8;
                           Scenario.beta_9]) []))
      then cleanup_previous_versions Scenario.files_in_place Rpm.labelCompare
          Scenario.cleaner
             (Some "foo")
             (map snd
                (insertion_order
                   (gather Rpm.splitFilename
                      (Scenario.stable_10
                       :: [Scenario.beta_10; Scenario.beta_8;
                           Scenario.beta_9]) []))) Scenario.repos
      else ret tt) ;;;
     cleanup_rows Scenario.files_in_place Rpm.labelCompare Rpm.splitFilename
         insertion_order
       Scenario.cleaner Scenario.repos (Scenario.other :: []))
      Scenario.start.
Proof.
  apply (rows_are_cleaned_one_source_name_after_another Scenario.files_in_place
      Rpm.labelCompare
           Rpm.splitFilename insertion_order Scenario.cleaner Scenario.repos
           "foo" Scenario.stable_10
           [Scenario.beta_10; Scenario.beta_8; Scenario.beta_9]
           "zlib" Scenario.other [] Scenario.start).
  - intros r [<-|[<-|[<-|[<-|[]]]]]; reflexivity.
  - reflexivity.
  - discriminate.
Defined.

(* ================================================================== *)
(** * Where the whole run regenerates the metadata *)
(* ================================================================== *)

Lemma preserves_ext {A : Type} (m m' : M executor A) I (Q : A -> Prop) :
  (forall ex, m ex = m' ex) -> preserves m I Q -> preserves m' I Q.
Proof. intros E Hm ex Hex. rewrite <- E. now apply Hm. Qed.

Section KeptByGroups.
Variable fs : filesystem.
Variable labelCompare : label -> label -> Z.
Variable splitFilename :
  option string -> option (string * string * string * string * string).
Variable iteration_order :
  list (version_key * list Pkg.t) -> list (version_key * list Pkg.t).
Variable self : DistroCleaner.

Hypothesis iteration_is_permutation :
  forall d, Permutation (iteration_order d) d.

(** What [__cleanup_version] keeps when it is handed rows that satisfy [R],
    [__cleanup_arch] keeps when all its rows do. *)
Variable R : Pkg.t -> Prop.
Variable I : executor -> Prop.
Hypothesis cleanup_version_keeps :
  forall group reason,
    group <> [] -> (forall p, In p group -> R p) ->
    preserves (cleanup_version fs self group reason) I (fun _ => True).

Lemma cleanup_previous_versions_keeps_groups srpm_name versions repos :
  (forall v, In v versions -> v <> [] /\ forall p, In p v -> R p) ->
  preserves (cleanup_previous_versions fs labelCompare self srpm_name versions
               repos) I (fun _ => True).
Proof.
  intros Hversions.
  assert (Hne : Forall (fun v : list Pkg.t => v <> []) versions).
  { apply Forall_forall. intros v Hv. now apply Hversions. }
  destruct (rearrange_returns labelCompare srpm_name
              (stable_repo_ids_of repos) versions None [] Hne)
    as (latest & E).
  eapply preserves_ext.
  { intros ex. symmetry.
    apply (cleanup_previous_versions_plan fs labelCompare self srpm_name
        versions
             repos latest _ E). }
  unfold run_plan. apply preserves_for_each.
  intros [v reason] Hv. cbn [fst snd].
  apply removal_plan_incl, PyFacts.sort_reverse_In in Hv.
  cbn [app] in Hv. apply in_map_iff in Hv. destruct Hv as (v0 & <- & Hv0).
  destruct (Hversions v0 Hv0) as [Hnonempty Hrows].
  apply cleanup_version_keeps.
  - intros Hnil. now apply PyFacts.sort_reverse_nil in Hnil.
  - intros p Hp. apply Hrows. now apply (main_first_In srpm_name).
Qed.

Lemma cleanup_arch_row_keeps_groups repos vars row :
  R row ->
  well_filed splitFilename R vars ->
  preserves (cleanup_arch_row fs labelCompare splitFilename iteration_order self
               repos vars row) I (well_filed splitFilename R).
Proof.
  intros HR Hvars. destruct vars as [ln vs]. unfold cleanup_arch_row.
  destruct (splitFilename (Pkg.sourcerpm row))
    as [[[[[srpm_name srpm_version] srpm_release] e] a]|] eqn:Hsplit.
  - assert (Hn : srpm_name_of splitFilename row = Some srpm_name)
      by (unfold srpm_name_of; now rewrite Hsplit).
    assert (Hk : version_key_of splitFilename row
                 = Some (srpm_version, srpm_release))
      by (unfold version_key_of; now rewrite Hsplit).
    apply preserves_bind with
      (Q := fun vars' => fst vars' = Some srpm_name /\
                         well_filed splitFilename R vars').
    + destruct (name_differs ln srpm_name) eqn:Hd.
      * apply preserves_bind with (Q := fun _ => True).
        -- destruct (1 <? Z.of_nat (List.length vs)).
           ++ apply cleanup_previous_versions_keeps_groups.
              intros v Hv.
              apply in_map_iff in Hv. destruct Hv as ([k v'] & <- & Hkv).
              apply (Permutation_in _ (iteration_is_permutation vs)) in Hkv.
              destruct Hvars as [_ Hin]. cbn [fst snd] in *.
              destruct (Hin k v' Hkv) as [Hnonempty Hrows].
              split; auto. intros p Hp. now apply Hrows.
           ++ now apply preserves_ret.
        -- intros _ _. apply preserves_ret. split; [reflexivity|].
           split; simpl; [constructor|intros ? ? []].
      * apply preserves_ret.
        destruct ln as [n|]; simpl in Hd; [|discriminate].
        apply negb_false_iff, String.eqb_eq in Hd. subst n. auto.
    + intros [ln' vs'] [Hln Hw]. simpl in Hln. subst ln'.
      apply preserves_ret. cbn [fst snd].
      now apply add_version_well_filed.
  - destruct (find_repo repos (Pkg.repo_id row));
      [now apply preserves_ret|apply preserves_raise].
Qed.

Lemma cleanup_rows_keeps_groups repos rows :
  (forall row, In row rows -> R row) ->
  preserves (cleanup_rows fs labelCompare splitFilename iteration_order self
      repos
               rows) I (fun _ => True).
Proof.
  intros HR. unfold cleanup_rows.
  apply preserves_bind with (Q := well_filed splitFilename R);
    [|intros; now apply preserves_ret].
  apply preserves_for_fold.
  - intros vars row Hrow Hvars. apply cleanup_arch_row_keeps_groups; auto.
  - split; simpl; [constructor|intros ? ? []].
Qed.

End KeptByGroups.

Section CountedRepositories.
Variable fs : filesystem.
Variable labelCompare : label -> label -> Z.
Variable splitFilename :
  option string -> option (string * string * string * string * string).
Variable iteration_order :
  list (version_key * list Pkg.t) -> list (version_key * list Pkg.t).
Variable arch_order :
  list (string * list Repo.t) -> list (string * list Repo.t).
Variable self : DistroCleaner.
Variable db : database.

Hypothesis iteration_is_permutation :
  forall d, Permutation (iteration_order d) d.
Hypothesis arch_order_is_permutation :
  forall d, Permutation (arch_order d) d.
Hypothesis indexed : consistent self db.

(** Every repository with a count is a row of [repositories] that is
    neither read-only nor of architecture [src]. *)
Local Abbreviation counted_are_cleaned ex :=
  (forall repo_id,
     In repo_id (map fst (stats ex)) ->
     exists repo,
       find_repo (repos_by_id self) repo_id = Some repo /\
       In repo (repositories db) /\
       Repo.readonly repo = false /\ Repo.arch repo <> "src").

Lemma cleanup_version_keeps_cleaned arch repos group reason :
  In (arch, repos) (repos_by_arch_of db) -> arch <> "src" ->
  group <> [] ->
  (forall p, In p group -> In p (select_packages db repos)) ->
  preserves (cleanup_version fs self group reason)
            (fun ex => counted_are_cleaned ex) (fun _ => True).
Proof.
  intros Hentry Hsrc Hne Hrows ex Hex.
  assert (Hq : match snd (cleanup_version fs self group reason ex) with
               | Returned _ => True
               | Raised _ => True
               end) by now destruct (snd _).
  split; [|exact Hq].
  destruct (cleanup_version_moves fs self group reason ex)
    as [E|(first & rest & repo & -> & Hrepo & Hro & E)]; rewrite E.
  - exact Hex.
  - intros k Hk. cbn [stats] in Hk.
    apply dict_set_keys in Hk. destruct Hk as [->|Hk]; [|now apply Hex].
    exists repo. split; [exact Hrepo|].
    destruct indexed as (Hrepos & Hnd & _).
    pose proof (Hrows first (or_introl eq_refl)) as Hsel.
    apply select_packages_In in Hsel. destruct Hsel as [_ Hmem].
    apply mem_In, in_map_iff in Hmem. destruct Hmem as (r1 & Hid1 & Hr1).
    destruct (repos_by_arch_entries db arch repos Hentry r1 Hr1)
      as [Hr1_db Hr1_arch].
    apply find_repo_In in Hrepo. destruct Hrepo as [Hin Hid].
    rewrite Hrepos in Hin.
    assert (repo = r1).
    { apply (NoDup_map_inj Repo.repo_id (repositories db)); auto. congruence. }
    subst r1. split; [exact Hin|]. split; [exact Hro|congruence].
Qed.

Lemma cleanup_archs_keeps_cleaned :
  preserves (cleanup_archs fs labelCompare splitFilename iteration_order
               arch_order self db (repos_by_arch_of db))
            (fun ex => counted_are_cleaned ex) (fun _ => True).
Proof.
  unfold cleanup_archs. apply preserves_for_each.
  intros [arch repos] Hentry. cbn [fst snd].
  apply (Permutation_in _ (arch_order_is_permutation _)) in Hentry.
  destruct (String.eqb_spec arch "src") as [->|Hsrc].
  - now apply preserves_ret.
  - apply (cleanup_rows_keeps_groups fs labelCompare splitFilename
             iteration_order self iteration_is_permutation
             (fun p => In p (select_packages db repos))).
    + intros group reason Hne Hrows.
      now apply (cleanup_version_keeps_cleaned arch repos).
    + auto.
Qed.

End CountedRepositories.

(** X17: a fresh cleaner, with dictionaries walked in whatever order, runs
    [createrepo_c] only in repositories that are neither read-only nor of
    architecture [src]: every command run is the one [create_repo] builds
    for the path of such a row of [repositories], with the group file of
    its metadata. *)
Theorem metadata_is_regenerated_in_cleaned_repositories_only :
  forall fs path_exists primary_packages re_search labelCompare splitFilename
         iteration_order arch_order stats_order createrepo_c
         get_repomd_record_xml_path distro backup_dir,
  (forall d, Permutation (iteration_order d) d) ->
  (forall d, Permutation (arch_order d) d) ->
  (forall d, Permutation (stats_order d) d) ->
  let r := clean_distro fs path_exists primary_packages re_search labelCompare
             splitFilename iteration_order arch_order stats_order createrepo_c
             get_repomd_record_xml_path distro backup_dir in
  Forall (fun cmd =>
            exists repo,
              In repo (repositories (run_db r)) /\
              Repo.readonly repo = false /\
              Repo.arch repo <> "src" /\
              cmd = createrepo_command (Repo.path repo)
                      (get_repomd_record_xml_path (Repo.path repo) "group"))
         (run_commands r).
Proof.
  intros fs path_exists primary_packages re_search labelCompare splitFilename
         iteration_order arch_order stats_order createrepo_c
         get_repomd_record_xml_path distro backup_dir Hperm Harch Hstats r.
  subst r. unfold clean_distro.
  destruct (consistent_init re_search distro backup_dir) as [Hc Hh].
  destruct (index_repos_spec path_exists primary_packages
              (dc_repositories distro) _ _ Hc Hh)
    as (self' & db' & o & E & _ & Ho).
  destruct o as [f|].
  { rewrite (cleanup_not_indexed _ _ _ _ _ _ _ _ _ _ _ _ _ _ _ _ _ _ E).
    constructor. }
  destruct Ho as (Hc' & _).
  unfold cleanup. rewrite E.
  pose proof (cleanup_archs_keeps_cleaned fs labelCompare splitFilename
                iteration_order arch_order self' db' Hperm Harch Hc' no_files)
    as Hkeeps.
  destruct Hkeeps as [Hcounted _]; [intros ? []|].
  destruct (cleanup_archs fs labelCompare splitFilename iteration_order
              arch_order self' db' (repos_by_arch_of db') no_files)
    as [files [[]|e]]; cbn [fst] in Hcounted; [|constructor].
  destruct (update_repodata_known createrepo_c get_repomd_record_xml_path
              self'
              (fun repo => In repo (repositories db') /\
                           Repo.readonly repo = false /\
                           Repo.arch repo <> "src")
              (map fst (stats_order (stats files))) [])
    as (cmds & Ecmds & F & _).
  { intros k Hk.
    apply (Permutation_in _ (Permutation_map fst (Hstats (stats files))))
      in Hk.
    destruct (Hcounted k Hk) as (repo & Hrepo & H). eauto. }
  assert (Hall : Forall (fun cmd =>
            exists repo,
              In repo (repositories db') /\
              Repo.readonly repo = false /\
              Repo.arch repo <> "src" /\
              cmd = createrepo_command (Repo.path repo)
                      (get_repomd_record_xml_path (Repo.path repo) "group"))
            (fst (update_repodata createrepo_c get_repomd_record_xml_path
                    self' (map fst (stats_order (stats files))) []))).
  { rewrite Ecmds. cbn [app]. eapply Forall_impl; [|exact F]. cbn beta.
    intros cmd (repo & _ & (Hin & Hro & Hsrc) & Hcmd). exists repo. auto. }
  destruct (update_repodata createrepo_c get_repomd_record_xml_path self'
              (map fst (stats_order (stats files))) []) as [ran [[]|e]];
    cbn [fst] in Hall; [|exact Hall].
  destruct (print_report self' (stats_order (stats files)) [])
    as [printed [[]|e]]; exact Hall.
Qed.

(** The small configuration: the command is run in the beta repository of
    x86_64, out of which foo 9, foo 8 and kernel 2 were moved. *)
Lemma metadata_of_the_small_configuration_is_regenerated :
  Forall (fun cmd =>
            exists repo,
              In repo (repositories (run_db (Distro.clean Distro.config))) /\
              Repo.readonly repo = false /\
              Repo.arch repo <> "src" /\
              cmd = createrepo_command (Repo.path repo)
                      (Distro.no_group_file (Repo.path repo) "group"))
         (run_commands (Distro.clean Distro.config)).
Proof.
  apply (metadata_is_regenerated_in_cleaned_repositories_only
      Distro.files_in_place
           Distro.every_path_exists Distro.primary_packages Distro.starts_with
           Rpm.labelCompare Rpm.splitFilename insertion_order
           Distro.as_inserted Distro.as_inserted Distro.createrepo_succeeds
           Distro.no_group_file Distro.config "/backup").
  - intros d. apply Permutation_refl.
  - intros d. apply Permutation_refl.
  - intros d. apply Permutation_refl.
Defined.

(* ================================================================== *)
(** * What [__print_report] adds up *)
(* ================================================================== *)

Section KeepsOnReturn.

Lemma keeps_on_return_ret {A : Type} (a : A) I :
  keeps_on_return (ret a) I.
Proof. intros ex Hex. exact Hex. Qed.

Lemma keeps_on_return_raise {A : Type} e I :
  keeps_on_return (@raise executor A e) I.
Proof. intros ex Hex. exact Logic.I. Qed.

Lemma keeps_on_return_bind {A B : Type} (m : M executor A)
    (k : A -> M executor B) I :
  keeps_on_return m I -> (forall a, keeps_on_return (k a) I) ->
  keeps_on_return (bind m k) I.
Proof.
  intros Hm Hk ex Hex. unfold bind. specialize (Hm ex Hex).
  destruct (m ex) as [ex1 [a|e]]; cbn [fst snd] in *.
  - apply (Hk a ex1 Hm).
  - exact Logic.I.
Qed.

Lemma keeps_on_return_for_each {A : Type} (f : A -> M executor unit) l I :
  (forall x, keeps_on_return (f x) I) -> keeps_on_return (for_each f l) I.
Proof.
  intros H. induction l as [|x l IH]; simpl.
  - apply keeps_on_return_ret.
  - apply keeps_on_return_bind; [apply H|intros _; exact IH].
Qed.

Lemma keeps_on_return_for_fold {A B : Type} (f : B -> A -> M executor B) l I :
  (forall b x, keeps_on_return (f b x) I) ->
  forall b, keeps_on_return (for_fold f l b) I.
Proof.
  intros H. induction l as [|x l IH]; intros b; simpl.
  - apply keeps_on_return_ret.
  - apply keeps_on_return_bind; [apply H|intros b'; apply IH].
Qed.

End KeepsOnReturn.

(** When every call of the loop is carried out, every call is made and
    moves its file. *)
Lemma carried_out_all fs calls : forall history,
  carried_out fs history calls = List.length calls ->
  attempted fs history calls = calls /\
  files_moved_from fs history calls = calls.
Proof.
  induction calls as [|m calls IH]; intros history;
    cbn [carried_out attempted files_moved_from List.length]; [auto|].
  destruct (shutil_move fs history m); [|discriminate].
  intros [= H]. destruct (IH _ H) as [-> ->]. auto.
Qed.

Section CarriedOut.
Variable fs : filesystem.
Variable labelCompare : label -> label -> Z.
Variable splitFilename :
  option string -> option (string * string * string * string * string).
Variable iteration_order :
  list (version_key * list Pkg.t) -> list (version_key * list Pkg.t).
Variable arch_order :
  list (string * list Repo.t) -> list (string * list Repo.t).
Variable self : DistroCleaner.

(** Every call of [shutil.move] on record moved its file. *)
Local Abbreviation all_moved ex := (files_moved fs (moved ex) = moved ex).

Lemma cleanup_version_carried_out packages reason :
  keeps_on_return (cleanup_version fs self packages reason)
                  (fun ex => all_moved ex).
Proof.
  intros ex Hex. destruct packages as [|first rest]; [exact I|].
  destruct (find_repo (repos_by_id self) (Pkg.repo_id first)) as [repo|]
    eqn:Hrepo; [|unfold cleanup_version; now rewrite Hrepo].
  destruct (Repo.readonly repo) eqn:Hro.
  { unfold cleanup_version. now rewrite Hrepo, Hro. }
  rewrite (cleanup_version_effect fs self first rest reason repo ex Hrepo Hro).
  destruct (makedirs fs (moved ex) _); [|exact I]. cbn [fst snd].
  destruct (Nat.eqb_spec
              (carried_out fs (moved ex)
                 (map (removal_for self repo reason) (first :: rest)))
              (List.length (first :: rest))) as [Hall|_]; [|exact I].
  rewrite <- (length_map (removal_for self repo reason)) in Hall.
  destruct (carried_out_all fs _ _ Hall) as [Ea Ef].
  cbn [moved]. rewrite Ea. unfold files_moved in *.
  rewrite files_moved_from_app, Hex. cbn [app]. now rewrite Ef.
Qed.

Lemma expire_carried_out expired : forall ord,
  keeps_on_return (expire fs self expired ord) (fun ex => all_moved ex).
Proof.
  induction expired as [|v expired IH]; intros ord; simpl.
  - apply keeps_on_return_ret.
  - apply keeps_on_return_bind; [apply cleanup_version_carried_out|].
    intros _.
    destruct (list_remove (list_eq_dec Pkg.eq_dec) v ord);
      [apply IH|apply keeps_on_return_raise].
Qed.

Lemma cleanup_previous_versions_carried_out srpm_name versions repos :
  keeps_on_return
    (cleanup_previous_versions fs labelCompare self srpm_name versions repos)
    (fun ex => all_moved ex).
Proof.
  unfold cleanup_previous_versions.
  destruct (rearrange labelCompare srpm_name (stable_repo_ids_of repos)
              versions None []) as [[latest ord]|e];
    [|apply keeps_on_return_raise].
  apply keeps_on_return_bind; [apply expire_carried_out|].
  intros ord'.
  apply keeps_on_return_bind.
  - apply keeps_on_return_for_each. intros; apply cleanup_version_carried_out.
  - intros _. apply keeps_on_return_for_each.
    intros; apply cleanup_version_carried_out.
Qed.

Lemma cleanup_rows_carried_out repos rows :
  keeps_on_return
    (cleanup_rows fs labelCompare splitFilename iteration_order self repos
       rows) (fun ex => all_moved ex).
Proof.
  unfold cleanup_rows.
  apply keeps_on_return_bind; [|intros; apply keeps_on_return_ret].
  apply keeps_on_return_for_fold.
  intros [ln vs] row. unfold cleanup_arch_row.
  destruct (splitFilename (Pkg.sourcerpm row))
    as [[[[[srpm_name srpm_version] srpm_release] e] a]|].
  - apply keeps_on_return_bind.
    + destruct (name_differs ln srpm_name); [|apply keeps_on_return_ret].
      apply keeps_on_return_bind; [|intros; apply keeps_on_return_ret].
      destruct (1 <? Z.of_nat (List.length vs));
        [apply cleanup_previous_versions_carried_out
        |apply keeps_on_return_ret].
    + intros; apply keeps_on_return_ret.
  - destruct (find_repo repos (Pkg.repo_id row));
      [apply keeps_on_return_ret|apply keeps_on_return_raise].
Qed.

Lemma cleanup_archs_carried_out db d :
  keeps_on_return
    (cleanup_archs fs labelCompare splitFilename iteration_order arch_order
       self db d) (fun ex => all_moved ex).
Proof.
  unfold cleanup_archs. apply keeps_on_return_for_each.
  intros [arch repos]. cbn [fst snd].
  destruct (arch =? "src")%string; [apply keeps_on_return_ret|].
  apply cleanup_rows_carried_out.
Qed.

End CarriedOut.

Lemma count_total_permutation (a b : list (Z * Z)) :
  Permutation a b -> count_total a = count_total b.
Proof.
  induction 1 as [|x a b _ IH|x y a|a b c _ IH1 _ IH2]; simpl; lia.
Qed.

(** The lines [__print_report] prints when it returns: the heading, and
    for each item of [self.__stats] the line of its repository and its
    count. *)
Lemma report_lines_printed self items : forall printed printed',
  report_lines self items printed = (printed', Returned tt) ->
  exists lines : list (Repo.t * Z),
    printed' = printed
               ++ map (fun l => report_line self (fst l) (snd l)) lines /\
    Forall2 (fun item l =>
               find_repo (repos_by_id self) (fst item) = Some (fst l) /\
               snd l = snd item) items lines /\
    fold_right (fun l total => snd l + total) 0 lines = count_total items.
Proof.
  induction items as [|[repo_id count] items IH]; intros printed printed'.
  - intros [= <-]. exists []. cbn. rewrite app_nil_r. auto.
  - cbn [report_lines].
    destruct (find_repo (repos_by_id self) repo_id) as [repo|] eqn:Hrepo;
      [|discriminate].
    unfold bind. intros H. apply IH in H.
    destruct H as (lines & -> & F & Hsum).
    exists ((repo, count) :: lines). cbn [map fst snd fold_right count_total].
    rewrite <- app_assoc. split; [reflexivity|]. split.
    + constructor; auto.
    + fold (count_total items). lia.
Qed.

(** X3: [__cleanup_arch] keeps the counts of [self.__stats] in step with
    the files: when they add up to the number of files moved before the
    call, they do after it, whether it returns or raises.  So they do
    when [cleanup] ends, however it ends; and when it ends without a
    failure, every call of [shutil.move] moved its file and
    [__print_report] printed the heading and then, for each item of
    [self.__stats] as [iteritems] yields them, the line of its repository
    and its count: the counts of the lines add up to the number of files
    moved. *)
Theorem counts_add_up_to_the_files_moved :
  forall fs path_exists primary_packages re_search labelCompare splitFilename
         iteration_order arch_order stats_order createrepo_c
         get_repomd_record_xml_path distro backup_dir,
  (forall d, Permutation (stats_order d) d) ->
  (forall self db repos ex,
     count_total (stats ex)
     = Z.of_nat (List.length (files_moved fs (moved ex))) ->
     count_total
       (stats (fst (cleanup_arch fs labelCompare splitFilename
                      iteration_order self db repos ex)))
     = Z.of_nat
         (List.length
            (files_moved fs
               (moved (fst (cleanup_arch fs labelCompare splitFilename
                              iteration_order self db repos ex)))))) /\
  let r := clean_distro fs path_exists primary_packages re_search labelCompare
             splitFilename iteration_order arch_order stats_order createrepo_c
             get_repomd_record_xml_path distro backup_dir in
  count_total (stats (run_files r))
  = Z.of_nat (List.length (files_moved fs (moved (run_files r)))) /\
  (run_failure r = None ->
   files_moved fs (moved (run_files r)) = moved (run_files r) /\
   exists lines : list (Repo.t * Z),
     run_report r
     = "Cleanup report:"
       :: map (fun l => report_line (run_self r) (fst l) (snd l)) lines /\
     Forall2 (fun item l =>
                find_repo (repos_by_id (run_self r)) (fst item)
                = Some (fst l) /\
                snd l = snd item)
             (stats_order (stats (run_files r))) lines /\
     fold_right (fun l total => snd l + total) 0 lines
     = Z.of_nat (List.length (moved (run_files r)))).
Proof.
  intros fs path_exists primary_packages re_search labelCompare splitFilename
         iteration_order arch_order stats_order createrepo_c
         get_repomd_record_xml_path distro backup_dir Hstats.
  split.
  { intros self db repos ex Hex.
    apply (cleanup_rows_keeps fs labelCompare splitFilename iteration_order
             self _ (cleanup_version_keeps_total fs self) repos
             (select_packages db repos) ex Hex). }
  cbv zeta. unfold clean_distro, cleanup.
  destruct (index_repos path_exists primary_packages (dc_repositories distro)
              (init re_search distro backup_dir) create_db)
    as [[self' db'] [f|]]; cbn [run_files run_failure].
  { split; [reflexivity|discriminate]. }
  pose proof (cleanup_archs_keeps fs labelCompare splitFilename iteration_order
                arch_order self' db' (repos_by_arch_of db') _
                (cleanup_version_keeps_total fs self') no_files eq_refl)
    as [Htotal _].
  pose proof (cleanup_archs_carried_out fs labelCompare splitFilename
                iteration_order arch_order self' db' (repos_by_arch_of db')
                no_files eq_refl) as Hall.
  destruct (cleanup_archs fs labelCompare splitFilename iteration_order
              arch_order self' db' (repos_by_arch_of db') no_files)
    as [files [[]|e]]; cbn [fst snd] in Htotal, Hall;
    cbn [run_files run_failure]; [|split; [exact Htotal|discriminate]].
  destruct (update_repodata createrepo_c get_repomd_record_xml_path self'
              (map fst (stats_order (stats files))) []) as [ran [[]|e]];
    cbn [run_files run_failure]; [|split; [exact Htotal|discriminate]].
  destruct (print_report self' (stats_order (stats files)) [])
    as [printed [[]|e]] eqn:Hreport;
    cbn [run_files run_failure run_report run_self];
    [|split; [exact Htotal|discriminate]].
  split; [exact Htotal|]. intros _. split; [exact Hall|].
  unfold print_report, bind in Hreport.
  apply report_lines_printed in Hreport.
  destruct Hreport as (lines & -> & F & Hsum).
  exists lines. split; [reflexivity|]. split; [exact F|].
  rewrite Hsum, (count_total_permutation _ _ (Hstats (stats files))).
  now rewrite Htotal, Hall.
Qed.

(** The small configuration, every file in place: three files leave the
    beta repository of x86_64, and the report has one line, of three
    packages. *)
Lemma counts_add_up_in_the_small_configuration :
  (forall self db repos ex,
     count_total (stats ex)
     = Z.of_nat (List.length (files_moved Distro.files_in_place (moved ex))) ->
     count_total
       (stats (fst (cleanup_arch Distro.files_in_place Rpm.labelCompare
                      Rpm.splitFilename insertion_order self db repos ex)))
     = Z.of_nat
         (List.length
            (files_moved Distro.files_in_place
               (moved (fst (cleanup_arch Distro.files_in_place
                              Rpm.labelCompare Rpm.splitFilename
                              insertion_order self db repos ex)))))) /\
  count_total (stats (run_files (Distro.clean Distro.config)))
  = Z.of_nat
      (List.length
         (files_moved Distro.files_in_place
            (moved (run_files (Distro.clean Distro.config))))) /\
  (run_failure (Distro.clean Distro.config) = None ->
   files_moved Distro.files_in_place
     (moved (run_files (Distro.clean Distro.config)))
   = moved (run_files (Distro.clean Distro.config)) /\
   exists lines : list (Repo.t * Z),
     run_report (Distro.clean Distro.config)
     = "Cleanup report:"
       :: map (fun l =>
                 report_line (run_self (Distro.clean Distro.config))
                             (fst l) (snd l)) lines /\
     Forall2 (fun item l =>
                find_repo
                  (repos_by_id (run_self (Distro.clean Distro.config)))
                  (fst item) = Some (fst l) /\
                snd l = snd item)
             (Distro.as_inserted
                (stats (run_files (Distro.clean Distro.config)))) lines /\
     fold_right (fun l total => snd l + total) 0 lines
     = Z.of_nat
         (List.length (moved (run_files (Distro.clean Distro.config))))).
Proof.
  apply (counts_add_up_to_the_files_moved Distro.files_in_place
           Distro.every_path_exists Distro.primary_packages
           Distro.starts_with Rpm.labelCompare Rpm.splitFilename
           insertion_order Distro.as_inserted Distro.as_inserted
           Distro.createrepo_succeeds Distro.no_group_file Distro.config
           "/backup").
  intros d. apply Permutation_refl.
Defined.

(** The report of that run. *)
Example report_of_the_small_configuration :
  run_report (Distro.clean Distro.config)
  = ["Cleanup report:"; "distro-7 beta.x86_64: 3 packages deleted"] /\
  stats (run_files (Distro.clean Distro.config)) = [(3, 3)] /\
  List.length (moved (run_files (Distro.clean Distro.config))) = 3%nat.
Proof. vm_compute. auto. Qed.
